(** * mongoose-lean-extension: the path rewriter and the lean post hook

    A shallow embedding of [util/stringifyPaths.js] (the helper
    [applyStringifyAtPath]), of the combined plugin [mongooseLeanExtension]
    (the [post(["find", "findOne"])] hook that reads the [stringifyKeys],
    [showVersion], [stringifyId] and [rename] lean options), of its earlier
    version and of the single-purpose plugins.

    Conventions of the embedding.
    - A lean query result is a tree of plain data: it is freshly decoded from
      the driver, so no object is reachable twice and there are no cycles.
      In-place mutation of an object is therefore a functional update of the
      subtree it roots, written back into its parent.
    - A record is the list of the own fields of a plain object, whose
      prototype is [Object.prototype].  What a value inherits belongs to the
      built-in objects of the engine and of the libraries, which are not part
      of this repository: a read of the path rewriter that leaves the
      document there is answered by a parameter, the realm.  Nothing reached
      from a built-in object is part of the document, so such a read can
      raise but cannot change the document.  An assignment to the inherited
      member [__proto__] creates no own field; what it does to the prototype
      of the record is not followed.
    - The functions are not in strict mode: an assignment that the engine
      ignores (to a property of a primitive, to an accessor without a
      setter) is silent, and a receiver that is [undefined] is replaced by
      the global object.
    - A JavaScript exception is an explicit outcome; the state reached when it
      is raised is kept, since nothing is rolled back. *)

From Stdlib Require Import List String Ascii Bool ZArith QArith Lia DecimalString.
Import ListNotations.

Local Open Scope string_scope.
Local Open Scope list_scope.

Set Implicit Arguments.

(* ------------------------------------------------------------------ *)
(** ** JavaScript values *)

(** Numbers: finite values are kept as rationals, which is enough for the two
    observations the code makes of a number, [Number.isInteger] and
    truthiness. *)
Inductive number : Type :=
| NFin (q : Q)
| NInf (negative : bool)
| NNaN.

(** Plain data as a lean query returns it, together with the document
    store's identifier type.  [VObjectId hex] is an instance of
    [mongoose.Types.ObjectId], the only kind of value of a lean result with a
    [toHexString] method; [hex] is what both its [toHexString()] and its
    [toString()] return.  [VDate] is a [Date], as the timestamp fields hold.
    An object keeps its own fields in the order the engine enumerates
    them. *)
#[local] Unset Elimination Schemes.
Inductive value : Type :=
| VUndefined
| VNull
| VBool (b : bool)
| VNum (n : number)
| VStr (s : string)
| VObjectId (hex : string)
| VDate (ms : Z)
| VArr (items : list value)
| VObj (fields : list (string * value)).
#[local] Set Elimination Schemes.

Definition record : Type := list (string * value).

(** Exceptions.  Every exception these functions can raise is a [TypeError]
    of the engine (a property read on [null] or [undefined], a call of a
    non-function, a restricted property of a function, a failed conversion
    to a property key). *)
Inductive exn : Type :=
| TypeError (message : string).

(** Structural induction that reaches the elements of arrays and the field
    values of objects. *)
Section ValueInduction.
Variable P : value -> Prop.
Hypothesis P_undefined : P VUndefined.
Hypothesis P_null : P VNull.
Hypothesis P_bool : forall b, P (VBool b).
Hypothesis P_num : forall n, P (VNum n).
Hypothesis P_str : forall s, P (VStr s).
Hypothesis P_oid : forall hex, P (VObjectId hex).
Hypothesis P_date : forall ms, P (VDate ms).
Hypothesis P_arr : forall items, Forall P items -> P (VArr items).
Hypothesis P_obj :
  forall fields, Forall (fun kv => P (snd kv)) fields -> P (VObj fields).

Fixpoint value_nested_ind (v : value) : P v :=
  match v with
  | VUndefined => P_undefined
  | VNull => P_null
  | VBool b => P_bool b
  | VNum n => P_num n
  | VStr s => P_str s
  | VObjectId hex => P_oid hex
  | VDate ms => P_date ms
  | VArr items =>
      P_arr ((fix all (l : list value) : Forall P l :=
                match l with
                | [] => Forall_nil P
                | x :: tl => Forall_cons x (value_nested_ind x) (all tl)
                end) items)
  | VObj fields =>
      P_obj ((fix all (l : list (string * value))
                : Forall (fun kv => P (snd kv)) l :=
                match l with
                | [] => Forall_nil _
                | kv :: tl =>
                    Forall_cons kv (value_nested_ind (snd kv)) (all tl)
                end) fields)
  end.
End ValueInduction.

(* ------------------------------------------------------------------ *)
(** ** Primitive observations *)

(** [Number.isInteger]. *)
Definition number_isInteger (n : number) : bool :=
  match n with
  | NFin q => (Qnum q mod Zpos (Qden q) =? 0)%Z
  | NInf _ | NNaN => false
  end.

Definition isInteger (v : value) : bool :=
  match v with
  | VNum n => number_isInteger n
  | _ => false
  end.

(** ToBoolean: [undefined], [null], [false], [0], [NaN] and the empty string
    are falsy, everything else is truthy. *)
Definition truthy (v : value) : bool :=
  match v with
  | VUndefined | VNull => false
  | VBool b => b
  | VNum (NFin q) => negb (Qnum q =? 0)%Z
  | VNum (NInf _) => true
  | VNum NNaN => false
  | VStr s => negb (s =? "")
  | VObjectId _ | VDate _ | VArr _ | VObj _ => true
  end.

Definition nullish (v : value) : bool :=
  match v with
  | VUndefined | VNull => true
  | _ => false
  end.

(** [typeof v === "object"]. *)
Definition typeof_object (v : value) : bool :=
  match v with
  | VNull | VObjectId _ | VDate _ | VArr _ | VObj _ => true
  | _ => false
  end.

(** [Array.isArray]. *)
Definition isArray (v : value) : bool :=
  match v with
  | VArr _ => true
  | _ => false
  end.

(** [v instanceof mongoose.Types.ObjectId]. *)
Definition instanceof_ObjectId (v : value) : bool :=
  match v with
  | VObjectId _ => true
  | _ => false
  end.

(* ------------------------------------------------------------------ *)
(** ** Fields of an object *)

(** An array index is written in canonical decimal: ["0"], ["17"], but not
    ["01"] nor the empty string. *)
Definition index_of_key (key : string) : option nat :=
  match NilEmpty.uint_of_string key with
  | Some u =>
      let n := Nat.of_uint u in
      if NilEmpty.string_of_uint (Nat.to_uint n) =? key then Some n else None
  | None => None
  end.

(** The keys that an object enumerates first, in ascending order: the array
    indices, below [2^32 - 1]. *)
Definition array_index (key : string) : option N :=
  match NilEmpty.uint_of_string key with
  | Some u =>
      let n := N.of_uint u in
      if (NilEmpty.string_of_uint (N.to_uint n) =? key)
         && (n <? 4294967295)%N
      then Some n else None
  | None => None
  end.

(** The own fields are kept as an association list.  An object has one
    binding per key; the operations read and write the first binding of a
    key, so nothing below depends on that. *)
Section Fields.
Variable A : Type.

(** The value bound to [key], if the object has that own property. *)
Fixpoint lookup (key : string) (fields : list (string * A)) : option A :=
  match fields with
  | [] => None
  | (k, v) :: tl => if k =? key then Some v else lookup key tl
  end.

(** Assignment to a property the object already has: the binding keeps its
    place.  Nothing happens when the property is missing. *)
Fixpoint replace_field (key : string) (v : A) (fields : list (string * A))
  : list (string * A) :=
  match fields with
  | [] => []
  | (k, old) :: tl =>
      if k =? key then (k, v) :: tl
      else (k, old) :: replace_field key v tl
  end.

(** [obj.name = v] for a name that is neither an array index nor
    [__proto__]: an existing property keeps its place, a new one goes
    last. *)
Fixpoint set_field (key : string) (v : A) (fields : list (string * A))
  : list (string * A) :=
  match fields with
  | [] => [(key, v)]
  | (k, old) :: tl =>
      if k =? key then (k, v) :: tl
      else (k, old) :: set_field key v tl
  end.

(** [delete obj[key]]. *)
Fixpoint delete_field (key : string) (fields : list (string * A))
  : list (string * A) :=
  match fields with
  | [] => []
  | (k, old) :: tl =>
      if k =? key then delete_field key tl
      else (k, old) :: delete_field key tl
  end.

(** A new property whose key is the array index [i]: it goes before the
    first key that is a larger index or is no index. *)
Fixpoint insert_index (i : N) (key : string) (v : A)
    (fields : list (string * A)) : list (string * A) :=
  match fields with
  | [] => [(key, v)]
  | (k, old) :: tl =>
      match array_index k with
      | Some j =>
          if (j <? i)%N then (k, old) :: insert_index i key v tl
          else (key, v) :: (k, old) :: tl
      | None => (key, v) :: (k, old) :: tl
      end
  end.

(** [obj[key] = v] on a plain object, for a key computed at run time.  An
    own property is overwritten in place.  Otherwise [__proto__] reaches the
    setter inherited from [Object.prototype], which creates no own property:
    it ignores a primitive, and makes an object (or [null]) the prototype of
    [obj], whose own fields stay as they are.  Any other key becomes a new
    own property, an array index among the indices and any other name
    last. *)
Definition assign (key : string) (v : A) (fields : list (string * A))
  : list (string * A) :=
  match lookup key fields with
  | Some _ => replace_field key v fields
  | None =>
      if key =? "__proto__" then fields
      else
        match array_index key with
        | Some i => insert_index i key v fields
        | None => fields ++ [(key, v)]
        end
  end.
End Fields.

Definition char_at (s : string) (i : nat) : value :=
  match String.get i s with
  | Some c => VStr (String c EmptyString)
  | None => VUndefined
  end.

Definition VNat (n : nat) : value := VNum (NFin (inject_Z (Z.of_nat n))).

(** The own property [key] of [o], or [undefined].  A string and an array
    own their length and their indices; a number, a boolean, a date and an
    identifier own nothing that a key names. *)
Definition get_prop (o : value) (key : string) : value :=
  match o with
  | VObj fields =>
      match lookup key fields with
      | Some v => v
      | None => VUndefined
      end
  | VArr items =>
      if key =? "length" then VNat (List.length items)
      else match index_of_key key with
           | Some i => nth i items VUndefined
           | None => VUndefined
           end
  | VStr s =>
      if key =? "length" then VNat (String.length s)
      else match index_of_key key with
           | Some i => char_at s i
           | None => VUndefined
           end
  | _ => VUndefined
  end.

(** Whether [o] has the own property [key]. *)
Definition has_own (o : value) (key : string) : bool :=
  match o with
  | VObj fields =>
      match lookup key fields with
      | Some _ => true
      | None => false
      end
  | VArr items =>
      (key =? "length")
      || match index_of_key key with
         | Some i => Nat.ltb i (List.length items)
         | None => false
         end
  | VStr s =>
      (key =? "length")
      || match index_of_key key with
         | Some i => Nat.ltb i (String.length s)
         | None => false
         end
  | _ => false
  end.

(** The members of [Object.prototype] (ECMAScript 20.1.3 and B.2.2), from
    which a plain object inherits.  A plain object has no other inherited
    member: any other key that it does not own reads [undefined]. *)
Definition object_prototype_members : list string :=
  ["constructor"; "__defineGetter__"; "__defineSetter__"; "hasOwnProperty";
   "__lookupGetter__"; "__lookupSetter__"; "isPrototypeOf";
   "propertyIsEnumerable"; "toString"; "valueOf"; "__proto__";
   "toLocaleString"].

(** Whether the read [o[key]] leaves the document: [o] does not own [key],
    and the prototype chain of [o] may have it.  The prototypes of strings,
    numbers, booleans, dates and identifiers are not enumerated here: every
    key they do not own is left to the realm. *)
Definition inherits (o : value) (key : string) : bool :=
  negb (has_own o key)
  && match o with
     | VUndefined | VNull => false
     | VObj _ => existsb (String.eqb key) object_prototype_members
     | _ => true
     end.

(** [o[key]] for a key that the plugins name themselves ([lean], [_id],
    [__v], ...), none of which is a member of a built-in prototype: the own
    property, and an exception on [null] and [undefined]. *)
Definition get_checked (o : value) (key : string) : exn + value :=
  if nullish o
  then inl (TypeError ("Cannot read properties of null or undefined: " ++ key))
  else inr (get_prop o key).

(** [o?.key]. *)
Definition get_optional (o : value) (key : string) : value :=
  if nullish o then VUndefined else get_prop o key.

(** The property [toHexString] of [v], read as [v.toHexString]: [inr (Some
    hex)] when it is a function (only identifiers have it, and calling it
    returns [hex]), [inr None] when [typeof] of it is not ["function"]. *)
Definition toHexString_method (v : value) : exn + option string :=
  match v with
  | VUndefined | VNull =>
      inl (TypeError "Cannot read properties of null or undefined: toHexString")
  | VObjectId hex => inr (Some hex)
  | _ => inr None
  end.

(** [path.split(".")]: the segments between the dots; a string without a dot
    is its own single segment, the empty string included. *)
Fixpoint split_dot (s : string) : list string :=
  match s with
  | EmptyString => [EmptyString]
  | String c s' =>
      if Ascii.eqb c "."%char then EmptyString :: split_dot s'
      else match split_dot s' with
           | [] => [String c EmptyString]
           | seg :: segs => String c seg :: segs
           end
  end.

(** A segment: a string without a dot. *)
Fixpoint no_dot (s : string) : bool :=
  match s with
  | EmptyString => true
  | String c s' => negb (Ascii.eqb c "."%char) && no_dot s'
  end.

(* ------------------------------------------------------------------ *)
(** ** Mutation and exceptions

    A computation over a mutable object of type [S]: it leaves the object in
    a new state and either returns or raises.  The state is kept when an
    exception is raised. *)

Definition M (S A : Type) : Type := S -> S * (exn + A).

Definition ret {S A : Type} (a : A) : M S A := fun s => (s, inr a).

Definition bind {S A B : Type} (m : M S A) (k : A -> M S B) : M S B :=
  fun s =>
    let '(s', r) := m s in
    match r with
    | inl e => (s', inl e)
    | inr a => k a s'
    end.

Definition lift {S A : Type} (r : exn + A) : M S A := fun s => (s, r).

Definition get_state {S : Type} : M S S := fun s => (s, inr s).

(** [try { body } catch (error) { handler(error) }]. *)
Definition try_catch {S A : Type} (body : M S A) (handler : exn -> M S A)
  : M S A :=
  fun s =>
    let '(s', r) := body s in
    match r with
    | inl e => handler e s'
    | inr a => (s', inr a)
    end.

(** [if (c) { m }]. *)
Definition when {S : Type} (c : bool) (m : M S unit) : M S unit :=
  if c then m else ret tt.

Declare Scope js_scope.
Delimit Scope js_scope with js.
Notation "x <- m ;; k" := (bind m (fun x => k))
  (at level 61, m at next level, right associativity) : js_scope.
Notation "m ;; k" := (bind m (fun _ => k))
  (at level 61, right associativity) : js_scope.

Section Loops.
Variables S B : Type.

(** A loop over the elements of an array of objects, each mutated in place
    by [body]: [for (const x of xs) body(x)] and [xs.forEach(body)].  The
    elements are visited in order; an exception ends the loop and leaves
    the remaining elements as they were. *)
Variable body : M S unit.

Fixpoint for_each (xs : list S) : list S * (exn + unit) :=
  match xs with
  | [] => ([], inr tt)
  | x :: tl =>
      let '(x', r) := body x in
      match r with
      | inl e => (x' :: tl, inl e)
      | inr _ => let '(tl', r') := for_each tl in (x' :: tl', r')
      end
  end.

(** A loop over values that are only read, [for (const b of bs) act(b)],
    all acting on the same object. *)
Variable act : B -> M S unit.

Fixpoint for_values (bs : list B) : M S unit :=
  match bs with
  | [] => ret tt
  | b :: tl => bind (act b) (fun _ => for_values tl)
  end.
End Loops.

(* ------------------------------------------------------------------ *)
(** ** The built-in objects

    [beyond current key rest] stands for the rest of a traversal from the
    point where it reads [current[key]] and [inherits current key] holds:
    the member is looked up on the prototype chain of [current], and the
    traversal goes on from what is found through the segments [rest] (none
    when [key] is the last segment).  By the conventions above the document
    is left as it is; the traversal returns or raises. *)

Definition realm : Type := value -> string -> list string -> exn + unit.

(** A realm whose members never raise. *)
Definition quiet : realm := fun _ _ _ => inr tt.

(** The message of the engine for a read of [caller] or [arguments] on a
    built-in function or on a function in strict mode. *)
Definition restricted_message : string :=
  "'caller', 'callee', and 'arguments' properties may not be accessed on strict mode functions or the arguments objects for calls to them".

(** The realm of the examples.  Of the built-in objects it has what
    ECMAScript fixes for every value: the member [constructor] that a value
    inherits is a function ([Object], [String], [Number], ...), which is not
    an object for [typeof], and reading [caller] or [arguments] of a
    built-in function raises.  Every other member it takes to be missing;
    the realm of an engine has more of them. *)
Definition standard : realm :=
  fun current key rest =>
    if key =? "constructor" then
      match rest with
      | [] => inr tt
      | member :: _ =>
          if (member =? "caller") || (member =? "arguments")
          then inl (TypeError restricted_message)
          else inr tt
      end
    else inr tt.

(* ------------------------------------------------------------------ *)
(** ** util/stringifyPaths.js *)

Section FanOut.
(** The head of [recurse], common to every segment list: the early return
    on a falsy [current] and the loop over an array, which hands the same
    segment list to every item.  [step] is what [recurse] does with that
    segment list on a value that is not an array. *)
Variable step : M value unit.

Fixpoint fan_out (current : value) : value * (exn + unit) :=
  if negb (truthy current) then (current, inr tt)
  else
    match current with
    | VArr items =>
        let '(items', r) := for_each fan_out items in (VArr items', r)
    | _ => step current
    end.
End FanOut.

(** An identifier becomes its string form; anything else stays. *)
Definition stringify_leaf (v : value) : value :=
  match v with
  | VObjectId hex => VStr hex
  | _ => v
  end.

Definition parts_key (remainingParts : list string) : string :=
  match remainingParts with
  | [] => "undefined"
  | key :: _ => key
  end.

Definition is_container (v : value) : bool :=
  match v with
  | VArr _ | VObj _ => true
  | _ => false
  end.

Section Rewriter.
Variable beyond : realm.

(** The branch [rest.length === 0] of [recurse], for a [current] that is
    truthy and not an array. *)
Definition terminal (key : string) : M value unit :=
  fun current =>
    if inherits current key then (current, beyond current key [])
    else
      match get_checked current key with
      | inl e => (current, inl e)
      | inr field =>
          if truthy field && typeof_object field then
            match toHexString_method field with
            | inl e => (current, inl e)
            | inr (Some hex) =>
                (* current[key] = current[key].toHexString(): only a record
                   can hold an identifier under [key] *)
                match current with
                | VObj fields =>
                    (VObj (replace_field key (VStr hex) fields), inr tt)
                | _ => (current, inr tt)
                end
            | inr None => (current, inr tt)
            end
          else (current, inr tt)
      end.

(** The branch [recurse(current[key], rest)], for a [current] that is truthy
    and not an array; [continue] is [recurse] at [rest].  The child is
    mutated in place, so a record sees the change under [key]; the own
    properties of a string are fresh primitives and nothing is written
    back. *)
Definition descend (key : string) (rest : list string)
    (continue : M value unit) : M value unit :=
  fun current =>
    if inherits current key then (current, beyond current key rest)
    else
      match get_checked current key with
      | inl e => (current, inl e)
      | inr child =>
          let '(child', r) := continue child in
          match current with
          | VObj fields => (VObj (replace_field key child' fields), r)
          | _ => (current, r)
          end
      end.

(** [recurse(current, remainingParts)], by recursion on the segments.  The
    destructuring [const [key, ...rest] = remainingParts] of an empty list
    binds [key] to [undefined], which as a property key reads
    ["undefined"]. *)
Fixpoint recurse_parts (remainingParts : list string) : M value unit :=
  match remainingParts with
  | [] => fan_out (terminal "undefined")
  | key :: rest =>
      match rest with
      | [] => fan_out (terminal key)
      | _ :: _ => fan_out (descend key rest (recurse_parts rest))
      end
  end.

Definition recurse (current : value) (remainingParts : list string)
  : value * (exn + unit) :=
  recurse_parts remainingParts current.

(** [applyStringifyAtPath(obj, path)].  Only a string has a [split] method:
    [null] and [undefined] raise at the read of [split], any other [path] at
    the call. *)
Definition applyStringifyAtPath (obj : value) (path : value)
  : value * (exn + unit) :=
  match path with
  | VStr p => recurse obj (split_dot p)
  | VUndefined =>
      (obj, inl (TypeError "Cannot read properties of undefined (reading 'split')"))
  | VNull =>
      (obj, inl (TypeError "Cannot read properties of null (reading 'split')"))
  | _ => (obj, inl (TypeError "path.split is not a function"))
  end.

(** [root] after [applyStringifyAtPath(root, path)] for a path expression. *)
Definition rewriteAt (root : value) (path : string) : value :=
  fst (applyStringifyAtPath root (VStr path)).

(** What [recurse] does with a segment list once [current] is known to be
    truthy and not an array. *)
Definition step_of (remainingParts : list string) : M value unit :=
  match remainingParts with
  | [] => terminal "undefined"
  | key :: rest =>
      match rest with
      | [] => terminal key
      | _ :: _ => descend key rest (recurse_parts rest)
      end
  end.

(** [current] after [recurse(current, remainingParts)]. *)
Definition rewritten (remainingParts : list string) (current : value)
  : value :=
  fst (recurse_parts remainingParts current).

(** What happens to the value found under the first segment. *)
Definition parts_fn (remainingParts : list string) : value -> value :=
  match remainingParts with
  | [] => stringify_leaf
  | _ :: rest =>
      match rest with
      | [] => stringify_leaf
      | _ :: _ => rewritten rest
      end
  end.

(** The fields of a record after [applyStringifyAtPath(doc, path)]. *)
Definition doc_rewritten (path : string) (doc : record) : record :=
  replace_field (parts_key (split_dot path))
    (parts_fn (split_dot path)
       (get_prop (VObj doc) (parts_key (split_dot path))))
    doc.
End Rewriter.

(* ------------------------------------------------------------------ *)
(** ** The combined plugin [mongooseLeanExtension] *)

(** The result of the query: [find] yields a sequence of records, [findOne]
    a record or [null]. *)
Inductive result_set : Type :=
| RNull
| RUndefined
| ROne (doc : record)
| RMany (docs : list record).

(** [!result] is false for a record and for a sequence, even an empty one. *)
Definition result_truthy (result : result_set) : bool :=
  match result with
  | RNull | RUndefined => false
  | ROne _ | RMany _ => true
  end.

(** [Array.isArray(result) ? result : [result]], the records the loops
    visit.  An absent result has none: the hook returns before it normalizes
    it. *)
Definition docs_of (result : result_set) : list record :=
  match result with
  | RNull | RUndefined => []
  | ROne doc => [doc]
  | RMany docs => docs
  end.

(** What the caller's reference designates once the loops have mutated the
    records in place.  The one-element array that [result = [result]] binds
    is local to the hook: the caller of [findOne] still holds the record. *)
Definition with_docs (result : result_set) (docs' : list record)
  : result_set :=
  match result with
  | RNull | RUndefined => result
  | ROne doc =>
      match docs' with
      | [doc'] => ROne doc'
      | _ => ROne doc
      end
  | RMany _ => RMany docs'
  end.

(** The two outcomes of the continuation: [next()] and [next(error)]. *)
Inductive signal : Type :=
| Continue
| ContinueWithError (error : exn).

(** What the hook acts on: the result graph handed to it, and the calls of
    [next] it has made so far.  The continuation mongoose passes only records
    the call and returns. *)
Record hook_state : Type := {
  delivered : result_set;
  signals : list signal
}.

Definition next (s : signal) : M hook_state unit :=
  fun st =>
    ({| delivered := delivered st; signals := signals st ++ [s] |}, inr tt).

(** A loop over the records of the result. *)
Definition on_docs (m : list record -> list record * (exn + unit))
  : M hook_state unit :=
  fun st =>
    let '(docs', r) := m (docs_of (delivered st)) in
    ({| delivered := with_docs (delivered st) docs'; signals := signals st |},
     r).

(** The receiver of the hook: its [_mongooseOptions] property, and its
    [getOptions] method, given by what it returns ([None] when the receiver
    has no property of that name).  Mongoose calls the hook on a [Query],
    which has both; its [getOptions] returns the options of the query. *)
Record query : Type := {
  _mongooseOptions : value;
  getOptions : option value
}.

(** [this?._mongooseOptions].  The hook is an ordinary function that is not
    in strict mode: called without a receiver, its [this] is the global
    object, which has neither property. *)
Definition attached (this : option query) : value :=
  match this with
  | Some q => _mongooseOptions q
  | None => VUndefined
  end.

(** [this?.getOptions()]: the call raises when the receiver has no such
    method. *)
Definition call_getOptions (this : option query) : exn + value :=
  match this with
  | Some q =>
      match getOptions q with
      | Some options => inr options
      | None => inl (TypeError "this?.getOptions is not a function")
      end
  | None => inl (TypeError "this?.getOptions is not a function")
  end.

(** [this?._mongooseOptions ?? this?.getOptions()]. *)
Definition read_options (this : option query) : exn + value :=
  if nullish (attached this) then call_getOptions this
  else inr (attached this).

(** [this?.getOptions?.()]: [undefined] when the receiver has no such
    method. *)
Definition call_getOptions_if_any (this : option query) : value :=
  match this with
  | Some q =>
      match getOptions q with
      | Some options => options
      | None => VUndefined
      end
  | None => VUndefined
  end.

(** [this?._mongooseOptions ?? this?.getOptions?.()], which cannot raise. *)
Definition query_options (this : option query) : value :=
  if nullish (attached this) then call_getOptions_if_any this
  else attached this.

(** The four lean options after destructuring. *)
Record lean_options : Type := {
  stringifyKeys : value;
  showVersion : value;
  stringifyId : value;
  rename : value
}.

(** A destructuring default applies when the property is [undefined]. *)
Definition default_to (d : value) (v : value) : value :=
  match v with
  | VUndefined => d
  | _ => v
  end.

(** The bindings of [const { stringifyKeys = [], showVersion = false,
    stringifyId = true, rename } = lean]. *)
Definition lean_options_of (lean : value) : lean_options :=
  {| stringifyKeys := default_to (VArr []) (get_prop lean "stringifyKeys");
     showVersion := default_to (VBool false) (get_prop lean "showVersion");
     stringifyId := default_to (VBool true) (get_prop lean "stringifyId");
     rename := get_prop lean "rename" |}.

(** Destructuring [null] or [undefined] raises. *)
Definition destructure (lean : value) : exn + lean_options :=
  if nullish lean
  then inl (TypeError "Cannot destructure null or undefined")
  else inr (lean_options_of lean).

Definition items_of (v : value) : list value :=
  match v with
  | VArr items => items
  | _ => []
  end.

(** The record a document is after a call that mutated it in place. *)
Definition as_record (doc : record) (v : value) : record :=
  match v with
  | VObj fields => fields
  | _ => doc
  end.

(** [if (Number.isInteger(record?.__v)) delete record.__v]. *)
Definition deversion_record : M record unit :=
  fun record =>
    if isInteger (get_optional (VObj record) "__v")
    then (delete_field "__v" record, inr tt)
    else (record, inr tt).

(** [const id = record?._id;
     if (id && id instanceof mongoose.Types.ObjectId) record._id = id.toString()]. *)
Definition stringify_id_record : M record unit :=
  fun record =>
    let id := get_optional (VObj record) "_id" in
    if truthy id && instanceof_ObjectId id then
      match id with
      | VObjectId hex => (set_field "_id" (VStr hex) record, inr tt)
      | _ => (record, inr tt)
      end
    else (record, inr tt).

(** [!options?.lean || !result], the condition of the early [return next()]. *)
Definition gate_on (options : value) (result : result_set) : bool :=
  negb (truthy (get_optional options "lean"))
  || negb (result_truthy result).

(** The same condition on the options of a receiver. *)
Definition gate (this : option query) (result : result_set) : bool :=
  gate_on (query_options this) result.

Local Open Scope js_scope.

(** [if (Array.isArray(stringifyKeys) && stringifyKeys?.length)
       for (const doc of docs) for (const path of stringifyKeys)
         applyStringifyAtPath(doc, path)]. *)
Definition stringify_keys_condition (opts : lean_options) : bool :=
  isArray (stringifyKeys opts)
  && truthy (get_optional (stringifyKeys opts) "length").

(** [if (!showVersion) result.forEach(...)]. *)
Definition deversion_step (opts : lean_options) : M hook_state unit :=
  when (negb (truthy (showVersion opts)))
    (on_docs (for_each deversion_record)).

Section Hook.
Variable beyond : realm.

(** The conversion of a value that is not a string to a property key is the
    engine's (ToPropertyKey: number formatting, the joining of array
    elements, ...); it may raise. *)
Variable ToPropertyKey : value -> exn + string.

(** [applyStringifyAtPath(doc, path)] on a record of the result. *)
Definition stringify_doc_at (path : value) : M record unit :=
  fun doc =>
    let '(v, r) := applyStringifyAtPath beyond (VObj doc) path in
    (as_record doc v, r).

Definition stringify_keys_record (opts : lean_options) : M record unit :=
  for_values stringify_doc_at (items_of (stringifyKeys opts)).

Definition stringify_keys_step (opts : lean_options) : M hook_state unit :=
  when (stringify_keys_condition opts)
    (on_docs (for_each (stringify_keys_record opts))).

Definition property_key (v : value) : exn + string :=
  match v with
  | VStr s => inr s
  | _ => ToPropertyKey v
  end.

(** [record[rename] = record._id; delete record._id]. *)
Definition rename_id_record (rename : value) : M record unit :=
  fun record =>
    match property_key rename with
    | inl e => (record, inl e)
    | inr key =>
        (delete_field "_id"
           (assign key (get_prop (VObj record) "_id") record), inr tt)
    end.

(** The callback of the last [forEach]. *)
Definition identity_record (rename : value) : M record unit :=
  stringify_id_record ;;
  when (truthy rename) (rename_id_record rename).

(** [if (stringifyId || rename) result.forEach(...)]. *)
Definition identity_step (opts : lean_options) : M hook_state unit :=
  when (truthy (stringifyId opts) || truthy (rename opts))
    (on_docs (for_each (identity_record (rename opts)))).

(** The [try] block of the hook. *)
Definition hook_body (this : option query) : M hook_state unit :=
  options <- lift (read_options this) ;;
  st <- get_state ;;
  let result := delivered st in
  if gate_on options result then next Continue
  else
    lean <- lift (get_checked options "lean") ;;
    opts <- lift (destructure lean) ;;
    stringify_keys_step opts ;;
    deversion_step opts ;;
    identity_step opts ;;
    next Continue.

(** The function registered with [schema.post(["find", "findOne"], ...)]. *)
Definition mongooseLeanExtension (this : option query) : M hook_state unit :=
  try_catch (hook_body this) (fun error => next (ContinueWithError error)).

(** The hook run on a fresh result, before any call of [next]. *)
Definition run_hook (this : option query) (result : result_set)
  : hook_state * (exn + unit) :=
  mongooseLeanExtension this {| delivered := result; signals := [] |}.

(** Everything the three loops do to one record, one loop after the
    other. *)
Definition process_record (opts : lean_options) : M record unit :=
  when (stringify_keys_condition opts) (stringify_keys_record opts) ;;
  when (negb (truthy (showVersion opts))) deversion_record ;;
  when (truthy (stringifyId opts) || truthy (rename opts))
    (identity_record (rename opts)).

(** The three loops over the records of the result. *)
Definition process_docs (opts : lean_options) : M (list record) unit :=
  when (stringify_keys_condition opts)
    (for_each (stringify_keys_record opts)) ;;
  when (negb (truthy (showVersion opts))) (for_each deversion_record) ;;
  when (truthy (stringifyId opts) || truthy (rename opts))
    (for_each (identity_record (rename opts))).
End Hook.

(** The standalone plugin of [plugins/deversion.js]: the options are read
    as in the combined plugin, then the same gate and the same loop, without
    a [try]. *)
Definition deversion (this : option query) : M hook_state unit :=
  options <- lift (read_options this) ;;
  st <- get_state ;;
  if gate_on options (delivered st) then next Continue
  else on_docs (for_each deversion_record) ;; next Continue.

(** Lean options whose [stringifyKeys], when it is an array, holds only
    strings. *)
Definition is_string (v : value) : bool :=
  match v with
  | VStr _ => true
  | _ => false
  end.

Definition well_typed_keys (stringifyKeys : value) : bool :=
  match stringifyKeys with
  | VArr paths => forallb is_string paths
  | _ => true
  end.

(** A conversion for the runs in which [rename] is a string or absent, where
    it is never consulted. *)
Definition strings_only : value -> exn + string :=
  fun _ => inl (TypeError "Cannot convert to a property key").

(** A query on which [.lean(lean)] was called. *)
Definition lean_query (lean : value) : option query :=
  Some {| _mongooseOptions := VObj [("lean", lean)];
          getOptions := Some (VObj []) |}.

(* ------------------------------------------------------------------ *)
(** ** The second copy of the helper

    The same function with [current[key]?.toHexString] in the last test of
    the condition.  The optional read differs from the plain one on [null]
    and [undefined] only, which the first test of the condition excludes, in
    the document and beyond it: the two copies share the realm. *)

Module Copy.
Section Rewriter.
Variable beyond : realm.

(** [current[key]?.toHexString], whose [typeof] is ["function"] exactly when
    it is [Some]: the optional read does not raise. *)
Definition toHexString_optional (v : value) : option string :=
  match v with
  | VObjectId hex => Some hex
  | _ => None
  end.

Definition terminal (key : string) : M value unit :=
  fun current =>
    if inherits current key then (current, beyond current key [])
    else
      match get_checked current key with
      | inl e => (current, inl e)
      | inr field =>
          if truthy field && typeof_object field then
            match toHexString_optional field with
            | Some hex =>
                match current with
                | VObj fields =>
                    (VObj (replace_field key (VStr hex) fields), inr tt)
                | _ => (current, inr tt)
                end
            | None => (current, inr tt)
            end
          else (current, inr tt)
      end.

Fixpoint recurse_parts (remainingParts : list string) : M value unit :=
  match remainingParts with
  | [] => fan_out (terminal "undefined")
  | key :: rest =>
      match rest with
      | [] => fan_out (terminal key)
      | _ :: _ => fan_out (descend beyond key rest (recurse_parts rest))
      end
  end.

Definition recurse (current : value) (remainingParts : list string)
  : value * (exn + unit) :=
  recurse_parts remainingParts current.

Definition applyStringifyAtPath (obj : value) (path : value)
  : value * (exn + unit) :=
  match path with
  | VStr p => recurse obj (split_dot p)
  | VUndefined =>
      (obj, inl (TypeError "Cannot read properties of undefined (reading 'split')"))
  | VNull =>
      (obj, inl (TypeError "Cannot read properties of null (reading 'split')"))
  | _ => (obj, inl (TypeError "path.split is not a function"))
  end.
End Rewriter.
End Copy.

(* ------------------------------------------------------------------ *)
(** ** The single-purpose plugins and the earlier combined plugin *)

Section ToString.
(** [v.toString()] of a number, a date, an array or a plain object is the
    engine's; it may raise. *)
Variable ToString : value -> exn + string.

(** [v.toString()]. *)
Definition to_string (v : value) : exn + string :=
  match v with
  | VUndefined | VNull =>
      inl (TypeError "Cannot read properties of null or undefined: toString")
  | VStr s => inr s
  | VObjectId hex => inr hex
  | VBool true => inr "true"
  | VBool false => inr "false"
  | _ => ToString v
  end.

(** [v?.toString()]. *)
Definition optional_toString (v : value) : exn + value :=
  if nullish v then inr VUndefined
  else
    match to_string v with
    | inl e => inl e
    | inr s => inr (VStr s)
    end.
End ToString.

(** The files of [plugins/]: one plugin each.  They read the options as the
    combined plugin does, outside any [try]. *)
Module Standalone.
Section Plugins.
Variable ToPropertyKey : value -> exn + string.
Variable ToString : value -> exn + string.

(** plugins/stringify.js: [record._id = record?._id?.toString()]. *)
Definition stringify_id_callback : M record unit :=
  fun record =>
    match optional_toString ToString (get_optional (VObj record) "_id") with
    | inl e => (record, inl e)
    | inr v => (set_field "_id" v record, inr tt)
    end.

Definition stringify_id (this : option query) : M hook_state unit :=
  options <- lift (read_options this) ;;
  st <- get_state ;;
  if gate_on options (delivered st) then next Continue
  else on_docs (for_each stringify_id_callback) ;; next Continue.

(** plugins/rename.js:
    [if (record?._id) { record[newKeyName] = record._id; delete record._id }]. *)
Definition rename_callback (newKeyName : value) : M record unit :=
  fun record =>
    if truthy (get_optional (VObj record) "_id")
    then rename_id_record ToPropertyKey newKeyName record
    else (record, inr tt).

Definition rename (this : option query) : M hook_state unit :=
  options <- lift (read_options this) ;;
  st <- get_state ;;
  if gate_on options (delivered st) then next Continue
  else
    lean <- lift (get_checked options "lean") ;;
    let newKeyName := get_optional lean "rename" in
    if negb (truthy newKeyName) then next Continue
    else on_docs (for_each (rename_callback newKeyName)) ;; next Continue.
End Plugins.
End Standalone.

(** plugins.js: the four plugins in one file.  Three of them read the
    options with [this?.getOptions?.()], which does not raise; [rename]
    calls [this?.getOptions()]. *)
Module Bundle.
Section Plugins.
Variable beyond : realm.
Variable ToPropertyKey : value -> exn + string.
Variable ToString : value -> exn + string.

Definition deversion (this : option query) : M hook_state unit :=
  st <- get_state ;;
  if gate this (delivered st) then next Continue
  else on_docs (for_each deversion_record) ;; next Continue.

(** [if (record?._id && record._id instanceof mongoose.Types.ObjectId)
      record._id = record._id.toString()], the callback of the combined
    plugin. *)
Definition stringifyId (this : option query) : M hook_state unit :=
  st <- get_state ;;
  if gate this (delivered st) then next Continue
  else on_docs (for_each stringify_id_record) ;; next Continue.

(** [if (record?._id) { record[newKeyName] = record._id.toString();
      delete record._id }].  The right-hand side is evaluated before the key
    is converted, as Node does. *)
Definition rename_callback (newKeyName : value) : M record unit :=
  fun record =>
    if truthy (get_optional (VObj record) "_id") then
      match to_string ToString (get_prop (VObj record) "_id") with
      | inl e => (record, inl e)
      | inr s =>
          match property_key ToPropertyKey newKeyName with
          | inl e => (record, inl e)
          | inr key =>
              (delete_field "_id" (assign key (VStr s) record), inr tt)
          end
      end
    else (record, inr tt).

Definition rename (this : option query) : M hook_state unit :=
  options <- lift (read_options this) ;;
  st <- get_state ;;
  if gate_on options (delivered st) then next Continue
  else
    lean <- lift (get_checked options "lean") ;;
    let newKeyName := get_optional lean "rename" in
    if negb (truthy newKeyName) then next Continue
    else on_docs (for_each (rename_callback newKeyName)) ;; next Continue.

(** [const keys = options.lean?.stringifyKeys ?? [];
     if (!Array.isArray(keys) || keys.length === 0) return next()]. *)
Definition stringifyKeys (this : option query) : M hook_state unit :=
  try_catch
    (let options := query_options this in
     st <- get_state ;;
     if gate this (delivered st) then next Continue
     else
       lean <- lift (get_checked options "lean") ;;
       let found := get_optional lean "stringifyKeys" in
       let keys := if nullish found then VArr [] else found in
       if negb (isArray keys) || Nat.eqb (List.length (items_of keys)) 0
       then next Continue
       else
         on_docs (for_each (for_values (stringify_doc_at beyond)
                              (items_of keys))) ;;
         next Continue)
    (fun error => next (ContinueWithError error)).
End Plugins.
End Bundle.

(** The earlier combined plugin, with the options [fields], [__v] and
    [_id]. *)
Module Legacy.
Section Plugin.
Variable beyond : realm.
Variable ToString : value -> exn + string.

Definition hook_body (this : option query) : M hook_state unit :=
  options <- lift (read_options this) ;;
  st <- get_state ;;
  if gate_on options (delivered st) then next Continue
  else
    lean <- lift (get_checked options "lean") ;;
    _ <- lift (destructure lean) ;;
    let fields := default_to (VArr []) (get_prop lean "fields") in
    let __v := default_to (VBool false) (get_prop lean "__v") in
    let _id := default_to (VBool true) (get_prop lean "_id") in
    when (isArray fields && truthy (get_optional fields "length"))
      (on_docs (for_each (for_values (stringify_doc_at beyond)
                            (items_of fields)))) ;;
    when (negb (truthy __v)) (on_docs (for_each deversion_record)) ;;
    when (truthy _id)
      (on_docs (for_each (Standalone.stringify_id_callback ToString))) ;;
    next Continue.

Definition mongooseLeanExtension (this : option query) : M hook_state unit :=
  try_catch (hook_body this) (fun error => next (ContinueWithError error)).

Definition run_hook (this : option query) (result : result_set)
  : hook_state * (exn + unit) :=
  mongooseLeanExtension this {| delivered := result; signals := [] |}.
End Plugin.
End Legacy.

(** A plugin run on a fresh result. *)
Definition run (plugin : M hook_state unit) (result : result_set)
  : hook_state * (exn + unit) :=
  plugin {| delivered := result; signals := [] |}.

(** Every identifier of a value replaced by its string form, at any depth. *)
Fixpoint stringify_deep (v : value) : value :=
  match v with
  | VObjectId hex => VStr hex
  | VArr items => VArr (map stringify_deep items)
  | VObj fields =>
      VObj (map (fun kv => (fst kv, stringify_deep (snd kv))) fields)
  | _ => v
  end.

(** The paths of [stringifyKeys] that are reached before the first entry
    that is not a string. *)
Fixpoint strings_before (paths : list value) : list string :=
  match paths with
  | VStr p :: tl => p :: strings_before tl
  | _ => []
  end.

(** A record after the path rewriter has been applied with each path in
    turn. *)
Definition rewrite_all (beyond : realm) (paths : list string) (doc : record)
  : record :=
  fold_left (fun d p => doc_rewritten beyond p d) paths doc.

(** A record after the callback of the version loop. *)
Definition strip_version (doc : record) : record :=
  if isInteger (get_prop (VObj doc) "__v") then delete_field "__v" doc
  else doc.

(** A record after the stringification of its primary identifier. *)
Definition stringified_id (doc : record) : record :=
  match get_prop (VObj doc) "_id" with
  | VObjectId hex => set_field "_id" (VStr hex) doc
  | _ => doc
  end.

(** A record after the move of [_id] to the field [key]. *)
Definition renamed_id (key : string) (doc : record) : record :=
  delete_field "_id" (assign key (get_prop (VObj doc) "_id") doc).

(** [rename] is absent, falsy or a string: no conversion to a property key
    is needed. *)
Definition plain_rename (rename : value) : bool :=
  is_string rename || negb (truthy rename).

(** What the version loop and the last loop make of a record, when [rename]
    is absent, falsy or a string. *)
Definition finish_record (opts : lean_options) (d3 : record) : record :=
  let d4 := if truthy (showVersion opts) then d3 else strip_version d3 in
  let d5 :=
    if truthy (stringifyId opts) || truthy (rename opts)
    then stringified_id d4 else d4 in
  match rename opts with
  | VStr s => if truthy (VStr s) then renamed_id s d5 else d5
  | _ => d5
  end.

(** What the three loops make of one record when they all return. *)
Definition pure_record (opts : lean_options) (doc : record) : record :=
  finish_record opts
    (if stringify_keys_condition opts
     then rewrite_all quiet (strings_before (items_of (stringifyKeys opts))) doc
     else doc).

(** Three conditional loops over the records, one after the other: the
    shape both combined plugins have. *)
Definition three_loops (c3 : bool) (b3 : M record unit) (c4 : bool)
    (b4 : M record unit) (c5 : bool) (b5 : M record unit)
  : M (list record) unit :=
  when c3 (for_each b3) ;; when c4 (for_each b4) ;; when c5 (for_each b5).

(** The loop of the combined plugin over [stringifyKeys], on the records of
    a result. *)
Definition keys_loop (beyond : realm) (opts : lean_options)
  : M (list record) unit :=
  when (stringify_keys_condition opts)
    (for_each (stringify_keys_record beyond opts)).

(* ------------------------------------------------------------------ *)
(** ** Notions used in the proofs *)

(** Whether [recurse] returns or raises on a record. *)
Definition record_outcome (beyond : realm) (remainingParts : list string)
    (fields : record) : exn + unit :=
  let key := parts_key remainingParts in
  if inherits (VObj fields) key
  then beyond (VObj fields) key (tl remainingParts)
  else
    match tl remainingParts with
    | _ :: _ =>
        snd (recurse_parts beyond (tl remainingParts)
               (get_prop (VObj fields) key))
    | [] => inr tt
    end.

(** [m] returns on [x] and leaves it as [x']. *)
Definition returns_to {S : Type} (m : M S unit) (x x' : S) : Prop :=
  m x = (x', inr tt).

(** A loop over the records never adds or removes a record. *)
Definition keeps_length (m : M (list record) unit) : Prop :=
  forall docs, List.length (fst (m docs)) = List.length docs.

(** The value under [_id] once stringified, whatever the nested paths did
    before: the invariant of the three loops on the primary identifier. *)
Definition id_settled (v : value) (doc : record) : Prop :=
  is_container (get_prop (VObj doc) "_id") = false
  /\ stringify_leaf (get_prop (VObj doc) "_id") = stringify_leaf v.

(** What the loops other than the version loop do to the version field of a
    record: they neither create nor remove it, and they leave an integer as
    it is. *)
Definition version_kept (doc doc' : record) : Prop :=
  (lookup "__v" doc' = None <-> lookup "__v" doc = None)
  /\ isInteger (get_prop (VObj doc') "__v") =
     isInteger (get_prop (VObj doc) "__v")
  /\ (isInteger (get_prop (VObj doc) "__v") = true ->
      lookup "__v" doc' = lookup "__v" doc).

(* ------------------------------------------------------------------ *)
(** * Properties *)

(** ** Fields *)

Section FieldFacts.
Variable A : Type.
Implicit Types (key k : string) (v w : A) (fields : list (string * A)).

Lemma lookup_replace_field_eq key v fields :
  lookup key (replace_field key v fields) =
  match lookup key fields with
  | Some _ => Some v
  | None => None
  end.
Proof.
  induction fields as [|[k old] tl IH]; simpl; [reflexivity|].
  destruct (k =? key) eqn:E; simpl; rewrite E; auto.
Qed.

Lemma lookup_replace_field_neq key k v fields :
  key <> k -> lookup k (replace_field key v fields) = lookup k fields.
Proof.
  intros Hne.
  induction fields as [|[k0 old] tl IH]; simpl; [reflexivity|].
  destruct (k0 =? key) eqn:E; simpl.
  - apply String.eqb_eq in E; subst k0.
    destruct (key =? k) eqn:E'; [apply String.eqb_eq in E'; contradiction|].
    reflexivity.
  - destruct (k0 =? k); auto.
Qed.

Lemma replace_field_same key v fields :
  lookup key fields = Some v -> replace_field key v fields = fields.
Proof.
  induction fields as [|[k old] tl IH]; simpl; [reflexivity|].
  destruct (k =? key); intros H.
  - injection H as ->; reflexivity.
  - rewrite IH; auto.
Qed.

Lemma replace_field_missing key v fields :
  lookup key fields = None -> replace_field key v fields = fields.
Proof.
  induction fields as [|[k old] tl IH]; simpl; [reflexivity|].
  destruct (k =? key); intros H; [discriminate|].
  rewrite IH; auto.
Qed.

Lemma replace_field_twice key v w fields :
  replace_field key v (replace_field key w fields) =
  replace_field key v fields.
Proof.
  induction fields as [|[k old] tl IH]; simpl; [reflexivity|].
  destruct (k =? key) eqn:E; simpl; rewrite E; [reflexivity|].
  rewrite IH; reflexivity.
Qed.

Lemma replace_field_comm key k v w fields :
  key <> k ->
  replace_field key v (replace_field k w fields) =
  replace_field k w (replace_field key v fields).
Proof.
  intros Hne.
  induction fields as [|[k0 old] tl IH]; simpl; [reflexivity|].
  destruct (k0 =? k) eqn:E1; destruct (k0 =? key) eqn:E2; simpl;
    rewrite ?E1, ?E2; try reflexivity.
  - apply String.eqb_eq in E1, E2; subst; contradiction.
  - rewrite IH; reflexivity.
Qed.

Lemma replace_field_keys key v fields :
  map fst (replace_field key v fields) = map fst fields.
Proof.
  induction fields as [|[k old] tl IH]; simpl; [reflexivity|].
  destruct (k =? key); simpl; [reflexivity|].
  rewrite IH; reflexivity.
Qed.

Lemma lookup_set_field_eq key v fields :
  lookup key (set_field key v fields) = Some v.
Proof.
  induction fields as [|[k old] tl IH]; simpl.
  - rewrite String.eqb_refl; reflexivity.
  - destruct (k =? key) eqn:E; simpl; rewrite E; auto.
Qed.

Lemma lookup_set_field_neq key k v fields :
  key <> k -> lookup k (set_field key v fields) = lookup k fields.
Proof.
  intros Hne.
  induction fields as [|[k0 old] tl IH]; simpl.
  - destruct (key =? k) eqn:E; [apply String.eqb_eq in E; contradiction|].
    reflexivity.
  - destruct (k0 =? key) eqn:E; simpl.
    + apply String.eqb_eq in E; subst k0.
      destruct (key =? k) eqn:E'; [apply String.eqb_eq in E'; contradiction|].
      reflexivity.
    + destruct (k0 =? k); auto.
Qed.

Lemma lookup_delete_field_eq key fields :
  lookup key (delete_field key fields) = None.
Proof.
  induction fields as [|[k old] tl IH]; simpl; [reflexivity|].
  destruct (k =? key) eqn:E; simpl; rewrite ?E; auto.
Qed.

Lemma lookup_delete_field_neq key k fields :
  key <> k -> lookup k (delete_field key fields) = lookup k fields.
Proof.
  intros Hne.
  induction fields as [|[k0 old] tl IH]; simpl; [reflexivity|].
  destruct (k0 =? key) eqn:E; simpl.
  - apply String.eqb_eq in E; subst k0.
    destruct (key =? k) eqn:E'; [apply String.eqb_eq in E'; contradiction|].
    exact IH.
  - destruct (k0 =? k); auto.
Qed.

Lemma delete_field_missing key fields :
  lookup key fields = None -> delete_field key fields = fields.
Proof.
  induction fields as [|[k old] tl IH]; simpl; [reflexivity|].
  destruct (k =? key); intros H; [discriminate|].
  rewrite IH; auto.
Qed.

Lemma lookup_Forall (P : A -> Prop) key v fields :
  Forall (fun kv => P (snd kv)) fields ->
  lookup key fields = Some v -> P v.
Proof.
  induction 1 as [|[k old] tl Hx _ IH]; simpl; [discriminate|].
  destruct (k =? key); intros H; [injection H as <-; exact Hx | auto].
Qed.

Lemma lookup_app_missing key k v fields :
  lookup k (fields ++ [(key, v)]) =
  match lookup k fields with
  | Some w => Some w
  | None => if key =? k then Some v else None
  end.
Proof.
  induction fields as [|[k0 old] tl IH]; simpl; [reflexivity|].
  destruct (k0 =? k); auto.
Qed.

Lemma lookup_insert_index (i : N) key k v fields :
  lookup key fields = None ->
  lookup k (insert_index i key v fields) =
  if key =? k then Some v else lookup k fields.
Proof.
  induction fields as [|[k0 old] tl IH]; simpl; [reflexivity|].
  destruct (k0 =? key) eqn:E0; [discriminate|]. intros Hmiss.
  assert (Hhead : lookup k ((key, v) :: (k0, old) :: tl) =
                  if key =? k then Some v
                  else if k0 =? k then Some old else lookup k tl)
    by reflexivity.
  destruct (array_index k0) as [j|]; [|exact Hhead].
  destruct (j <? i)%N; [|exact Hhead].
  simpl. rewrite (IH Hmiss).
  destruct (k0 =? k) eqn:E1; [|reflexivity].
  apply String.eqb_eq in E1. subst k0.
  rewrite String.eqb_sym, E0. reflexivity.
Qed.

(** An assignment under any key leaves the other fields as they are. *)
Lemma lookup_assign_neq key k v fields :
  key <> k -> lookup k (assign key v fields) = lookup k fields.
Proof.
  intros Hne. unfold assign.
  destruct (lookup key fields) eqn:E.
  - apply lookup_replace_field_neq, Hne.
  - destruct (key =? "__proto__"); [reflexivity|].
    destruct (array_index key) as [i|].
    + rewrite (@lookup_insert_index i key k v fields E).
      destruct (key =? k) eqn:E'; [|reflexivity].
      apply String.eqb_eq in E'. contradiction.
    + rewrite lookup_app_missing. destruct (lookup k fields); [reflexivity|].
      destruct (key =? k) eqn:E'; [|reflexivity].
      apply String.eqb_eq in E'. contradiction.
Qed.

(** It binds the key, unless the key is [__proto__] and is not an own
    property. *)
Lemma lookup_assign_eq key v fields :
  key <> "__proto__" -> lookup key (assign key v fields) = Some v.
Proof.
  intros Hne. unfold assign.
  destruct (lookup key fields) eqn:E.
  - rewrite lookup_replace_field_eq, E. reflexivity.
  - destruct (key =? "__proto__") eqn:Ep;
      [apply String.eqb_eq in Ep; contradiction|].
    destruct (array_index key) as [i|].
    + rewrite (@lookup_insert_index i key key v fields E), String.eqb_refl.
      reflexivity.
    + rewrite lookup_app_missing, E, String.eqb_refl. reflexivity.
Qed.

Lemma assign_existing key v fields :
  lookup key fields <> None -> assign key v fields = replace_field key v fields.
Proof.
  unfold assign. destruct (lookup key fields); [reflexivity | contradiction].
Qed.

(** The setter of [__proto__] creates no own field. *)
Lemma assign_proto_missing v fields :
  lookup "__proto__" fields = None -> assign "__proto__" v fields = fields.
Proof. unfold assign. intros ->. reflexivity. Qed.

Lemma set_field_existing key v fields :
  lookup key fields <> None ->
  set_field key v fields = replace_field key v fields.
Proof.
  induction fields as [|[k old] tl IH]; simpl; [congruence|].
  destruct (k =? key); intros H; [reflexivity|].
  rewrite IH; auto.
Qed.

Lemma set_field_missing key v fields :
  lookup key fields = None -> set_field key v fields = fields ++ [(key, v)].
Proof.
  induction fields as [|[k old] tl IH]; simpl; [reflexivity|].
  destruct (k =? key); intros H; [discriminate|].
  rewrite IH; auto.
Qed.

Lemma replace_delete_comm key k v fields :
  key <> k ->
  replace_field key v (delete_field k fields) =
  delete_field k (replace_field key v fields).
Proof.
  intros Hne.
  induction fields as [|[k0 old] tl IH]; simpl; [reflexivity|].
  destruct (k0 =? k) eqn:E1; destruct (k0 =? key) eqn:E2;
    simpl; rewrite ?E1, ?E2; try reflexivity; try exact IH.
  - apply String.eqb_eq in E1, E2. subst. contradiction.
  - rewrite IH. reflexivity.
Qed.

Lemma delete_replace_same k w fields :
  delete_field k (replace_field k w fields) = delete_field k fields.
Proof.
  induction fields as [|[k0 old] tl IH]; simpl; [reflexivity|].
  destruct (k0 =? k) eqn:E; simpl; rewrite E; [reflexivity|].
  rewrite IH. reflexivity.
Qed.
End FieldFacts.

Lemma lookup_map_values (A B : Type) (g : A -> B) (key : string)
    (fields : list (string * A)) :
  lookup key (map (fun kv => (fst kv, g (snd kv))) fields) =
  option_map g (lookup key fields).
Proof.
  induction fields as [|[k v] tl IH]; simpl; [reflexivity|].
  destruct (k =? key)%string; [reflexivity | exact IH].
Qed.

Lemma map_values_replace_field (A B : Type) (g : A -> B) (key : string)
    (v : A) (fields : list (string * A)) :
  map (fun kv => (fst kv, g (snd kv))) (replace_field key v fields) =
  replace_field key (g v) (map (fun kv => (fst kv, g (snd kv))) fields).
Proof.
  induction fields as [|[k old] tl IH]; simpl; [reflexivity|].
  destruct (k =? key)%string; simpl; [reflexivity|].
  rewrite IH. reflexivity.
Qed.

(** ** Loops *)

Section LoopFacts.
Variable S : Type.
Variable body : M S unit.

(** A loop whose body returns on every element returns, and has mutated
    each element. *)
Lemma for_each_returns (xs : list S) :
  Forall (fun x => snd (body x) = inr tt) xs ->
  for_each body xs = (map (fun x => fst (body x)) xs, inr tt).
Proof.
  induction 1 as [|x tl Hx _ IH]; simpl; [reflexivity|].
  destruct (body x) as [x' r]; simpl in *; subst r.
  rewrite IH; reflexivity.
Qed.

(** The loop never changes the number of elements. *)
Lemma for_each_length (xs : list S) :
  List.length (fst (for_each body xs)) = List.length xs.
Proof.
  induction xs as [|x tl IH]; simpl; [reflexivity|].
  destruct (body x) as [x' [e|[]]]; simpl; [reflexivity|].
  destruct (for_each body tl) as [tl' r]; simpl in *; congruence.
Qed.

(** When the loop returns, the body returned on every element. *)
Lemma for_each_inr (xs xs' : list S) :
  for_each body xs = (xs', inr tt) ->
  Forall2 (fun x x' => body x = (x', inr tt)) xs xs'.
Proof.
  revert xs'; induction xs as [|x tl IH]; simpl; intros xs' H.
  - injection H as <-; constructor.
  - destruct (body x) as [x' [e|[]]] eqn:Ex; [discriminate|].
    destruct (for_each body tl) as [tl' r] eqn:Et.
    injection H as <- ->.
    constructor; auto.
Qed.

Lemma for_each_Forall2 (xs xs' : list S) :
  Forall2 (fun x x' => body x = (x', inr tt)) xs xs' ->
  for_each body xs = (xs', inr tt).
Proof.
  induction 1 as [|x x' tl tl' Hx _ IH]; simpl; [reflexivity|].
  rewrite Hx, IH; reflexivity.
Qed.

(** Whether it returns or raises, the loop leaves each element either as the
    body leaves it or as it was. *)
Lemma for_each_pointwise (xs : list S) :
  Forall2 (fun x x' => x' = fst (body x) \/ x' = x) xs (fst (for_each body xs)).
Proof.
  induction xs as [|x tl IH]; simpl; [constructor|].
  destruct (body x) as [x' [e|[]]] eqn:Ex; simpl.
  - constructor; [left; rewrite Ex; reflexivity|].
    clear IH. induction tl; constructor; auto.
  - destruct (for_each body tl) as [tl' r]; simpl in *.
    constructor; [left; rewrite Ex; reflexivity | exact IH].
Qed.

(** A body that does again what it did, with the same outcome, on an element
    it has already visited, gives a loop with the same property. *)
Lemma for_each_again (xs : list S) :
  Forall (fun x => body (fst (body x)) = body x) xs ->
  for_each body (fst (for_each body xs)) = for_each body xs.
Proof.
  induction 1 as [|x tl Hx _ IH]; simpl; [reflexivity|].
  destruct (body x) as [x' [e|[]]] eqn:Ex; simpl in *.
  - rewrite Hx. reflexivity.
  - destruct (for_each body tl) as [tl' r] eqn:Et; simpl in *.
    rewrite Hx, IH. reflexivity.
Qed.

Lemma for_each_invariant (P : S -> Prop) (xs : list S) :
  (forall x, P x -> P (fst (body x))) ->
  Forall P xs -> Forall P (fst (for_each body xs)).
Proof.
  intros Hbody. induction 1 as [|x tl Hx Htl IH]; simpl; [constructor|].
  specialize (Hbody x Hx).
  destruct (body x) as [x' [e|[]]]; simpl in *.
  - constructor; assumption.
  - destruct (for_each body tl) as [tl' r]; simpl in *.
    constructor; assumption.
Qed.
End LoopFacts.

Lemma for_each_ext_Forall (S : Type) (f g : M S unit) (xs : list S) :
  Forall (fun x => f x = g x) xs -> for_each f xs = for_each g xs.
Proof.
  induction 1 as [|x tl Hx _ IH]; simpl; [reflexivity|].
  rewrite Hx, IH. reflexivity.
Qed.

Lemma for_values_invariant (S B : Type) (act : B -> M S unit) (P : S -> Prop)
    (bs : list B) (x : S) :
  (forall b y, P y -> P (fst (act b y))) ->
  P x -> P (fst (for_values act bs x)).
Proof.
  intros Hact. revert x. induction bs as [|b tl IH]; intros x Hx; [exact Hx|].
  cbn [for_values]. unfold bind.
  specialize (Hact b x Hx).
  destruct (act b x) as [y [e|[]]]; simpl in *; [exact Hact|].
  apply IH, Hact.
Qed.

Lemma Forall2_map_right (A B : Type) (R : A -> B -> Prop) (f : A -> B)
    (xs : list A) :
  (forall x, In x xs -> R x (f x)) -> Forall2 R xs (map f xs).
Proof.
  induction xs as [|x tl IH]; intros H; simpl; constructor.
  - apply H. left. reflexivity.
  - apply IH. intros y Hy. apply H. right. exact Hy.
Qed.

(** ** The path rewriter, whatever the realm *)

Lemma truthy_not_nullish (v : value) : truthy v = true -> nullish v = false.
Proof. destruct v; simpl; congruence. Qed.

Lemma fan_out_unfold (step : M value unit) (current : value) :
  fan_out step current =
  if negb (truthy current) then (current, inr tt)
  else
    match current with
    | VArr items =>
        let '(items', r) := for_each (fan_out step) items in (VArr items', r)
    | _ => step current
    end.
Proof. destruct current; reflexivity. Qed.

(** Reasoning on the head of [recurse]: a falsy value, a value that is not
    an array, and an array whose elements are known. *)
Lemma fan_out_cases (step : M value unit)
    (P : value -> value * (exn + unit) -> Prop) :
  (forall v, truthy v = false -> P v (v, inr tt)) ->
  (forall v, truthy v = true -> isArray v = false -> P v (step v)) ->
  (forall items,
      Forall (fun x => P x (fan_out step x)) items ->
      P (VArr items) (VArr (fst (for_each (fan_out step) items)),
                      snd (for_each (fan_out step) items))) ->
  forall v, P v (fan_out step v).
Proof.
  intros Hfalsy Hstep Harr v.
  induction v as [| |b|n|s|hex|ms|items IH|fields _] using value_nested_ind;
    rewrite fan_out_unfold;
    match goal with
    | |- context [negb (truthy ?x)] => destruct (truthy x) eqn:E
    end; cbn [negb]; try (apply Hfalsy; exact E);
    try (apply Hstep; [exact E | reflexivity]).
  specialize (Harr items IH).
  destruct (for_each (fan_out step) items) as [items' r]. exact Harr.
Qed.

Lemma fan_out_ext (step step' : M value unit) :
  (forall v, step v = step' v) ->
  forall v, fan_out step v = fan_out step' v.
Proof.
  intros H.
  apply (fan_out_cases step (fun v out => out = fan_out step' v)).
  - intros v Hv. rewrite fan_out_unfold, Hv. reflexivity.
  - intros v Hv Ha. rewrite fan_out_unfold, Hv. cbn [negb].
    destruct v; try discriminate; apply H.
  - intros items IH. rewrite (for_each_ext_Forall _ _ IH).
    rewrite (fan_out_unfold step' (VArr items)). cbn [truthy negb].
    destruct (for_each (fan_out step') items); reflexivity.
Qed.

Lemma inherits_not_own (fields : record) (key : string) :
  inherits (VObj fields) key = true -> lookup key fields = None.
Proof.
  unfold inherits. simpl. destruct (lookup key fields); [discriminate|].
  reflexivity.
Qed.

Lemma inherits_replace_field (key k : string) (v : value) (fields : record) :
  inherits (VObj (replace_field key v fields)) k = inherits (VObj fields) k.
Proof.
  unfold inherits. simpl.
  destruct (String.eqb_spec key k) as [->|Hne].
  - rewrite lookup_replace_field_eq. destruct (lookup k fields); reflexivity.
  - rewrite lookup_replace_field_neq by exact Hne. reflexivity.
Qed.

Lemma get_prop_replace_field_eq (key : string) (v : value)
    (fields : list (string * value)) :
  lookup key fields <> None ->
  get_prop (VObj (replace_field key v fields)) key = v.
Proof.
  intros H. simpl. rewrite lookup_replace_field_eq.
  destruct (lookup key fields); [reflexivity | contradiction].
Qed.

Lemma get_prop_replace_field_neq (key k : string) (v : value)
    (fields : list (string * value)) :
  key <> k ->
  get_prop (VObj (replace_field key v fields)) k = get_prop (VObj fields) k.
Proof. intros H. simpl. rewrite lookup_replace_field_neq by exact H. reflexivity. Qed.

Lemma replace_field_get_prop (key : string) (fields : list (string * value)) :
  replace_field key (get_prop (VObj fields) key) fields = fields.
Proof.
  simpl. destruct (lookup key fields) as [v|] eqn:E.
  - apply replace_field_same, E.
  - apply replace_field_missing, E.
Qed.

(** Rewriting a field twice under the same key is rewriting it once with the
    composed function. *)
Lemma replace_field_get_twice (key : string) (f g : value -> value)
    (fields : list (string * value)) :
  let fields' := replace_field key (g (get_prop (VObj fields) key)) fields in
  replace_field key (f (get_prop (VObj fields') key)) fields' =
  replace_field key (f (g (get_prop (VObj fields) key))) fields.
Proof.
  intros fields'. subst fields'.
  destruct (lookup key fields) as [c|] eqn:E.
  - rewrite get_prop_replace_field_eq by congruence.
    apply replace_field_twice.
  - rewrite (replace_field_missing _ _ _ E).
    rewrite !(replace_field_missing _ _ _ E). reflexivity.
Qed.

Lemma stringify_leaf_idem (v : value) :
  stringify_leaf (stringify_leaf v) = stringify_leaf v.
Proof. destruct v; reflexivity. Qed.

Lemma stringify_deep_leaf (v : value) :
  stringify_deep (stringify_leaf v) = stringify_deep v.
Proof. destruct v; reflexivity. Qed.

Section RewriterFacts.
Variable R : realm.

Lemma recurse_parts_fan_out (remainingParts : list string) :
  recurse_parts R remainingParts = fan_out (step_of R remainingParts).
Proof. destruct remainingParts as [|key [|key' rest]]; reflexivity. Qed.

(** *** On a record *)

Lemma terminal_obj (key : string) (fields : record) :
  terminal R key (VObj fields) =
  (VObj (replace_field key (stringify_leaf (get_prop (VObj fields) key))
           fields),
   if inherits (VObj fields) key then R (VObj fields) key [] else inr tt).
Proof.
  unfold terminal. destruct (inherits (VObj fields) key) eqn:I.
  - rewrite replace_field_missing by (apply inherits_not_own, I).
    reflexivity.
  - simpl. destruct (lookup key fields) as [v|] eqn:E.
    + destruct v; simpl; rewrite ?andb_false_r; simpl;
        rewrite ?(replace_field_same _ _ E); reflexivity.
    + simpl. rewrite replace_field_missing by exact E. reflexivity.
Qed.

Lemma descend_obj (key : string) (rest : list string)
    (continue : M value unit) (fields : record) :
  descend R key rest continue (VObj fields) =
  (VObj (replace_field key (fst (continue (get_prop (VObj fields) key)))
           fields),
   if inherits (VObj fields) key then R (VObj fields) key rest
   else snd (continue (get_prop (VObj fields) key))).
Proof.
  unfold descend. destruct (inherits (VObj fields) key) eqn:I.
  - rewrite replace_field_missing by (apply inherits_not_own, I).
    reflexivity.
  - unfold get_checked. cbn [nullish].
    destruct (continue (get_prop (VObj fields) key)); reflexivity.
Qed.

Lemma recurse_parts_obj (remainingParts : list string) (fields : record) :
  recurse_parts R remainingParts (VObj fields) =
  (VObj (replace_field (parts_key remainingParts)
           (parts_fn R remainingParts
              (get_prop (VObj fields) (parts_key remainingParts)))
           fields),
   record_outcome R remainingParts fields).
Proof.
  rewrite recurse_parts_fan_out, fan_out_unfold. cbn [truthy negb].
  unfold record_outcome.
  destruct remainingParts as [|key [|key' rest]];
    cbn [step_of parts_key parts_fn tl].
  - apply terminal_obj.
  - apply terminal_obj.
  - rewrite descend_obj. reflexivity.
Qed.

(** A record handed to [recurse]: at most the field named by the first
    segment changes, and it keeps its place. *)
Lemma rewritten_obj (remainingParts : list string)
    (fields : list (string * value)) :
  rewritten R remainingParts (VObj fields) =
  VObj (replace_field (parts_key remainingParts)
          (parts_fn R remainingParts
             (get_prop (VObj fields) (parts_key remainingParts)))
          fields).
Proof. unfold rewritten. rewrite recurse_parts_obj. reflexivity. Qed.

(** *** On a primitive, a date or an identifier *)

Lemma own_of_atom (v : value) (key : string) :
  is_container v = false ->
  truthy (get_prop v key) && typeof_object (get_prop v key) = false.
Proof.
  intros Hv. destruct v as [| |b|n|s|hex|ms|items|fields]; try discriminate;
    try reflexivity.
  simpl. destruct (key =? "length").
  - apply andb_false_r.
  - destruct (index_of_key key) as [i|]; [|reflexivity].
    unfold char_at. destruct (String.get i s); reflexivity.
Qed.

Lemma terminal_atom (key : string) (v : value) :
  truthy v = true -> is_container v = false ->
  terminal R key v = (v, if inherits v key then R v key [] else inr tt).
Proof.
  intros Ht Hv. unfold terminal, get_checked.
  destruct (inherits v key); [reflexivity|].
  rewrite (truthy_not_nullish _ Ht), (own_of_atom v key Hv). reflexivity.
Qed.

Lemma descend_atom (key : string) (rest : list string)
    (continue : M value unit) (v : value) :
  truthy v = true -> is_container v = false ->
  descend R key rest continue v =
  (v, if inherits v key then R v key rest
      else snd (continue (get_prop v key))).
Proof.
  intros Ht Hv. unfold descend, get_checked.
  destruct (inherits v key); [reflexivity|].
  rewrite (truthy_not_nullish _ Ht).
  destruct (continue (get_prop v key)) as [child' r].
  destruct v; try discriminate; reflexivity.
Qed.

Lemma step_of_atom (remainingParts : list string) (v : value) :
  truthy v = true -> is_container v = false ->
  fst (step_of R remainingParts v) = v.
Proof.
  intros Ht Hv.
  destruct remainingParts as [|key [|key' rest]]; cbn [step_of].
  - rewrite terminal_atom by assumption. reflexivity.
  - rewrite terminal_atom by assumption. reflexivity.
  - rewrite descend_atom by assumption. reflexivity.
Qed.

(** A primitive, a date or an identifier handed to [recurse] is left as it
    is. *)
Lemma rewritten_atom (remainingParts : list string) (v : value) :
  is_container v = false -> rewritten R remainingParts v = v.
Proof.
  intros Hv. unfold rewritten. rewrite recurse_parts_fan_out, fan_out_unfold.
  destruct (truthy v) eqn:Ht; cbn [negb]; [|reflexivity].
  pose proof (step_of_atom remainingParts v Ht Hv) as Hstep.
  destruct v; try discriminate; exact Hstep.
Qed.

(** *** On an array *)

Lemma recurse_parts_array (remainingParts : list string)
    (items : list value) :
  recurse_parts R remainingParts (VArr items) =
  (VArr (fst (for_each (recurse_parts R remainingParts) items)),
   snd (for_each (recurse_parts R remainingParts) items)).
Proof.
  rewrite recurse_parts_fan_out, fan_out_unfold. cbn [truthy negb].
  destruct (for_each (fan_out (step_of R remainingParts)) items).
  reflexivity.
Qed.

(** Goals about a primitive or an identifier: [rewritten] is the identity
    there. *)
Ltac rewritten_atom_case v :=
  let Ha := fresh "Ha" in
  assert (Ha : forall p, rewritten R p v = v)
    by (intro; apply rewritten_atom; reflexivity);
  rewrite ?Ha; reflexivity.

(** An array stays an array of the same length, a record a record, anything
    else what it was. *)
Lemma rewritten_is_container (remainingParts : list string) (v : value) :
  is_container (rewritten R remainingParts v) = is_container v.
Proof.
  destruct v as [| |b|n|s|hex|ms|items|fields];
    try (rewrite rewritten_atom by reflexivity; reflexivity).
  - unfold rewritten. rewrite recurse_parts_array. reflexivity.
  - rewrite rewritten_obj. reflexivity.
Qed.

Lemma stringify_leaf_rewritten (remainingParts : list string) (v : value) :
  stringify_leaf (rewritten R remainingParts v) =
  rewritten R remainingParts (stringify_leaf v).
Proof.
  destruct v as [| |b|n|s|hex|ms|items|fields];
    [ rewritten_atom_case VUndefined | rewritten_atom_case VNull
    | rewritten_atom_case (VBool b) | rewritten_atom_case (VNum n)
    | rewritten_atom_case (VStr s) | | rewritten_atom_case (VDate ms) | | ].
  - cbn [stringify_leaf].
    rewrite (rewritten_atom _ (VObjectId hex)), (rewritten_atom _ (VStr hex));
      reflexivity.
  - cbn [stringify_leaf]. unfold rewritten. rewrite recurse_parts_array.
    reflexivity.
  - cbn [stringify_leaf]. rewrite rewritten_obj. reflexivity.
Qed.

Lemma parts_fn_atom (remainingParts : list string) (v : value) :
  is_container v = false -> v = stringify_leaf v ->
  parts_fn R remainingParts v = v.
Proof.
  intros Hv Hleaf.
  destruct remainingParts as [|key [|key' rest]]; simpl; auto.
  apply rewritten_atom, Hv.
Qed.

Lemma isInteger_rewritten (remainingParts : list string) (v : value) :
  isInteger (rewritten R remainingParts v) = isInteger v.
Proof.
  destruct v as [| |b|n|s|hex|ms|items|fields];
    try (rewrite rewritten_atom by reflexivity; reflexivity).
  - unfold rewritten. rewrite recurse_parts_array. reflexivity.
  - rewrite rewritten_obj. reflexivity.
Qed.

Lemma isInteger_parts_fn (parts : list string) (c : value) :
  isInteger (parts_fn R parts c) = isInteger c.
Proof.
  assert (Hleaf : isInteger (stringify_leaf c) = isInteger c)
    by (destruct c; reflexivity).
  destruct parts as [|k [|k' rest]]; cbn [parts_fn]; auto.
  apply isInteger_rewritten.
Qed.

(** *** Nothing but identifiers changes *)

Lemma stringify_deep_rewritten (parts : list string) (v : value) :
  stringify_deep (rewritten R parts v) = stringify_deep v.
Proof.
  revert v. unfold rewritten.
  induction parts as [parts IH] using (well_founded_induction
    (Wf_nat.well_founded_ltof _ (@List.length string))).
  rewrite recurse_parts_fan_out.
  apply (fan_out_cases (step_of R parts)
           (fun v out => stringify_deep (fst out) = stringify_deep v)).
  - reflexivity.
  - intros v Hv Ha.
    destruct v as [| |b|n|s|hex|ms|items|fields]; try discriminate;
      try (rewrite step_of_atom by (try exact Hv; reflexivity); reflexivity).
    assert (E := recurse_parts_obj parts fields).
    rewrite recurse_parts_fan_out, fan_out_unfold in E. cbn [truthy negb] in E.
    rewrite E. cbn [fst stringify_deep]. f_equal.
    rewrite map_values_replace_field.
    set (key := parts_key parts).
    destruct (lookup key fields) as [c|] eqn:Ec.
    + assert (Hc : stringify_deep (parts_fn R parts (get_prop (VObj fields) key))
                   = stringify_deep c).
      { simpl get_prop. rewrite Ec.
        destruct parts as [|k [|k' rest]]; cbn [parts_fn];
          auto using stringify_deep_leaf.
        apply IH. unfold ltof. simpl. lia. }
      rewrite Hc. apply replace_field_same.
      rewrite lookup_map_values, Ec. reflexivity.
    + apply replace_field_missing.
      rewrite lookup_map_values, Ec. reflexivity.
  - intros items Hitems. cbn [fst stringify_deep]. f_equal.
    pose proof (for_each_pointwise (fan_out (step_of R parts)) items) as Hp.
    revert Hitems Hp.
    generalize (fst (for_each (fan_out (step_of R parts)) items)).
    intros items' Hitems Hp.
    induction Hp as [|x x' tl tl' Hx _ IHp]; [reflexivity|].
    inversion Hitems as [|? ? Hhead Htail]; subst.
    simpl. f_equal; [|apply IHp, Htail].
    destruct Hx as [-> | ->]; [exact Hhead | reflexivity].
Qed.

(** *** A second traversal with the same segments *)

(** [recurse] on what it left behind does nothing more, and returns or
    raises as it did the first time. *)
Lemma recurse_parts_again (parts : list string) (v : value) :
  recurse_parts R parts (rewritten R parts v) = recurse_parts R parts v.
Proof.
  revert v. unfold rewritten.
  induction parts as [parts IH] using (well_founded_induction
    (Wf_nat.well_founded_ltof _ (@List.length string))).
  rewrite recurse_parts_fan_out.
  apply (fan_out_cases (step_of R parts)
           (fun v out => fan_out (step_of R parts) (fst out) = out)).
  - intros v Hv. cbn [fst]. rewrite fan_out_unfold, Hv. reflexivity.
  - intros v Hv Ha.
    assert (Hrun : fan_out (step_of R parts) v = step_of R parts v).
    { rewrite fan_out_unfold, Hv. cbn [negb].
      destruct v; try discriminate; reflexivity. }
    destruct v as [| |b|n|s|hex|ms|items|fields]; try discriminate;
      try (rewrite step_of_atom by (try exact Hv; reflexivity);
           rewrite Hrun; destruct (step_of R parts _) as [v' r] eqn:Es;
           pose proof (step_of_atom parts _ Hv eq_refl) as Hst;
           rewrite Es in Hst; cbn [fst] in Hst; subst v'; reflexivity).
    rewrite <- Hrun, <- recurse_parts_fan_out.
    rewrite recurse_parts_obj. cbn [fst].
    rewrite recurse_parts_obj. f_equal.
    + f_equal. rewrite replace_field_get_twice. f_equal.
      destruct parts as [|k [|k' rest]]; cbn [parts_fn parts_key];
        auto using stringify_leaf_idem.
      specialize (IH (k' :: rest)).
      assert (Hlt : ltof (list string) (@List.length string) (k' :: rest)
                      (k :: k' :: rest)) by (unfold ltof; simpl; lia).
      specialize (IH Hlt (get_prop (VObj fields) k)).
      unfold rewritten. rewrite IH. reflexivity.
    + unfold record_outcome.
      rewrite inherits_replace_field.
      destruct (inherits (VObj fields) (parts_key parts)) eqn:I.
      * rewrite replace_field_missing by (apply inherits_not_own, I).
        reflexivity.
      * destruct parts as [|k [|k' rest]]; try reflexivity.
        cbn [parts_key parts_fn tl].
        destruct (lookup k fields) as [c|] eqn:Ec.
        -- rewrite get_prop_replace_field_eq by congruence.
           assert (Hlt : ltof (list string) (@List.length string) (k' :: rest)
                           (k :: k' :: rest)) by (unfold ltof; simpl; lia).
           unfold rewritten. rewrite (IH (k' :: rest) Hlt). reflexivity.
        -- rewrite (replace_field_missing _ _ _ Ec). reflexivity.
  - intros items Hitems. cbn [fst].
    rewrite fan_out_unfold. cbn [truthy negb].
    rewrite (for_each_again _ Hitems).
    destruct (for_each (fan_out (step_of R parts)) items); reflexivity.
Qed.

Lemma rewritten_idem (v : value) (p : list string) :
  rewritten R p (rewritten R p v) = rewritten R p v.
Proof. unfold rewritten at 1. rewrite recurse_parts_again. reflexivity. Qed.

(** *** Where an exception comes from *)

Lemma for_each_inl (S : Type) (body : M S unit) (xs : list S) (e : exn) :
  snd (for_each body xs) = inl e ->
  exists x, In x xs /\ snd (body x) = inl e.
Proof.
  induction xs as [|x tl IH]; simpl; [discriminate|].
  destruct (body x) as [x' [e'|[]]] eqn:Ex; simpl.
  - intros H. exists x. split; [left; reflexivity|]. rewrite Ex. exact H.
  - destruct (for_each body tl) as [tl' r]; simpl in *.
    intros H. destruct (IH H) as (y & Hy & Hr).
    exists y. split; [right; exact Hy | exact Hr].
Qed.

(** [recurse] raises nothing of its own: an exception is one the realm
    raised, at a read that left the document. *)
Lemma recurse_parts_raises (parts : list string) (v : value) (e : exn) :
  snd (recurse_parts R parts v) = inl e ->
  exists current key rest,
    inherits current key = true /\ R current key rest = inl e.
Proof.
  revert v.
  induction parts as [parts IH] using (well_founded_induction
    (Wf_nat.well_founded_ltof _ (@List.length string))).
  rewrite recurse_parts_fan_out.
  apply (fan_out_cases (step_of R parts)
           (fun v out =>
              snd out = inl e ->
              exists current key rest,
                inherits current key = true /\ R current key rest = inl e)).
  - discriminate.
  - intros v Hv Ha.
    assert (Hlt : forall k rest,
               parts = k :: rest ->
               ltof (list string) (@List.length string) rest parts).
    { intros k rest ->. unfold ltof. simpl. lia. }
    destruct v as [| |b|n|s|hex|ms|items|fields]; try discriminate.
    all: destruct parts as [|k [|k' rest]]; cbn [step_of];
      rewrite ?terminal_obj, ?descend_obj;
      rewrite ?terminal_atom by (try exact Hv; reflexivity);
      rewrite ?descend_atom by (try exact Hv; reflexivity); cbn [snd];
      match goal with
      | |- context [inherits ?c ?key] =>
          destruct (inherits c key) eqn:I; try discriminate
      end;
      try (intros H; eexists _, _, _; split; [exact I | exact H]);
      apply (IH (k' :: rest) (Hlt _ _ eq_refl)).
  - intros items Hitems H. cbn [snd] in H.
    destruct (for_each_inl _ _ H) as (x & Hin & Hx).
    rewrite Forall_forall in Hitems. apply (Hitems x Hin Hx).
Qed.
End RewriterFacts.

Ltac atom_case R v :=
  let Ha := fresh "Ha" in
  assert (Ha : forall p, rewritten R p v = v)
    by (intro; apply rewritten_atom; reflexivity);
  rewrite ?Ha; reflexivity.

(** ** Traversals that return *)

Lemma for_each_snd_inr (S : Type) (body : M S unit) (xs : list S) :
  snd (for_each body xs) = inr tt ->
  Forall (fun x => snd (body x) = inr tt) xs.
Proof.
  induction xs as [|x tl IH]; simpl; [constructor|].
  destruct (body x) as [x' [e|[]]] eqn:Ex; simpl; [discriminate|].
  destruct (for_each body tl) as [tl' r]; simpl in *.
  intros H. constructor; [rewrite Ex; reflexivity | apply IH, H].
Qed.

(** In a realm whose members do not raise where the traversal reads them,
    [recurse] returns; in particular in the quiet realm. *)
Lemma recurse_parts_quiet_returns (parts : list string) (v : value) :
  snd (recurse_parts quiet parts v) = inr tt.
Proof.
  destruct (snd (recurse_parts quiet parts v)) as [e|[]] eqn:E;
    [|reflexivity].
  apply recurse_parts_raises in E.
  destruct E as (c & k & r & _ & H). discriminate.
Qed.

Lemma rewritten_array_quiet (parts : list string) (items : list value) :
  rewritten quiet parts (VArr items) =
  VArr (map (rewritten quiet parts) items).
Proof.
  unfold rewritten at 1. rewrite recurse_parts_array. cbn [fst].
  rewrite for_each_returns; [reflexivity|].
  apply Forall_forall. intros x _. apply recurse_parts_quiet_returns.
Qed.

(** A traversal that returns has rewritten what the quiet realm lets it
    rewrite: the document it leaves does not depend on the realm. *)
Lemma returns_as_quiet (R : realm) (parts : list string) (v : value) :
  snd (recurse_parts R parts v) = inr tt ->
  rewritten R parts v = rewritten quiet parts v.
Proof.
  revert v. unfold rewritten at 1.
  induction parts as [parts IH] using (well_founded_induction
    (Wf_nat.well_founded_ltof _ (@List.length string))).
  rewrite recurse_parts_fan_out.
  apply (fan_out_cases (step_of R parts)
           (fun v out => snd out = inr tt ->
                         fst out = rewritten quiet parts v)).
  - intros v Hv _. unfold rewritten.
    rewrite recurse_parts_fan_out, fan_out_unfold, Hv. reflexivity.
  - intros v Hv Ha.
    destruct v as [| |b|n|s|hex|ms|items|fields]; try discriminate;
      try (intros _; rewrite step_of_atom by (try exact Hv; reflexivity);
           rewrite rewritten_atom by reflexivity; reflexivity).
    assert (E := recurse_parts_obj R parts fields).
    rewrite recurse_parts_fan_out, fan_out_unfold in E. cbn [truthy negb] in E.
    rewrite E. cbn [fst snd]. rewrite rewritten_obj. intros Hret.
    f_equal. unfold record_outcome in Hret.
    destruct (inherits (VObj fields) (parts_key parts)) eqn:I.
    + rewrite !replace_field_missing by (apply inherits_not_own, I).
      reflexivity.
    + f_equal.
      destruct parts as [|k [|k' rest]]; cbn [parts_fn tl] in *;
        try reflexivity.
      apply IH; [unfold ltof; simpl; lia | exact Hret].
  - intros items Hitems Hret. cbn [fst snd] in *.
    rewrite rewritten_array_quiet. f_equal.
    apply for_each_snd_inr in Hret.
    rewrite for_each_returns by exact Hret. cbn [fst].
    apply map_ext_Forall.
    rewrite Forall_forall in *. intros x Hin.
    apply (Hitems x Hin), (Hret x Hin).
Qed.

(** ** Independence of the paths in the quiet realm *)

Lemma get_prop_Forall (P : value -> Prop) (key : string)
    (fields : list (string * value)) :
  P VUndefined ->
  Forall (fun kv => P (snd kv)) fields ->
  P (get_prop (VObj fields) key).
Proof.
  intros Hu HF. simpl.
  destruct (lookup key fields) as [v|] eqn:E; [|exact Hu].
  eapply lookup_Forall; eauto.
Qed.

Lemma parts_fn_comm (R : realm) (c : value) :
  (forall p q,
      rewritten R p (rewritten R q c) = rewritten R q (rewritten R p c)) ->
  forall p q, parts_fn R p (parts_fn R q c) = parts_fn R q (parts_fn R p c).
Proof.
  intros IH p q.
  destruct p as [|kp [|kp' rp]]; destruct q as [|kq [|kq' rq]];
    cbn [parts_fn]; try reflexivity;
    auto using stringify_leaf_rewritten, eq_sym.
Qed.

Lemma rewritten_comm (v : value) (p q : list string) :
  rewritten quiet p (rewritten quiet q v) =
  rewritten quiet q (rewritten quiet p v).
Proof.
  revert p q.
  induction v as [| |b|n|s|hex|ms|items IH|fields IH] using value_nested_ind;
    intros p q;
    [ atom_case quiet VUndefined | atom_case quiet VNull
    | atom_case quiet (VBool b) | atom_case quiet (VNum n)
    | atom_case quiet (VStr s) | atom_case quiet (VObjectId hex)
    | atom_case quiet (VDate ms) | | ].
  - rewrite !rewritten_array_quiet, !map_map. f_equal.
    apply map_ext_Forall.
    eapply Forall_impl; [|exact IH]. intros a Ha. apply Ha.
  - rewrite (rewritten_obj quiet q fields), (rewritten_obj quiet p fields).
    rewrite !rewritten_obj. f_equal.
    destruct (String.eqb_spec (parts_key p) (parts_key q)) as [Heq|Hne].
    + rewrite Heq. rewrite !replace_field_get_twice. f_equal.
      apply parts_fn_comm.
      apply (get_prop_Forall
               (fun c => forall p q,
                    rewritten quiet p (rewritten quiet q c) =
                    rewritten quiet q (rewritten quiet p c)));
        [|exact IH].
      intros p0 q0. atom_case quiet VUndefined.
    + rewrite (get_prop_replace_field_neq _ fields (not_eq_sym Hne)).
      rewrite (get_prop_replace_field_neq _ fields Hne).
      apply replace_field_comm. exact Hne.
Qed.

Lemma rewriteAt_rewritten (R : realm) (root : value) (path : string) :
  rewriteAt R root path = rewritten R (split_dot path) root.
Proof. reflexivity. Qed.

Lemma rewriteAt_obj (R : realm) (path : string) (doc : record) :
  rewriteAt R (VObj doc) path = VObj (doc_rewritten R path doc).
Proof. rewrite rewriteAt_rewritten. apply rewritten_obj. Qed.

Lemma applyStringifyAtPath_eq (R : realm) (root : value) (path : string) :
  applyStringifyAtPath R root (VStr path) =
  (rewriteAt R root path, snd (recurse_parts R (split_dot path) root)).
Proof.
  unfold rewriteAt, applyStringifyAtPath, recurse.
  destruct (recurse_parts R (split_dot path) root). reflexivity.
Qed.

(** ** Path expressions *)

Lemma split_dot_segment (s : string) : no_dot s = true -> split_dot s = [s].
Proof.
  induction s as [|c s IH]; simpl; [reflexivity|].
  destruct (Ascii.eqb c "."); simpl; [discriminate|].
  intros H. rewrite IH by exact H. reflexivity.
Qed.

Lemma split_dot_app (a b : string) :
  no_dot a = true -> split_dot (a ++ "." ++ b) = a :: split_dot b.
Proof.
  change ("." ++ b)%string with (String "."%char b).
  induction a as [|c a IH]; simpl; [reflexivity|].
  destruct (Ascii.eqb c "."); simpl; [discriminate|].
  intros H. rewrite IH by exact H. reflexivity.
Qed.

Lemma inherits_own (fields : record) (key : string) (v : value) :
  lookup key fields = Some v -> inherits (VObj fields) key = false.
Proof. unfold inherits. simpl. intros ->. reflexivity. Qed.

(** The last segment on a record that owns it. *)
Lemma recurse_terminal_own (R : realm) (key : string) (fields : record)
    (v : value) :
  lookup key fields = Some v ->
  recurse_parts R [key] (VObj fields) =
  (VObj (replace_field key (stringify_leaf v) fields), inr tt).
Proof.
  intros H. rewrite recurse_parts_obj. unfold record_outcome.
  cbn [parts_key parts_fn tl]. rewrite (inherits_own _ _ H).
  simpl get_prop. rewrite H. reflexivity.
Qed.

(** ** Fan-out *)

(** C1.  On a record whose field [arrayField] holds an array of N
    subdocuments, each with an identifier under [idField], the path
    ["arrayField.idField"] makes the call return, in every realm, with
    exactly those N identifiers replaced by their string form: the record
    keeps its keys and every field but [arrayField], which still holds an
    array of N subdocuments; each of them keeps its keys and every field but
    [idField], which now holds the string of the identifier it held; N is
    any length, zero included.  And an array handed to [recurse] is
    traversed element by element, each element with the same segment list:
    when the traversal of each element returns, the array holds what the
    traversal leaves of each element, in place. *)
Theorem fan_out_correctness :
  (forall (R : realm) (fields : record) (arrayField idField : string)
          (subdocs : list record),
      no_dot arrayField = true ->
      no_dot idField = true ->
      lookup arrayField fields = Some (VArr (map VObj subdocs)) ->
      Forall (fun sub => exists hex, lookup idField sub = Some (VObjectId hex))
             subdocs ->
      exists (fields' : record) (subdocs' : list record),
        applyStringifyAtPath R (VObj fields)
          (VStr (arrayField ++ "." ++ idField)) = (VObj fields', inr tt)
        /\ map fst fields' = map fst fields
        /\ (forall k, k <> arrayField -> lookup k fields' = lookup k fields)
        /\ lookup arrayField fields' = Some (VArr (map VObj subdocs'))
        /\ Forall2
             (fun sub sub' =>
                map fst sub' = map fst sub
                /\ (forall hex,
                       lookup idField sub = Some (VObjectId hex) ->
                       lookup idField sub' = Some (VStr hex))
                /\ (forall k, k <> idField -> lookup k sub' = lookup k sub))
             subdocs subdocs')
  /\ (forall (R : realm) (items : list value) (remainingParts : list string),
         Forall (fun item => snd (recurse R item remainingParts) = inr tt)
                items ->
         recurse R (VArr items) remainingParts =
         (VArr (map (fun item => fst (recurse R item remainingParts)) items),
          inr tt)).
Proof.
  split.
  - intros R fields arrayField idField subdocs Ha Hi Hlook Hsubs.
    set (conv := fun sub : record =>
                   replace_field idField
                     (stringify_leaf (get_prop (VObj sub) idField)) sub).
    assert (Hloop : for_each (recurse_parts R [idField]) (map VObj subdocs) =
                    (map VObj (map conv subdocs), inr tt)).
    { rewrite for_each_returns.
      - rewrite !map_map. f_equal. apply map_ext_Forall.
        eapply Forall_impl; [|exact Hsubs].
        intros sub [hex Hhex]. cbv beta.
        rewrite (recurse_terminal_own R _ _ Hhex). unfold conv.
        simpl get_prop. rewrite Hhex. reflexivity.
      - apply Forall_forall. intros item Hin.
        apply in_map_iff in Hin. destruct Hin as (sub & <- & Hin).
        rewrite Forall_forall in Hsubs. destruct (Hsubs sub Hin) as [hex Hhex].
        rewrite (recurse_terminal_own R _ _ Hhex). reflexivity. }
    exists (replace_field arrayField (VArr (map VObj (map conv subdocs)))
              fields), (map conv subdocs).
    split; [|split; [|split; [|split]]].
    + unfold applyStringifyAtPath, recurse.
      rewrite (split_dot_app arrayField idField Ha).
      rewrite (split_dot_segment idField Hi).
      rewrite recurse_parts_obj. unfold record_outcome.
      cbn [parts_key parts_fn tl]. rewrite (inherits_own _ _ Hlook).
      simpl get_prop. rewrite Hlook. unfold rewritten.
      rewrite recurse_parts_array, Hloop. reflexivity.
    + apply replace_field_keys.
    + intros k Hk. apply lookup_replace_field_neq. congruence.
    + rewrite lookup_replace_field_eq, Hlook. reflexivity.
    + apply Forall2_map_right. intros sub _. unfold conv.
      split; [apply replace_field_keys|]. split.
      * intros hex Hhex. rewrite lookup_replace_field_eq.
        simpl get_prop. rewrite Hhex. reflexivity.
      * intros k Hk. apply lookup_replace_field_neq. congruence.
  - intros R items remainingParts Hall. unfold recurse in *.
    rewrite recurse_parts_array, for_each_returns by exact Hall.
    reflexivity.
Qed.

Lemma fan_out_correctness_witness :
  exists (fields' : record) (subdocs' : list record),
    applyStringifyAtPath standard
      (VObj [("name", VStr "express");
             ("contributors",
              VArr (map VObj [[("username", VStr "tj"); ("_id", VObjectId "a1")];
                              [("_id", VObjectId "b2")]]))])
      (VStr ("contributors" ++ "." ++ "_id")) = (VObj fields', inr tt)
    /\ map fst fields' = ["name"; "contributors"]
    /\ (forall k, k <> "contributors" ->
                  lookup k fields' =
                  lookup k [("name", VStr "express");
                            ("contributors",
                             VArr (map VObj
                                     [[("username", VStr "tj");
                                       ("_id", VObjectId "a1")];
                                      [("_id", VObjectId "b2")]]))])
    /\ lookup "contributors" fields' = Some (VArr (map VObj subdocs'))
    /\ Forall2
         (fun sub sub' =>
            map fst sub' = map fst sub
            /\ (forall hex,
                   lookup "_id" sub = Some (VObjectId hex) ->
                   lookup "_id" sub' = Some (VStr hex))
            /\ (forall k, k <> "_id" -> lookup k sub' = lookup k sub))
         [[("username", VStr "tj"); ("_id", VObjectId "a1")];
          [("_id", VObjectId "b2")]]
         subdocs'.
Proof.
  apply (proj1 fan_out_correctness standard
           [("name", VStr "express");
            ("contributors",
             VArr (map VObj [[("username", VStr "tj"); ("_id", VObjectId "a1")];
                             [("_id", VObjectId "b2")]]))]
           "contributors" "_id"
           [[("username", VStr "tj"); ("_id", VObjectId "a1")];
            [("_id", VObjectId "b2")]]); try reflexivity.
  repeat constructor; eexists; reflexivity.
Defined.

(** ** Where the path rewriter raises *)




(** ** Order of the paths *)

Section DocFacts.
Variable R : realm.

Lemma stringify_doc_at_eq (path : string) (doc : record) :
  stringify_doc_at R (VStr path) doc =
  (doc_rewritten R path doc, record_outcome R (split_dot path) doc).
Proof.
  unfold stringify_doc_at, applyStringifyAtPath, recurse.
  rewrite recurse_parts_obj. reflexivity.
Qed.

Lemma stringify_doc_at_returns (path : string) (doc doc' : record) :
  stringify_doc_at R (VStr path) doc = (doc', inr tt) ->
  doc' = doc_rewritten quiet path doc.
Proof.
  rewrite stringify_doc_at_eq. intros H. injection H as <- Hret.
  assert (Hrun : snd (recurse_parts R (split_dot path) (VObj doc)) = inr tt)
    by (rewrite recurse_parts_obj; exact Hret).
  apply returns_as_quiet in Hrun. rewrite !rewritten_obj in Hrun.
  injection Hrun as Hrun. exact Hrun.
Qed.

(** A path that is not a string raises before anything is read. *)
Lemma stringify_doc_at_not_string (path : value) (doc : record) :
  is_string path = false ->
  exists e, stringify_doc_at R path doc = (doc, inl e).
Proof.
  intros H. unfold stringify_doc_at, applyStringifyAtPath.
  destruct path; try discriminate; eexists; reflexivity.
Qed.

Lemma stringify_doc_at_state (path : value) (doc : record) :
  fst (stringify_doc_at R path doc) =
  match path with
  | VStr p => doc_rewritten R p doc
  | _ => doc
  end.
Proof.
  destruct path; try reflexivity.
  rewrite stringify_doc_at_eq. reflexivity.
Qed.
End DocFacts.

Lemma doc_rewritten_comm (p q : string) (doc : record) :
  doc_rewritten quiet p (doc_rewritten quiet q doc) =
  doc_rewritten quiet q (doc_rewritten quiet p doc).
Proof.
  assert (H : VObj (doc_rewritten quiet p (doc_rewritten quiet q doc)) =
              VObj (doc_rewritten quiet q (doc_rewritten quiet p doc))).
  { rewrite <- !rewriteAt_obj, !rewriteAt_rewritten. apply rewritten_comm. }
  injection H as H. exact H.
Qed.

(** C8, as the code has it.  Two path expressions whose applications
    return, in the one order and in the other, can be applied to a root in
    either order: the root ends up the same.  In particular the inner loop
    of the hook over [stringifyKeys], when it returns whichever of two paths
    comes first, leaves the record the same. *)
Theorem paths_independent_when_returning :
  (forall (R : realm) (root : value) (p q : string),
      snd (applyStringifyAtPath R root (VStr p)) = inr tt ->
      snd (applyStringifyAtPath R (rewriteAt R root p) (VStr q)) = inr tt ->
      snd (applyStringifyAtPath R root (VStr q)) = inr tt ->
      snd (applyStringifyAtPath R (rewriteAt R root q) (VStr p)) = inr tt ->
      rewriteAt R (rewriteAt R root p) q = rewriteAt R (rewriteAt R root q) p)
  /\ (forall (R : realm) (doc doc1 doc2 : record) (p q : string),
         for_values (stringify_doc_at R) [VStr p; VStr q] doc =
           (doc1, inr tt) ->
         for_values (stringify_doc_at R) [VStr q; VStr p] doc =
           (doc2, inr tt) ->
         doc1 = doc2).
Proof.
  split.
  - intros R root p q Hp Hpq Hq Hqp.
    rewrite !rewriteAt_rewritten. unfold applyStringifyAtPath, recurse in *.
    rewrite rewriteAt_rewritten in Hpq, Hqp.
    rewrite (returns_as_quiet _ _ _ Hpq), (returns_as_quiet _ _ _ Hqp).
    rewrite (returns_as_quiet _ _ _ Hp), (returns_as_quiet _ _ _ Hq).
    apply rewritten_comm.
  - intros R doc doc1 doc2 p q H1 H2.
    cbn [for_values] in H1, H2. unfold bind, ret in H1, H2.
    destruct (stringify_doc_at R (VStr p) doc) as [dp [e|[]]] eqn:Ep;
      [discriminate|].
    destruct (stringify_doc_at R (VStr q) dp) as [dpq [e|[]]] eqn:Epq;
      [discriminate|].
    destruct (stringify_doc_at R (VStr q) doc) as [dq [e|[]]] eqn:Eq;
      [discriminate|].
    destruct (stringify_doc_at R (VStr p) dq) as [dqp [e|[]]] eqn:Eqp;
      [discriminate|].
    injection H1 as <-. injection H2 as <-.
    apply stringify_doc_at_returns in Ep, Epq, Eq, Eqp. subst.
    apply doc_rewritten_comm.
Qed.

Lemma paths_independent_when_returning_witness :
  let doc := [("owner", VObjectId "a1");
              ("contributors", VArr [VObj [("_id", VObjectId "b2")]])] in
  rewriteAt standard (rewriteAt standard (VObj doc) "owner")
    "contributors._id" =
  rewriteAt standard (rewriteAt standard (VObj doc) "contributors._id")
    "owner".
Proof.
  intros doc.
  apply (proj1 paths_independent_when_returning standard (VObj doc)
           "owner" "contributors._id"); reflexivity.
Defined.

(** C8 as stated fails.  In the loop of the hook a path that raises ends the
    loop, so the identifier is stringified when its path comes first and is
    not when it comes second.  And a path can raise because of what another
    path wrote: once ["x.b"] has put a string under [b], the segment
    [length] of the other path reads the length of that string, a number,
    whose [constructor.caller] raises, and the second element of the array
    is never reached. *)
Lemma paths_depend_on_order :
  fst (for_values (stringify_doc_at standard)
         [VStr "constructor.caller"; VStr "_id"] [("_id", VObjectId "a1")])
  <> fst (for_values (stringify_doc_at standard)
            [VStr "_id"; VStr "constructor.caller"] [("_id", VObjectId "a1")])
  /\ (let root :=
        VObj [("x",
               VArr [VObj [("b", VObjectId "a1")];
                     VObj [("b",
                            VObj [("length",
                                   VObj [("constructor",
                                          VObj [("caller",
                                                 VObjectId "b2")])])])]])] in
      rewriteAt standard (rewriteAt standard root "x.b.length.constructor.caller")
        "x.b"
      <> rewriteAt standard (rewriteAt standard root "x.b")
           "x.b.length.constructor.caller").
Proof. split; discriminate. Qed.

(** ** Idempotence of the stringification *)

(** C9.  Stringifying the primary identifier of a record twice leaves it as
    stringifying it once does, and so does applying the path rewriter twice
    with the same path: a field that already holds a string is not
    touched. *)
Theorem stringification_idempotent :
  (forall doc : record,
      bind stringify_id_record (fun _ => stringify_id_record) doc =
      stringify_id_record doc)
  /\ (forall (R : realm) (root : value) (path : string),
         rewriteAt R (rewriteAt R root path) path = rewriteAt R root path).
Proof.
  split.
  - intros doc. unfold bind, stringify_id_record, get_optional.
    cbn [nullish get_prop].
    destruct (lookup "_id" doc) as [id|] eqn:E; [|simpl; rewrite E; reflexivity].
    destruct id; simpl; rewrite ?andb_false_r; try (rewrite E; simpl);
      rewrite ?andb_false_r; try reflexivity.
    rewrite lookup_set_field_eq. cbn [instanceof_ObjectId].
    rewrite andb_false_r. reflexivity.
  - intros R root path. rewrite !rewriteAt_rewritten. apply rewritten_idem.
Qed.
(* ------------------------------------------------------------------ *)
(** ** Sequencing *)

Section MonadFacts.
Variable S : Type.

Lemma bind_assoc (A B C : Type) (m : M S A) (f : A -> M S B) (g : B -> M S C)
    (s : S) :
  bind (bind m f) g s = bind m (fun a => bind (f a) g) s.
Proof.
  unfold bind. destruct (m s) as [s' [e|a]]; reflexivity.
Qed.

Lemma bind_ext_l (A B : Type) (m m' : M S A) (k : A -> M S B) (s : S) :
  m s = m' s -> bind m k s = bind m' k s.
Proof. unfold bind. intros ->. reflexivity. Qed.

Lemma bind_ext_r (A B : Type) (m : M S A) (k k' : A -> M S B) (s : S) :
  (forall a s', k a s' = k' a s') -> bind m k s = bind m k' s.
Proof.
  unfold bind. intros H. destruct (m s) as [s' [e|a]]; [reflexivity | apply H].
Qed.

Lemma bind_returns (m k : M S unit) (s s'' : S) :
  bind m (fun _ => k) s = (s'', inr tt) <->
  exists s', returns_to m s s' /\ returns_to k s' s''.
Proof.
  unfold bind, returns_to. split.
  - destruct (m s) as [s' [e|[]]]; [discriminate|].
    intros H. exists s'. split; [reflexivity | exact H].
  - intros (s' & -> & H). exact H.
Qed.

Variable body : M S unit.

Lemma for_each_ret (xs : list S) : for_each (ret tt) xs = (xs, inr tt).
Proof.
  induction xs as [|x tl IH]; simpl; [reflexivity|].
  rewrite IH. reflexivity.
Qed.

Lemma when_for_each (c : bool) (xs : list S) :
  when c (for_each body) xs = for_each (when c body) xs.
Proof.
  destruct c; simpl; [reflexivity|].
  unfold ret at 1. symmetry. apply for_each_ret.
Qed.

Lemma for_each_returns_iff (xs xs' : list S) :
  returns_to (for_each body) xs xs' <-> Forall2 (returns_to body) xs xs'.
Proof. split; [apply for_each_inr | apply for_each_Forall2]. Qed.
End MonadFacts.

Section LoopFusion.
Variable S : Type.
Variables a b : M S unit.

(** Two loops one after the other return exactly when running both bodies
    on each element returns, with the same final elements. *)
Lemma loops_return (rest : M (list S) unit) (xs xs'' : list S) :
  (forall ys ys', returns_to rest ys ys' <-> Forall2 (returns_to b) ys ys') ->
  returns_to (bind (for_each a) (fun _ => rest)) xs xs'' <->
  Forall2 (returns_to (bind a (fun _ => b))) xs xs''.
Proof.
  intros Hrest. unfold returns_to at 1. rewrite bind_returns. split.
  - intros (xs' & Ha & Hb).
    apply for_each_returns_iff in Ha. apply Hrest in Hb. clear Hrest.
    revert xs'' Hb.
    induction Ha as [|x x' tl tl' Hx _ IH]; intros xs'' Hb;
      inversion Hb as [|? x'' ? tl'' Hx' Htl]; subst; constructor.
    + apply bind_returns. exists x'. split; assumption.
    + apply IH, Htl.
  - intros H.
    assert (Hsplit : exists xs',
               Forall2 (returns_to a) xs xs'
               /\ Forall2 (returns_to b) xs' xs'').
    { induction H as [|x x'' tl tl'' Hx _ (tl' & Ha & Hb)].
      - exists []. split; constructor.
      - apply bind_returns in Hx. destruct Hx as (x' & Hxa & Hxb).
        exists (x' :: tl'). split; constructor; assumption. }
    destruct Hsplit as (xs' & Ha & Hb).
    exists xs'. split; [apply for_each_returns_iff, Ha | apply Hrest, Hb].
Qed.
End LoopFusion.

(* ------------------------------------------------------------------ *)
(** ** The hook, loop by loop *)

Lemma with_docs_docs_of (result : result_set) :
  with_docs result (docs_of result) = result.
Proof. destruct result; reflexivity. Qed.

Lemma docs_of_with_docs (result : result_set) (docs' : list record) :
  List.length docs' = List.length (docs_of result) ->
  docs_of (with_docs result docs') = docs'.
Proof.
  destruct result as [| |doc|docs]; simpl; intros H.
  - destruct docs'; [reflexivity | discriminate].
  - destruct docs'; [reflexivity | discriminate].
  - destruct docs' as [|doc' [|? ?]]; try discriminate. reflexivity.
  - reflexivity.
Qed.

Lemma with_docs_twice (result : result_set) (docs1 docs2 : list record) :
  List.length docs1 = List.length (docs_of result) ->
  List.length docs2 = List.length (docs_of result) ->
  with_docs (with_docs result docs1) docs2 = with_docs result docs2.
Proof.
  destruct result as [| |doc|docs]; simpl; intros H1 H2; try reflexivity.
  destruct docs1 as [|doc1 [|? ?]]; try discriminate.
  destruct docs2 as [|doc2 [|? ?]]; try discriminate. reflexivity.
Qed.

Lemma keeps_length_for_each (body : M record unit) :
  keeps_length (for_each body).
Proof. intros docs. apply for_each_length. Qed.

Lemma keeps_length_when (c : bool) (m : M (list record) unit) :
  keeps_length m -> keeps_length (when c m).
Proof. intros H docs. destruct c; [apply H | reflexivity]. Qed.

Lemma keeps_length_bind (m1 m2 : M (list record) unit) :
  keeps_length m1 -> keeps_length m2 ->
  keeps_length (bind m1 (fun _ => m2)).
Proof.
  intros H1 H2 docs. unfold bind.
  specialize (H1 docs). destruct (m1 docs) as [docs1 [e|[]]]; simpl in *.
  - exact H1.
  - rewrite H2. exact H1.
Qed.

Lemma when_on_docs (c : bool) (m : M (list record) unit) (st : hook_state) :
  when c (on_docs m) st = on_docs (when c m) st.
Proof.
  destruct c; [reflexivity|].
  unfold when, on_docs, ret. rewrite with_docs_docs_of.
  destruct st; reflexivity.
Qed.

(** Two loops over the records of the result, one after the other, are one
    pass over the normalized sequence that runs both. *)
Lemma on_docs_fuse (m1 m2 : M (list record) unit) (k : M hook_state unit)
    (st : hook_state) :
  keeps_length m1 -> keeps_length m2 ->
  bind (on_docs m1) (fun _ => bind (on_docs m2) (fun _ => k)) st =
  bind (on_docs (bind m1 (fun _ => m2))) (fun _ => k) st.
Proof.
  intros H1 H2. unfold bind, on_docs.
  specialize (H1 (docs_of (delivered st))).
  destruct (m1 (docs_of (delivered st))) as [docs1 [e|[]]]; simpl in *;
    [reflexivity|].
  rewrite (docs_of_with_docs _ _ H1).
  specialize (H2 docs1).
  destruct (m2 docs1) as [docs2 r]; simpl in *.
  rewrite with_docs_twice by congruence.
  reflexivity.
Qed.

Lemma bind_get_state (S A : Type) (k : S -> M S A) (s : S) :
  bind get_state k s = k s s.
Proof. reflexivity. Qed.

Lemma three_loops_on_docs (c3 : bool) (b3 : M record unit) (c4 : bool)
    (b4 : M record unit) (c5 : bool) (b5 : M record unit)
    (k : M hook_state unit) (st : hook_state) :
  bind (when c3 (on_docs (for_each b3)))
    (fun _ => bind (when c4 (on_docs (for_each b4)))
       (fun _ => bind (when c5 (on_docs (for_each b5))) (fun _ => k))) st =
  bind (on_docs (three_loops c3 b3 c4 b4 c5 b5)) (fun _ => k) st.
Proof.
  unfold three_loops.
  rewrite (@bind_ext_l _ _ _ _ _ _ st (when_on_docs _ _ st)).
  rewrite <- on_docs_fuse.
  - apply bind_ext_r. intros _ st1.
    rewrite (@bind_ext_l _ _ _ _ _ _ st1 (when_on_docs _ _ st1)).
    rewrite <- on_docs_fuse.
    + apply bind_ext_r. intros _ st2.
      apply bind_ext_l, when_on_docs.
    + apply keeps_length_when, keeps_length_for_each.
    + apply keeps_length_when, keeps_length_for_each.
  - apply keeps_length_when, keeps_length_for_each.
  - apply keeps_length_bind;
      apply keeps_length_when, keeps_length_for_each.
Qed.

(** The three loops return exactly when the three callbacks, run one after
    the other on each record, return. *)
Lemma three_loops_returns (c3 : bool) (b3 : M record unit) (c4 : bool)
    (b4 : M record unit) (c5 : bool) (b5 : M record unit)
    (docs docs' : list record) :
  returns_to (three_loops c3 b3 c4 b4 c5 b5) docs docs' <->
  Forall2 (returns_to (bind (when c3 b3)
                         (fun _ => bind (when c4 b4) (fun _ => when c5 b5))))
    docs docs'.
Proof.
  unfold three_loops.
  assert (Hwhen : forall (c : bool) (body m : M record unit)
                         (rest : M (list record) unit) xs xs'',
             (forall ys ys', returns_to rest ys ys' <->
                             Forall2 (returns_to m) ys ys') ->
             returns_to (bind (when c (for_each body)) (fun _ => rest)) xs xs''
             <-> Forall2 (returns_to (bind (when c body) (fun _ => m))) xs xs'').
  { intros c body m rest xs xs'' Hrest.
    rewrite <- (@loops_return _ (when c body) m rest xs xs'' Hrest).
    unfold returns_to.
    rewrite (@bind_ext_l _ _ _ _ _ _ xs (when_for_each body c xs)). reflexivity. }
  apply Hwhen. intros ys ys'.
  apply Hwhen. intros zs zs'.
  unfold returns_to at 1. rewrite when_for_each.
  apply for_each_returns_iff.
Qed.

(* ------------------------------------------------------------------ *)
(** ** The options of the receiver *)

(** The two ways of reading the options give the same options, unless the
    call of [getOptions] raises where the optional call gives [undefined]. *)
Lemma read_or_undefined (this : option query) :
  read_options this = inr (query_options this)
  \/ (exists e, read_options this = inl e)
     /\ query_options this = VUndefined.
Proof.
  unfold read_options, query_options, call_getOptions,
    call_getOptions_if_any.
  destruct (nullish (attached this)); [|left; reflexivity].
  destruct this as [[attached_options [options|]]|]; cbn [getOptions];
    [left; reflexivity | right | right]; split; eauto.
Qed.

Lemma read_options_query_options (this : option query) (options : value) :
  read_options this = inr options -> query_options this = options.
Proof.
  intros H. destruct (read_or_undefined this) as [H'|[[e H'] _]];
    congruence.
Qed.

Lemma gate_open_reads (this : option query) (result : result_set) :
  gate this result = false -> read_options this = inr (query_options this).
Proof.
  destruct (read_or_undefined this) as [H|[_ Hq]]; [intros _; exact H|].
  unfold gate, gate_on. rewrite Hq. discriminate.
Qed.

Lemma gate_passed (this : option query) (result : result_set) :
  gate this result = false ->
  nullish (query_options this) = false
  /\ truthy (get_prop (query_options this) "lean") = true
  /\ result_truthy result = true.
Proof.
  unfold gate, gate_on, get_optional. intros H.
  apply orb_false_elim in H. destruct H as [H1 H2].
  apply negb_false_iff in H1, H2.
  destruct (nullish (query_options this)); [discriminate|].
  auto.
Qed.

Lemma gate_with_docs (this : option query) (result : result_set)
    (docs' : list record) :
  gate this (with_docs result docs') = gate this result.
Proof.
  unfold gate, gate_on. f_equal. f_equal.
  destruct result as [| |doc|docs]; try reflexivity.
  simpl. destruct docs' as [|d [|? ?]]; reflexivity.
Qed.

Lemma gate_true_cases (this : option query) (result : result_set) :
  gate this result = true ->
  truthy (get_prop (query_options this) "lean") = false
  \/ docs_of result = [].
Proof.
  unfold gate, gate_on, get_optional. intros G.
  apply orb_true_iff in G. destruct G as [G|G]; apply negb_true_iff in G.
  - left. destruct (nullish (query_options this)) eqn:N; [|exact G].
    destruct (query_options this); try discriminate; reflexivity.
  - right. destruct result; try discriminate; reflexivity.
Qed.

(* ------------------------------------------------------------------ *)
(** ** The hook, loop by loop *)

Section HookFacts.
Variable R : realm.
Variable K : value -> exn + string.

Lemma process_docs_three_loops (opts : lean_options) :
  process_docs R K opts =
  three_loops (stringify_keys_condition opts) (stringify_keys_record R opts)
    (negb (truthy (showVersion opts))) deversion_record
    (truthy (stringifyId opts) || truthy (rename opts))
    (identity_record K (rename opts)).
Proof. reflexivity. Qed.

Lemma keeps_length_process_docs (opts : lean_options) :
  keeps_length (process_docs R K opts).
Proof.
  unfold process_docs.
  repeat apply keeps_length_bind;
    apply keeps_length_when, keeps_length_for_each.
Qed.

Lemma steps_on_docs (opts : lean_options) (k : M hook_state unit)
    (st : hook_state) :
  bind (stringify_keys_step R opts)
    (fun _ => bind (deversion_step opts)
       (fun _ => bind (identity_step K opts) (fun _ => k))) st =
  bind (on_docs (process_docs R K opts)) (fun _ => k) st.
Proof. apply three_loops_on_docs. Qed.

(** The [try] block: the options cannot be read, or the early return, or
    the three loops followed by [next()], which is not reached when a loop
    raises. *)
Lemma hook_body_eq (this : option query) (st : hook_state) :
  hook_body R K this st =
  match read_options this with
  | inl e => (st, inl e)
  | inr _ =>
      if gate this (delivered st)
      then ({| delivered := delivered st;
               signals := signals st ++ [Continue] |}, inr tt)
      else
        let opts := lean_options_of (get_prop (query_options this) "lean") in
        let '(docs', r) := process_docs R K opts (docs_of (delivered st)) in
        match r with
        | inl e =>
            ({| delivered := with_docs (delivered st) docs';
                signals := signals st |}, inl e)
        | inr _ =>
            ({| delivered := with_docs (delivered st) docs';
                signals := signals st ++ [Continue] |}, inr tt)
        end
  end.
Proof.
  unfold hook_body. unfold bind at 1, lift at 1.
  destruct (read_options this) as [e|options] eqn:Er; [reflexivity|].
  pose proof (read_options_query_options _ Er) as Ho. subst options.
  rewrite bind_get_state.
  change (gate_on (query_options this) (delivered st))
    with (gate this (delivered st)).
  destruct (gate this (delivered st)) eqn:G; [reflexivity|].
  destruct (gate_passed _ _ G) as (Hopt & Hlean & _).
  unfold get_checked. rewrite Hopt.
  unfold bind at 1, lift at 1.
  unfold destructure. rewrite (truthy_not_nullish _ Hlean).
  unfold bind at 1, lift at 1.
  rewrite steps_on_docs.
  unfold bind, on_docs, next.
  destruct (process_docs R K _ (docs_of (delivered st))) as [docs' [e|[]]];
    reflexivity.
Qed.

(** The hook on a fresh result. *)
Lemma run_hook_eq (this : option query) (result : result_set) :
  run_hook R K this result =
  match read_options this with
  | inl e =>
      ({| delivered := result; signals := [ContinueWithError e] |}, inr tt)
  | inr _ =>
      if gate this result
      then ({| delivered := result; signals := [Continue] |}, inr tt)
      else
        let opts := lean_options_of (get_prop (query_options this) "lean") in
        let '(docs', r) := process_docs R K opts (docs_of result) in
        ({| delivered := with_docs result docs';
            signals := [match r with
                        | inl e => ContinueWithError e
                        | inr _ => Continue
                        end] |}, inr tt)
  end.
Proof.
  unfold run_hook, mongooseLeanExtension, try_catch.
  rewrite hook_body_eq. cbn [delivered signals].
  destruct (read_options this) as [e|options]; [reflexivity|].
  destruct (gate this result); [reflexivity|].
  cbv zeta.
  destruct (process_docs R K _ (docs_of result)) as [docs' [e|[]]];
    reflexivity.
Qed.

(** The hook on a result that passes the gate. *)
Lemma run_hook_open (this : option query) (result : result_set) :
  gate this result = false ->
  run_hook R K this result =
  let opts := lean_options_of (get_prop (query_options this) "lean") in
  let '(docs', r) := process_docs R K opts (docs_of result) in
  ({| delivered := with_docs result docs';
      signals := [match r with
                  | inl e => ContinueWithError e
                  | inr _ => Continue
                  end] |}, inr tt).
Proof.
  intros G. rewrite run_hook_eq, (gate_open_reads _ _ G), G. reflexivity.
Qed.

(** The hook on a result that does not: nothing is touched. *)
Lemma run_hook_closed (this : option query) (result : result_set) :
  gate this result = true ->
  run_hook R K this result =
  ({| delivered := result;
      signals := [match read_options this with
                  | inl e => ContinueWithError e
                  | inr _ => Continue
                  end] |}, inr tt).
Proof.
  intros G. rewrite run_hook_eq, G.
  destruct (read_options this); reflexivity.
Qed.

(** The three loops return exactly when the three callbacks, run one after
    the other on each record, return. *)
Lemma process_docs_returns (opts : lean_options) (docs docs' : list record) :
  returns_to (process_docs R K opts) docs docs' <->
  Forall2 (returns_to (process_record R K opts)) docs docs'.
Proof. rewrite process_docs_three_loops. apply three_loops_returns. Qed.

(** The records of a result the hook has processed with success. *)
Lemma run_hook_success (this : option query) (result : result_set) :
  gate this result = false ->
  signals (fst (run_hook R K this result)) = [Continue] ->
  Forall2 (returns_to (process_record R K
                         (lean_options_of
                            (get_prop (query_options this) "lean"))))
    (docs_of result) (docs_of (delivered (fst (run_hook R K this result)))).
Proof.
  intros G. rewrite (run_hook_open _ _ G). cbv zeta.
  pose proof (keeps_length_process_docs
                (lean_options_of (get_prop (query_options this) "lean"))
                (docs_of result)) as Hlen.
  destruct (process_docs R K _ (docs_of result)) as [docs' [e|[]]] eqn:E;
    cbn [fst signals delivered] in *; [discriminate|]. intros _.
  rewrite docs_of_with_docs by exact Hlen.
  apply process_docs_returns, E.
Qed.
End HookFacts.

(* ------------------------------------------------------------------ *)
(** ** The early return *)




(* ------------------------------------------------------------------ *)
(** ** Shape of the delivered result *)

Lemma gate_shape (this : option query) (doc : record) (docs : list record) :
  gate this (ROne doc) = gate this (RMany docs).
Proof. reflexivity. Qed.

(** C4.  Whatever the options, a singular record is delivered as a singular
    record: the loops run over the one-element sequence [[doc]], and what is
    delivered is the record they leave in it, not the sequence.  A sequence
    is delivered as a sequence of the same length; when the hook signals
    success, the record at each position of the sequence is the one the hook
    delivers for the record that was at that position. *)
Theorem shape_preserved :
  forall (R : realm) (K : value -> exn + string) (this : option query),
    (forall doc : record,
        exists doc',
          delivered (fst (run_hook R K this (ROne doc))) = ROne doc'
          /\ (gate this (ROne doc) = false ->
              docs_of (ROne doc) = [doc]
              /\ fst (process_docs R K
                        (lean_options_of (get_prop (query_options this) "lean"))
                        [doc]) = [doc']))
    /\ (forall docs : list record,
           exists docs',
             delivered (fst (run_hook R K this (RMany docs))) = RMany docs'
             /\ List.length docs' = List.length docs
             /\ (signals (fst (run_hook R K this (RMany docs))) = [Continue] ->
                 Forall2
                   (fun doc doc' =>
                      delivered (fst (run_hook R K this (ROne doc))) = ROne doc')
                   docs docs')).
Proof.
  intros R K this. split.
  - intros doc.
    destruct (gate this (ROne doc)) eqn:G.
    + rewrite run_hook_closed by exact G.
      exists doc; split; [reflexivity | discriminate].
    + rewrite run_hook_open by exact G. cbv zeta. cbn [docs_of].
      pose proof (keeps_length_process_docs R K
                    (lean_options_of (get_prop (query_options this) "lean"))
                    [doc]) as Hlen.
      destruct (process_docs R K _ [doc]) as [docs' r].
      cbn [fst delivered with_docs List.length] in *.
      destruct docs' as [|doc' [|? ?]]; try discriminate.
      exists doc'. repeat split.
  - intros docs.
    destruct (gate this (RMany docs)) eqn:G.
    + rewrite run_hook_closed by exact G.
      exists docs. cbn [fst delivered signals]. repeat split.
      intros _.
      assert (Hall : forall doc,
                 delivered (fst (run_hook R K this (ROne doc))) = ROne doc).
      { intros doc. rewrite run_hook_closed; [reflexivity|].
        rewrite (gate_shape this doc docs). exact G. }
      clear G. induction docs as [|doc tl IH]; constructor; auto.
    + rewrite run_hook_open by exact G. cbv zeta. cbn [docs_of].
      pose proof (keeps_length_process_docs R K
                    (lean_options_of (get_prop (query_options this) "lean"))
                    docs) as Hlen.
      destruct (process_docs R K _ docs) as [docs' r] eqn:E.
      exists docs'. cbn [fst delivered signals with_docs] in *.
      repeat split; [exact Hlen|].
      intros Hsig. destruct r as [e|[]]; [discriminate|].
      apply process_docs_returns in E.
      eapply Forall2_impl; [|exact E].
      intros doc doc' Hdoc. cbv beta in Hdoc.
      rewrite run_hook_open by (rewrite (gate_shape this doc docs); exact G).
      cbv zeta. cbn [docs_of].
      assert (Hone : returns_to (process_docs R K
                       (lean_options_of (get_prop (query_options this) "lean")))
                       [doc] [doc']).
      { apply process_docs_returns. constructor; [exact Hdoc | constructor]. }
      unfold returns_to in Hone. rewrite Hone. reflexivity.
Qed.

Lemma shape_preserved_witness :
  let doc := [("_id", VObjectId "65a1"); ("__v", VNum (NFin 0))] in
  let this := lean_query (VObj [("rename", VStr "uid")]) in
  (exists doc',
      delivered (fst (run_hook standard strings_only this (ROne doc))) =
      ROne doc'
      /\ fst (process_docs standard strings_only
                (lean_options_of (VObj [("rename", VStr "uid")])) [doc])
         = [doc'])
  /\ (exists docs',
         delivered (fst (run_hook standard strings_only this (RMany [doc; []])))
         = RMany docs'
         /\ List.length docs' = 2%nat
         /\ Forall2
              (fun doc doc' =>
                 delivered (fst (run_hook standard strings_only this (ROne doc)))
                 = ROne doc')
              [doc; []] docs').
Proof.
  intros doc this. split.
  - destruct (proj1 (shape_preserved standard strings_only this) doc)
      as (doc' & Hd & Hn).
    exists doc'. split; [exact Hd|].
    apply Hn. reflexivity.
  - destruct (proj2 (shape_preserved standard strings_only this) [doc; []])
      as (docs' & Hd & Hl & Hf).
    exists docs'. repeat split; [exact Hd | exact Hl |].
    apply Hf. reflexivity.
Defined.

(* ------------------------------------------------------------------ *)
(** ** Exactly one signal *)

(** C6.  Every run of the hook returns to its caller without raising and
    has called the continuation exactly once.  When the [try] block raises,
    that single call is [next(error)] with the exception raised, and the
    result is delivered in the state the exception left it in; when the
    block returns, the single call is the [next()] it made. *)
Theorem exactly_one_signal :
  forall (R : realm) (K : value -> exn + string) (this : option query)
         (result : result_set),
    (snd (run_hook R K this result) = inr tt
     /\ exists s, signals (fst (run_hook R K this result)) = [s])
    /\ (forall (e : exn) (st : hook_state),
           hook_body R K this {| delivered := result; signals := [] |} =
             (st, inl e) ->
           run_hook R K this result =
           ({| delivered := delivered st;
               signals := [ContinueWithError e] |}, inr tt))
    /\ (forall st : hook_state,
           hook_body R K this {| delivered := result; signals := [] |} =
             (st, inr tt) ->
           run_hook R K this result = (st, inr tt)
           /\ signals st = [Continue]).
Proof.
  intros R K this result.
  unfold run_hook at 3 4, mongooseLeanExtension, try_catch.
  rewrite run_hook_eq, hook_body_eq. cbn [delivered signals app].
  destruct (read_options this) as [e0|options].
  { split; [split; [reflexivity | eexists; reflexivity]|].
    split; [|discriminate].
    intros e' st H. injection H as <- <-. reflexivity. }
  destruct (gate this result).
  - split; [split; [reflexivity | eexists; reflexivity]|].
    split; [discriminate|].
    intros st H. injection H as <-. split; reflexivity.
  - cbv zeta.
    destruct (process_docs R K _ (docs_of result)) as [docs' [e|[]]].
    + split; [split; [reflexivity | eexists; reflexivity]|].
      split; [|discriminate].
      intros e' st H. injection H as <- <-. reflexivity.
    + split; [split; [reflexivity | eexists; reflexivity]|].
      split; [discriminate|].
      intros st H. injection H as <-. split; reflexivity.
Qed.

Lemma exactly_one_signal_witness :
  let doc := [("_id", VObjectId "65a1"); ("owner", VObjectId "77b2")] in
  let this :=
    lean_query (VObj [("stringifyKeys", VArr [VStr "owner"; VNum (NFin 5)])]) in
  run_hook standard strings_only this (RMany [doc; doc]) =
  ({| delivered :=
        RMany [[("_id", VObjectId "65a1"); ("owner", VStr "77b2")]; doc];
      signals :=
        [ContinueWithError (TypeError "path.split is not a function")] |},
   inr tt).
Proof.
  intros doc this.
  apply (proj1 (proj2 (exactly_one_signal standard strings_only this
                         (RMany [doc; doc])))
           (TypeError "path.split is not a function")
           {| delivered :=
                RMany [[("_id", VObjectId "65a1"); ("owner", VStr "77b2")]; doc];
              signals := [] |}).
  reflexivity.
Defined.

(* ------------------------------------------------------------------ *)
(** ** The callbacks, one by one *)

Lemma deversion_record_pure (doc : record) :
  deversion_record doc = (strip_version doc, inr tt).
Proof.
  unfold deversion_record, strip_version, get_optional. cbn [nullish].
  destruct (isInteger (get_prop (VObj doc) "__v")); reflexivity.
Qed.

Lemma stringify_id_record_pure (doc : record) :
  stringify_id_record doc = (stringified_id doc, inr tt).
Proof.
  unfold stringify_id_record, stringified_id, get_optional. cbn [nullish].
  destruct (get_prop (VObj doc) "_id"); simpl; rewrite ?andb_false_r;
    reflexivity.
Qed.

Lemma lookup_strip_version (k : string) (doc : record) :
  k <> "__v" -> lookup k (strip_version doc) = lookup k doc.
Proof.
  intros H. unfold strip_version.
  destruct (isInteger _); [|reflexivity].
  apply lookup_delete_field_neq. congruence.
Qed.

Lemma lookup_stringified_id (k : string) (doc : record) :
  k <> "_id" -> lookup k (stringified_id doc) = lookup k doc.
Proof.
  intros H. unfold stringified_id.
  destruct (get_prop (VObj doc) "_id"); try reflexivity.
  apply lookup_set_field_neq. congruence.
Qed.

Lemma get_stringified_id (doc : record) :
  get_prop (VObj (stringified_id doc)) "_id" =
  stringify_leaf (get_prop (VObj doc) "_id").
Proof.
  unfold stringified_id.
  destruct (get_prop (VObj doc) "_id") eqn:E; try (rewrite E; reflexivity).
  simpl. rewrite lookup_set_field_eq. reflexivity.
Qed.

Lemma stringified_id_missing (doc : record) :
  lookup "_id" doc = None -> stringified_id doc = doc.
Proof. unfold stringified_id. simpl. intros ->. reflexivity. Qed.

Section RecordFacts.
Variable R : realm.
Variable K : value -> exn + string.

Lemma lookup_doc_rewritten_neq (path k : string) (doc : record) :
  parts_key (split_dot path) <> k ->
  lookup k (doc_rewritten R path doc) = lookup k doc.
Proof. intros H. unfold doc_rewritten. apply lookup_replace_field_neq, H. Qed.

Lemma lookup_doc_rewritten_eq (path : string) (doc : record) :
  lookup (parts_key (split_dot path)) (doc_rewritten R path doc) =
  option_map (parts_fn R (split_dot path))
    (lookup (parts_key (split_dot path)) doc).
Proof.
  unfold doc_rewritten. rewrite lookup_replace_field_eq. simpl get_prop.
  destruct (lookup (parts_key (split_dot path)) doc); reflexivity.
Qed.

(** What one call of the path rewriter leaves of a record. *)
Lemma stringify_doc_at_step (P : record -> Prop) (path : value)
    (doc : record) :
  P doc -> (forall p, P (doc_rewritten R p doc)) ->
  P (fst (stringify_doc_at R path doc)).
Proof.
  intros Hdoc Hp. rewrite stringify_doc_at_state.
  destruct path; auto.
Qed.

(** The paths neither create nor remove a top-level field. *)
Lemma keys_record_lookup_none (k : string) (opts : lean_options)
    (doc : record) :
  lookup k doc = None ->
  lookup k (fst (stringify_keys_record R opts doc)) = None.
Proof.
  unfold stringify_keys_record.
  apply (for_values_invariant (stringify_doc_at R)
           (fun d => lookup k d = None)).
  intros path d Hd. apply stringify_doc_at_step; [exact Hd|].
  intros p. destruct (String.eqb_spec (parts_key (split_dot p)) k) as [<-|Hne].
  - rewrite lookup_doc_rewritten_eq, Hd. reflexivity.
  - rewrite lookup_doc_rewritten_neq by exact Hne. exact Hd.
Qed.

(** They leave alone a field that no path starts with. *)
Lemma keys_record_frame (k : string) (opts : lean_options) (doc : record) :
  (forall p, In (VStr p) (items_of (stringifyKeys opts)) ->
             parts_key (split_dot p) <> k) ->
  lookup k (fst (stringify_keys_record R opts doc)) = lookup k doc.
Proof.
  unfold stringify_keys_record. generalize (items_of (stringifyKeys opts)).
  intros paths. revert doc.
  induction paths as [|path tl IH]; intros doc H; [reflexivity|].
  cbn [for_values]. unfold bind.
  assert (Hstep : lookup k (fst (stringify_doc_at R path doc)) = lookup k doc).
  { rewrite stringify_doc_at_state. destruct path; try reflexivity.
    apply lookup_doc_rewritten_neq, H. left. reflexivity. }
  destruct (stringify_doc_at R path doc) as [d [e|[]]]; cbn [fst] in *;
    [exact Hstep|].
  rewrite IH by (intros p Hp; apply H; right; exact Hp). exact Hstep.
Qed.

Lemma id_settled_doc_rewritten (v : value) (path : string) (doc : record) :
  id_settled v doc -> id_settled v (doc_rewritten R path doc).
Proof.
  unfold id_settled, doc_rewritten. intros [Hatom Hleaf].
  set (parts := split_dot path).
  destruct (String.eqb_spec (parts_key parts) "_id") as [Heq|Hne].
  - rewrite Heq. destruct (lookup "_id" doc) as [c|] eqn:E.
    + rewrite get_prop_replace_field_eq by congruence.
      destruct parts as [|k [|k' rest]]; cbn [parts_fn].
      * rewrite stringify_leaf_idem. split; [|exact Hleaf].
        destruct (get_prop (VObj doc) "_id"); try discriminate; reflexivity.
      * rewrite stringify_leaf_idem. split; [|exact Hleaf].
        destruct (get_prop (VObj doc) "_id"); try discriminate; reflexivity.
      * rewrite rewritten_atom by exact Hatom. split; assumption.
    + rewrite (replace_field_missing _ _ _ E). split; assumption.
  - rewrite get_prop_replace_field_neq by exact Hne. split; assumption.
Qed.

(** They keep what [_id] will be once stringified. *)
Lemma keys_record_id_settled (v : value) (opts : lean_options)
    (doc : record) :
  id_settled v doc -> id_settled v (fst (stringify_keys_record R opts doc)).
Proof.
  unfold stringify_keys_record.
  apply (for_values_invariant (stringify_doc_at R) (id_settled v)).
  intros path d Hd. apply stringify_doc_at_step; [exact Hd|].
  intros p. apply id_settled_doc_rewritten, Hd.
Qed.

Lemma version_kept_refl (doc : record) : version_kept doc doc.
Proof. unfold version_kept. tauto. Qed.

Lemma version_kept_trans (a b c : record) :
  version_kept a b -> version_kept b c -> version_kept a c.
Proof.
  unfold version_kept. intros (H1 & H2 & H3) (H4 & H5 & H6).
  split; [tauto|]. split; [congruence|].
  intros Ha. rewrite H6 by congruence. auto.
Qed.

(** A field other than [__v] may change: the version field is kept. *)
Lemma version_kept_other (doc doc' : record) :
  lookup "__v" doc' = lookup "__v" doc -> version_kept doc doc'.
Proof.
  unfold version_kept. simpl. intros ->. tauto.
Qed.

Lemma version_kept_doc_rewritten (path : string) (doc : record) :
  version_kept doc (doc_rewritten R path doc).
Proof.
  destruct (String.eqb_spec (parts_key (split_dot path)) "__v") as [Heq|Hne].
  - unfold version_kept. simpl get_prop.
    rewrite <- Heq, lookup_doc_rewritten_eq.
    destruct (lookup (parts_key (split_dot path)) doc) as [c|];
      cbn [option_map]; [|tauto].
    split; [split; discriminate|]. split; [apply isInteger_parts_fn|].
    intros Hc. f_equal. apply parts_fn_atom;
      destruct c; try discriminate; reflexivity.
  - apply version_kept_other, lookup_doc_rewritten_neq, Hne.
Qed.

Lemma keys_record_version_kept (opts : lean_options) (doc : record) :
  version_kept doc (fst (stringify_keys_record R opts doc)).
Proof.
  unfold stringify_keys_record.
  apply (for_values_invariant (stringify_doc_at R) (version_kept doc));
    [|apply version_kept_refl].
  intros path d Hd. apply stringify_doc_at_step; [exact Hd|].
  intros p. eapply version_kept_trans; [exact Hd|].
  apply version_kept_doc_rewritten.
Qed.

(** The three callbacks on a record on which they return. *)
Lemma process_record_returned (opts : lean_options) (doc doc' : record) :
  returns_to (process_record R K opts) doc doc' ->
  exists d3 d4,
    returns_to (when (stringify_keys_condition opts)
                  (stringify_keys_record R opts)) doc d3
    /\ d4 = (if truthy (showVersion opts) then d3 else strip_version d3)
    /\ returns_to (when (truthy (stringifyId opts) || truthy (rename opts))
                     (identity_record K (rename opts))) d4 doc'.
Proof.
  unfold process_record. intros Hrun.
  apply bind_returns in Hrun. destruct Hrun as (d3 & H3 & Hrun).
  apply bind_returns in Hrun. destruct Hrun as (d4 & H4 & H5).
  exists d3, d4. split; [exact H3|]. split; [|exact H5].
  unfold returns_to in H4.
  destruct (truthy (showVersion opts)); cbn [negb when] in H4.
  - injection H4 as <-. reflexivity.
  - rewrite deversion_record_pure in H4. injection H4 as <-. reflexivity.
Qed.

(** The last callback on a record on which it returns. *)
Lemma identity_record_returned (rename : value) (d doc' : record) :
  returns_to (identity_record K rename) d doc' ->
  if truthy rename
  then exists key, property_key K rename = inr key
                   /\ doc' = renamed_id key (stringified_id d)
  else doc' = stringified_id d.
Proof.
  unfold returns_to, identity_record, bind.
  rewrite stringify_id_record_pure.
  destruct (truthy rename); cbn [when].
  - unfold rename_id_record.
    destruct (property_key K rename) as [e|key]; [discriminate|].
    intros H. injection H as <-. exists key. split; reflexivity.
  - intros H. injection H as <-. reflexivity.
Qed.

Lemma lookup_renamed_id_neq (key k : string) (doc : record) :
  key <> k -> k <> "_id" -> lookup k (renamed_id key doc) = lookup k doc.
Proof.
  intros H1 H2. unfold renamed_id.
  rewrite lookup_delete_field_neq by congruence.
  apply lookup_assign_neq, H1.
Qed.

(** What the keys loop and the last loop make of the version field. *)
Lemma process_record_version (opts : lean_options) (doc doc' : record) :
  returns_to (process_record R K opts) doc doc' ->
  (truthy (rename opts) = true -> property_key K (rename opts) <> inr "__v") ->
  exists d3,
    version_kept doc d3
    /\ lookup "__v" doc' =
       lookup "__v" (if truthy (showVersion opts) then d3
                     else strip_version d3).
Proof.
  intros Hrun Hkey.
  destruct (process_record_returned Hrun) as (d3 & d4 & H3 & E4 & H5).
  exists d3. split.
  - unfold returns_to in H3.
    destruct (stringify_keys_condition opts); cbn [when] in H3.
    + pose proof (keys_record_version_kept opts doc) as Hk.
      rewrite H3 in Hk. exact Hk.
    + injection H3 as <-. apply version_kept_refl.
  - transitivity (lookup "__v" d4); [|rewrite E4; reflexivity].
    clear E4. unfold returns_to in H5.
    destruct (truthy (stringifyId opts) || truthy (rename opts));
      cbn [when] in H5; [|injection H5 as <-; reflexivity].
    apply identity_record_returned in H5.
    destruct (truthy (rename opts)).
    + destruct H5 as (key & Hk & ->).
      rewrite lookup_renamed_id_neq;
        [apply lookup_stringified_id; discriminate | | discriminate].
      intros ->. apply Hkey; [reflexivity | exact Hk].
    + subst doc'. apply lookup_stringified_id. discriminate.
Qed.
End RecordFacts.

Lemma lookup_strip_version_eq (doc : record) :
  lookup "__v" (strip_version doc) = None <->
  isInteger (get_prop (VObj doc) "__v") = true \/ lookup "__v" doc = None.
Proof.
  unfold strip_version.
  destruct (isInteger (get_prop (VObj doc) "__v")) eqn:E.
  - rewrite lookup_delete_field_eq. tauto.
  - split; [tauto|]. intros [H|H]; [discriminate | exact H].
Qed.

(* ------------------------------------------------------------------ *)
(** ** Removal of the version field *)

Lemma on_docs_for_each_returns (body : M record unit) (st : hook_state) :
  (forall doc, snd (body doc) = inr tt) ->
  on_docs (for_each body) st =
  ({| delivered :=
        with_docs (delivered st)
          (map (fun doc => fst (body doc)) (docs_of (delivered st)));
      signals := signals st |}, inr tt).
Proof.
  intros H. unfold on_docs. rewrite for_each_returns; [reflexivity|].
  apply Forall_forall. intros doc _. apply H.
Qed.

(** C5.  The callback of the version loop returns on every record; it
    removes [__v] from a record exactly when the record holds an integer
    there, and then every other field is as before; a record whose [__v] is
    missing or is not an integer is left as it is.  With [showVersion]
    truthy the loop is not run and the records of the result are as they
    were; with [showVersion] falsy the records after the loop are what the
    callback leaves of each record, in the same order.  So on a result that
    the combined hook has processed with success, a record has no [__v]
    exactly when it had an integer or nothing there, if [showVersion] is
    falsy, and has what it had there, if [showVersion] is truthy (unless
    [rename] puts the identifier under [__v]).  The standalone [deversion]
    plugin delivers what the callback leaves of each record. *)
Theorem version_removal_selective :
  (forall doc : record,
      isInteger (get_prop (VObj doc) "__v") = true ->
      snd (deversion_record doc) = inr tt
      /\ lookup "__v" (fst (deversion_record doc)) = None
      /\ (forall k, k <> "__v" ->
                    lookup k (fst (deversion_record doc)) = lookup k doc))
  /\ (forall doc : record,
         isInteger (get_prop (VObj doc) "__v") = false ->
         deversion_record doc = (doc, inr tt))
  /\ (forall (opts : lean_options) (st : hook_state),
         snd (deversion_step opts st) = inr tt
         /\ signals (fst (deversion_step opts st)) = signals st
         /\ docs_of (delivered (fst (deversion_step opts st))) =
            if truthy (showVersion opts) then docs_of (delivered st)
            else map (fun doc => fst (deversion_record doc))
                   (docs_of (delivered st)))
  /\ (forall (R : realm) (K : value -> exn + string) (this : option query)
             (result : result_set),
         let opts := lean_options_of (get_prop (query_options this) "lean") in
         gate this result = false ->
         signals (fst (run_hook R K this result)) = [Continue] ->
         (truthy (rename opts) = true ->
          property_key K (rename opts) <> inr "__v") ->
         Forall2
           (fun doc doc' =>
              if truthy (showVersion opts)
              then (lookup "__v" doc' = None <-> lookup "__v" doc = None)
                   /\ (isInteger (get_prop (VObj doc) "__v") = true ->
                       lookup "__v" doc' = lookup "__v" doc)
              else lookup "__v" doc' = None <->
                   (isInteger (get_prop (VObj doc) "__v") = true
                    \/ lookup "__v" doc = None))
           (docs_of result)
           (docs_of (delivered (fst (run_hook R K this result)))))
  /\ (forall (this : option query) (result : result_set),
         gate this result = false ->
         snd (run (deversion this) result) = inr tt
         /\ signals (fst (run (deversion this) result)) = [Continue]
         /\ docs_of (delivered (fst (run (deversion this) result))) =
            map (fun doc => fst (deversion_record doc)) (docs_of result)).
Proof.
  assert (Hret : forall doc, snd (deversion_record doc) = inr tt).
  { intros doc. rewrite deversion_record_pure. reflexivity. }
  split; [|split; [|split; [|split]]].
  - intros doc H. rewrite deversion_record_pure. unfold strip_version.
    rewrite H. cbn [fst snd]. split; [reflexivity|]. split.
    + apply lookup_delete_field_eq.
    + intros k Hk. apply lookup_delete_field_neq. congruence.
  - intros doc H. rewrite deversion_record_pure. unfold strip_version.
    rewrite H. reflexivity.
  - intros opts st. unfold deversion_step.
    destruct (truthy (showVersion opts)); cbn [negb when].
    + repeat split.
    + rewrite (on_docs_for_each_returns _ _ Hret). cbn [fst snd delivered].
      repeat split. apply docs_of_with_docs. apply length_map.
  - intros R K this result opts G Hok Hkey.
    pose proof (run_hook_success R K this result G Hok) as Hall.
    eapply Forall2_impl; [|exact Hall].
    intros doc doc' Hrun. fold opts in Hrun.
    destruct (process_record_version Hrun Hkey)
      as (d3 & (Hnone & Hint & Hsame) & Hv).
    destruct (truthy (showVersion opts)).
    + rewrite Hv. split; [exact Hnone | exact Hsame].
    + rewrite Hv, lookup_strip_version_eq, Hint, Hnone. reflexivity.
  - intros this result G. unfold run, deversion.
    rewrite (gate_open_reads _ _ G). unfold bind, lift, get_state.
    cbn [delivered].
    change (gate_on (query_options this) result) with (gate this result).
    rewrite G, (on_docs_for_each_returns _ _ Hret). unfold next.
    cbn [fst snd delivered signals app].
    repeat split. apply docs_of_with_docs. apply length_map.
Qed.

Lemma version_removal_selective_witness :
  lookup "__v"
    (fst (deversion_record [("_id", VStr "65a1"); ("__v", VNum (NFin 3))]))
  = None
  /\ deversion_record [("_id", VStr "65a1"); ("__v", VStr "3")] =
       ([("_id", VStr "65a1"); ("__v", VStr "3")], inr tt)
  /\ Forall2
       (fun doc doc' =>
          lookup "__v" doc' = None <->
          (isInteger (get_prop (VObj doc) "__v") = true
           \/ lookup "__v" doc = None))
       [[("_id", VObjectId "65a1"); ("__v", VNum (NFin 3))];
        [("_id", VObjectId "77b2"); ("__v", VStr "3")]]
       (docs_of
          (delivered
             (fst (run_hook standard strings_only
                     (lean_query (VObj [("stringifyKeys", VArr [VStr "__v"])]))
                     (RMany [[("_id", VObjectId "65a1");
                              ("__v", VNum (NFin 3))];
                             [("_id", VObjectId "77b2");
                              ("__v", VStr "3")]])))))
  /\ docs_of
       (delivered
          (fst (run (deversion (lean_query (VBool true)))
                  (ROne [("__v", VNum (NFin 3)); ("name", VStr "express")]))))
     = [fst (deversion_record
               [("__v", VNum (NFin 3)); ("name", VStr "express")])].
Proof.
  destruct version_removal_selective as (Hint & Hnot & _ & Hhook & Hplugin).
  split; [|split; [|split]].
  - apply (Hint [("_id", VStr "65a1"); ("__v", VNum (NFin 3))]). reflexivity.
  - apply Hnot. reflexivity.
  - apply (Hhook standard strings_only
             (lean_query (VObj [("stringifyKeys", VArr [VStr "__v"])]))
             (RMany [[("_id", VObjectId "65a1"); ("__v", VNum (NFin 3))];
                     [("_id", VObjectId "77b2"); ("__v", VStr "3")]]));
      [reflexivity | reflexivity | discriminate].
  - apply (Hplugin (lean_query (VBool true))
             (ROne [("__v", VNum (NFin 3)); ("name", VStr "express")])).
    reflexivity.
Defined.

(* ------------------------------------------------------------------ *)
(** ** The move of the identifier to another field *)

(** A falsy [lean] holds no [rename]. *)
Lemma falsy_lean_has_no_rename (lean : value) :
  truthy lean = false -> get_prop lean "rename" = VUndefined.
Proof.
  destruct lean as [| |b|n|s|hex|d|items|fields]; try reflexivity;
    discriminate.
Qed.

(** A receiver whose [lean] option holds a [rename] is one whose options can
    be read. *)
Lemma rename_reads (this : option query) (s : string) :
  rename (lean_options_of (get_prop (query_options this) "lean")) = VStr s ->
  read_options this = inr (query_options this).
Proof.
  destruct (read_or_undefined this) as [H|[_ Hq]]; [intros _; exact H|].
  rewrite Hq. discriminate.
Qed.

Lemma rename_gate (this : option query) (result : result_set) (s : string) :
  rename (lean_options_of (get_prop (query_options this) "lean")) = VStr s ->
  gate this result = true -> docs_of result = [].
Proof.
  intros Hs G. destruct (gate_true_cases _ _ G) as [H|H]; [|exact H].
  apply falsy_lean_has_no_rename in H. cbn [rename lean_options_of] in Hs.
  congruence.
Qed.

Lemma snd_bind_returning (S : Type) (m k : M S unit) (s : S) :
  (forall s', snd (k s') = inr tt) ->
  snd (bind m (fun _ => k) s) = snd (m s).
Proof.
  intros H. unfold bind. destruct (m s) as [s' [e|[]]]; [reflexivity|].
  apply H.
Qed.

Lemma when_for_each_returning (S : Type) (c : bool) (body : M S unit)
    (xs : list S) :
  (forall x, snd (body x) = inr tt) ->
  snd (when c (for_each body) xs) = inr tt.
Proof.
  intros H. destruct c; [|reflexivity]. cbn [when].
  rewrite for_each_returns; [reflexivity|].
  apply Forall_forall. intros x _. apply H.
Qed.

Section RenameFacts.
Variable R : realm.
Variable K : value -> exn + string.

(** With [rename] absent, falsy or a string, the last callback returns. *)
Lemma identity_record_plain (rename : value) (doc : record) :
  plain_rename rename = true ->
  snd (identity_record K rename doc) = inr tt.
Proof.
  unfold identity_record, bind. rewrite stringify_id_record_pure.
  intros H. destruct (truthy rename) eqn:T; cbn [when]; [|reflexivity].
  unfold rename_id_record.
  destruct rename; try reflexivity;
    unfold plain_rename in H; rewrite T in H; discriminate.
Qed.

(** Then the three loops raise exactly when the loop over the paths does. *)
Lemma process_docs_outcome (opts : lean_options) (docs : list record) :
  plain_rename (rename opts) = true ->
  snd (process_docs R K opts docs) = snd (keys_loop R opts docs).
Proof.
  intros H. unfold process_docs, keys_loop.
  apply snd_bind_returning. intros docs'.
  rewrite snd_bind_returning.
  - apply when_for_each_returning. intros doc.
    rewrite deversion_record_pure. reflexivity.
  - intros docs''. apply when_for_each_returning. intros doc.
    apply identity_record_plain, H.
Qed.

(** The outcome of the hook when [rename] is a string. *)
Lemma run_hook_rename_signal (this : option query) (result : result_set)
    (s : string) :
  let opts := lean_options_of (get_prop (query_options this) "lean") in
  rename opts = VStr s ->
  signals (fst (run_hook R K this result)) =
  [match snd (keys_loop R opts (docs_of result)) with
   | inl e => ContinueWithError e
   | inr _ => Continue
   end].
Proof.
  intros opts Hs.
  destruct (gate this result) eqn:G.
  - rewrite (run_hook_closed R K _ _ G), (rename_reads _ Hs).
    rewrite (rename_gate _ _ Hs G). cbn [fst signals].
    unfold keys_loop. destruct (stringify_keys_condition opts); reflexivity.
  - rewrite (run_hook_open R K _ _ G). cbv zeta. fold opts.
    rewrite <- (@process_docs_outcome opts (docs_of result))
      by (rewrite Hs; reflexivity).
    destruct (process_docs R K opts (docs_of result)) as [docs' r].
    reflexivity.
Qed.

(** The records of a result the hook has processed with success, when
    [rename] is a string. *)
Lemma run_hook_rename_docs (this : option query) (result : result_set)
    (s : string) :
  let opts := lean_options_of (get_prop (query_options this) "lean") in
  rename opts = VStr s ->
  signals (fst (run_hook R K this result)) = [Continue] ->
  Forall2 (returns_to (process_record R K opts))
    (docs_of result) (docs_of (delivered (fst (run_hook R K this result)))).
Proof.
  intros opts Hs Hok.
  destruct (gate this result) eqn:G.
  - rewrite (run_hook_closed R K _ _ G). cbn [fst delivered].
    rewrite (rename_gate _ _ Hs G). constructor.
  - apply run_hook_success; assumption.
Qed.

(** What the three callbacks make of a record when [rename] is a non-empty
    string: the record after the paths and the version callback, with its
    identifier stringified and moved. *)
Lemma process_record_renamed (opts : lean_options) (s : string)
    (doc doc' : record) :
  rename opts = VStr s -> s <> "" ->
  returns_to (process_record R K opts) doc doc' ->
  exists d3 d4,
    d3 = fst (when (stringify_keys_condition opts)
                (stringify_keys_record R opts) doc)
    /\ lookup "_id" d4 = lookup "_id" d3
    /\ doc' = renamed_id s (stringified_id d4).
Proof.
  intros Hs Hne Hrun.
  destruct (process_record_returned Hrun) as (d3 & d4 & H3 & E4 & H5).
  exists d3, d4. split; [unfold returns_to in H3; rewrite H3; reflexivity|].
  split.
  - rewrite E4. destruct (truthy (showVersion opts)); [reflexivity|].
    apply lookup_strip_version. discriminate.
  - unfold returns_to in H5. rewrite Hs in H5.
    assert (T : truthy (VStr s) = true) by (destruct s; [contradiction | reflexivity]).
    rewrite T, orb_true_r in H5. cbn [when] in H5.
    apply identity_record_returned in H5. rewrite T in H5.
    destruct H5 as (key & Hk & ->). cbn [property_key] in Hk.
    injection Hk as <-. reflexivity.
Qed.

Lemma lookup_renamed_id (s : string) (doc : record) :
  s <> "_id" -> s <> "__proto__" ->
  lookup "_id" (renamed_id s doc) = None
  /\ lookup s (renamed_id s doc) = Some (get_prop (VObj doc) "_id").
Proof.
  intros H1 H2. unfold renamed_id. split.
  - apply lookup_delete_field_eq.
  - rewrite lookup_delete_field_neq by congruence.
    apply lookup_assign_eq, H2.
Qed.

Lemma keys_when_id_settled (v : value) (opts : lean_options) (doc : record) :
  id_settled v doc ->
  id_settled v (fst (when (stringify_keys_condition opts)
                       (stringify_keys_record R opts) doc)).
Proof.
  intros H. destruct (stringify_keys_condition opts); cbn [when]; [|exact H].
  apply keys_record_id_settled, H.
Qed.

Lemma keys_when_lookup_none (k : string) (opts : lean_options)
    (doc : record) :
  lookup k doc = None ->
  lookup k (fst (when (stringify_keys_condition opts)
                   (stringify_keys_record R opts) doc)) = None.
Proof.
  intros H. destruct (stringify_keys_condition opts); cbn [when]; [|exact H].
  apply keys_record_lookup_none, H.
Qed.
End RenameFacts.

Lemma get_prop_lookup (k : string) (a b : record) :
  lookup k a = lookup k b -> get_prop (VObj a) k = get_prop (VObj b) k.
Proof. simpl. intros ->. reflexivity. Qed.

(** The identifier of a record moved to the member [__proto__]: its string
    form is no object, the setter of [Object.prototype] ignores it, and the
    delivered record has neither field.  And a path that leaves the document
    through a function it may not read makes the whole run fail before the
    move. *)
Lemma rename_leaves_no_field :
  (let this := lean_query (VObj [("rename", VStr "__proto__")]) in
   let result := ROne [("_id", VObjectId "65a1"); ("name", VStr "express")] in
   signals (fst (run_hook standard strings_only this result)) = [Continue]
   /\ delivered (fst (run_hook standard strings_only this result)) =
      ROne [("name", VStr "express")])
  /\ (let this :=
        lean_query (VObj [("rename", VStr "uid");
                          ("stringifyKeys", VArr [VStr "constructor.caller"])])
      in
      let result := ROne [("_id", VObjectId "65a1"); ("name", VStr "express")] in
      signals (fst (run_hook standard strings_only this result)) =
        [ContinueWithError (TypeError restricted_message)]
      /\ delivered (fst (run_hook standard strings_only this result)) =
         result).
Proof. repeat split. Qed.

(** C2.  Let [rename] be a non-empty string that names a field other than
    [_id] and is not [__proto__].  In a result the hook has processed with
    success, every record whose [_id] held an identifier is delivered
    without a field [_id] and with a field named by [rename] that holds the
    string form of the identifier; [stringifyId] plays no part (true, left
    at its default, or false), nor do the paths of [stringifyKeys] and
    [showVersion]. *)
Theorem rename_carries_string_form
    (R : realm) (K : value -> exn + string) (this : option query)
    (result : result_set) (s : string) :
  let opts := lean_options_of (get_prop (query_options this) "lean") in
  rename opts = VStr s ->
  s <> "" -> s <> "_id" -> s <> "__proto__" ->
  signals (fst (run_hook R K this result)) = [Continue] ->
  Forall2
    (fun doc doc' =>
       forall hex, lookup "_id" doc = Some (VObjectId hex) ->
                   lookup "_id" doc' = None
                   /\ lookup s doc' = Some (VStr hex))
    (docs_of result)
    (docs_of (delivered (fst (run_hook R K this result)))).
Proof.
  intros opts Hs Hne Hid Hproto Hok.
  eapply Forall2_impl; [|exact (run_hook_rename_docs R K this result Hs Hok)].
  intros doc doc' Hrun hex Hdoc. fold opts in Hrun.
  destruct (process_record_renamed Hs Hne Hrun) as (d3 & d4 & E3 & E4 & ->).
  destruct (lookup_renamed_id (stringified_id d4) Hid Hproto) as [Hnone Hset].
  split; [exact Hnone|]. rewrite Hset, get_stringified_id.
  rewrite (@get_prop_lookup "_id" _ _ E4), E3.
  assert (Hinit : id_settled (VObjectId hex) doc).
  { unfold id_settled. simpl get_prop. rewrite Hdoc. split; reflexivity. }
  destruct (keys_when_id_settled R opts Hinit) as [_ ->]. reflexivity.
Qed.

Lemma rename_carries_string_form_witness :
  Forall2
    (fun doc doc' =>
       forall hex, lookup "_id" doc = Some (VObjectId hex) ->
                   lookup "_id" doc' = None
                   /\ lookup "uid" doc' = Some (VStr hex))
    [[("_id", VObjectId "65a1"); ("name", VStr "express")]]
    (docs_of
       (delivered
          (fst (run_hook standard strings_only
                  (lean_query (VObj [("rename", VStr "uid");
                                     ("stringifyId", VBool false);
                                     ("stringifyKeys", VArr [VStr "_id.x"])]))
                  (ROne [("_id", VObjectId "65a1");
                         ("name", VStr "express")]))))).
Proof.
  apply (@rename_carries_string_form standard strings_only
           (lean_query (VObj [("rename", VStr "uid");
                              ("stringifyId", VBool false);
                              ("stringifyKeys", VArr [VStr "_id.x"])]))
           (ROne [("_id", VObjectId "65a1"); ("name", VStr "express")])
           "uid");
    [reflexivity | discriminate | discriminate | discriminate | reflexivity].
Defined.

(** A record without [_id] whose identifier is moved to the member
    [__proto__]: [undefined] is no object, the setter ignores it, and no key
    is created.  And a path that leaves the document through a function it
    may not read makes the run fail, whether the record has an [_id] or
    not. *)
Lemma rename_creates_no_field :
  (let this := lean_query (VObj [("rename", VStr "__proto__")]) in
   let result := ROne [("name", VStr "express")] in
   signals (fst (run_hook standard strings_only this result)) = [Continue]
   /\ delivered (fst (run_hook standard strings_only this result)) = result)
  /\ (let this :=
        lean_query (VObj [("rename", VStr "uid");
                          ("stringifyKeys", VArr [VStr "constructor.caller"])])
      in
      let result := ROne [("name", VStr "express")] in
      signals (fst (run_hook standard strings_only this result)) =
        [ContinueWithError (TypeError restricted_message)]
      /\ delivered (fst (run_hook standard strings_only this result)) =
         result).
Proof. repeat split. Qed.

(** C10.  Let [rename] be a non-empty string that names a field other than
    [_id] and is not [__proto__].  The move is not guarded: in a result the
    hook has processed with success, a record that had no field [_id] is
    delivered with a field named by [rename] that holds [undefined], and
    still without [_id].  The missing [_id] never makes the run fail: the
    run signals success exactly when the loop over the paths of
    [stringifyKeys] returns. *)
Theorem rename_creates_undefined_field
    (R : realm) (K : value -> exn + string) (this : option query)
    (result : result_set) (s : string) :
  let opts := lean_options_of (get_prop (query_options this) "lean") in
  rename opts = VStr s ->
  s <> "" -> s <> "_id" -> s <> "__proto__" ->
  (signals (fst (run_hook R K this result)) = [Continue] ->
   Forall2
     (fun doc doc' =>
        lookup "_id" doc = None ->
        lookup s doc' = Some VUndefined /\ lookup "_id" doc' = None)
     (docs_of result)
     (docs_of (delivered (fst (run_hook R K this result)))))
  /\ (signals (fst (run_hook R K this result)) = [Continue] <->
      snd (keys_loop R opts (docs_of result)) = inr tt).
Proof.
  intros opts Hs Hne Hid Hproto. split.
  - intros Hok.
    eapply Forall2_impl; [|exact (run_hook_rename_docs R K this result Hs Hok)].
    intros doc doc' Hrun Hdoc. fold opts in Hrun.
    destruct (process_record_renamed Hs Hne Hrun) as (d3 & d4 & E3 & E4 & ->).
    assert (H4 : lookup "_id" d4 = None).
    { rewrite E4, E3. apply keys_when_lookup_none, Hdoc. }
    rewrite (stringified_id_missing _ H4).
    destruct (lookup_renamed_id d4 Hid Hproto) as [Hnone Hset].
    split; [|exact Hnone]. rewrite Hset. simpl. rewrite H4. reflexivity.
  - rewrite (run_hook_rename_signal R K this result Hs). fold opts.
    destruct (snd (keys_loop R opts (docs_of result))) as [e|[]].
    + split; discriminate.
    + split; reflexivity.
Qed.

Lemma rename_creates_undefined_field_witness :
  Forall2
    (fun doc doc' =>
       lookup "_id" doc = None ->
       lookup "uid" doc' = Some VUndefined /\ lookup "_id" doc' = None)
    [[("name", VStr "express")]; [("_id", VObjectId "65a1")]]
    (docs_of
       (delivered
          (fst (run_hook standard strings_only
                  (lean_query (VObj [("rename", VStr "uid")]))
                  (RMany [[("name", VStr "express")];
                          [("_id", VObjectId "65a1")]])))))
  /\ (signals
        (fst (run_hook standard strings_only
                (lean_query (VObj [("rename", VStr "uid")]))
                (RMany [[("name", VStr "express")];
                        [("_id", VObjectId "65a1")]])))
      = [Continue] <->
      snd (keys_loop standard
             (lean_options_of (VObj [("rename", VStr "uid")]))
             [[("name", VStr "express")]; [("_id", VObjectId "65a1")]])
      = inr tt).
Proof.
  destruct (@rename_creates_undefined_field standard strings_only
              (lean_query (VObj [("rename", VStr "uid")]))
              (RMany [[("name", VStr "express")]; [("_id", VObjectId "65a1")]])
              "uid") as [Hdocs Hsignal];
    [reflexivity | discriminate | discriminate | discriminate |].
  split; [apply Hdocs; reflexivity | exact Hsignal].
Defined.

(* ------------------------------------------------------------------ *)
(** ** The cases of the test suite *)

(** "should stringify nested ObjectId fields". *)
Example test_stringify_nested :
  applyStringifyAtPath standard
    (VObj [("contributors",
            VArr [VObj [("_id", VObjectId "683a2480b53cfe150c05c5a9")];
                  VObj [("_id", VObjectId "683a2480b53cfe150c05c5aa")]])])
    (VStr "contributors._id") =
  (VObj [("contributors",
          VArr [VObj [("_id", VStr "683a2480b53cfe150c05c5a9")];
                VObj [("_id", VStr "683a2480b53cfe150c05c5aa")]])],
   inr tt).
Proof. reflexivity. Qed.

(** "should not throw if nested field is missing". *)
Example test_missing_nested_field :
  applyStringifyAtPath standard (VObj [("contributors", VArr [VObj []])])
    (VStr "contributors._id") =
  (VObj [("contributors", VArr [VObj []])], inr tt).
Proof. reflexivity. Qed.

(** "should not crash if document is not structured". *)
Example test_null_document :
  applyStringifyAtPath standard VNull (VStr "contributors._id") =
  (VNull, inr tt).
Proof. reflexivity. Qed.

(** "should work with .findOne and apply all options". *)
Example test_findOne_all_options :
  run_hook standard strings_only
    (lean_query
       (VObj [("stringifyId", VBool true);
              ("stringifyKeys", VArr [VStr "contributors._id"]);
              ("showVersion", VBool false)]))
    (ROne [("_id", VObjectId "683a2480b53cfe150c05c5a8");
           ("name", VStr "express");
           ("contributors",
            VArr [VObj [("username", VStr "tjholowaychuk");
                        ("_id", VObjectId "683a2480b53cfe150c05c5a9")];
                  VObj [("username", VStr "dougwilson");
                        ("_id", VObjectId "683a2480b53cfe150c05c5aa")]]);
           ("createdAt", VDate 1748640896981);
           ("__v", VNum (NFin 0))]) =
  ({| delivered :=
        ROne [("_id", VStr "683a2480b53cfe150c05c5a8");
              ("name", VStr "express");
              ("contributors",
               VArr [VObj [("username", VStr "tjholowaychuk");
                           ("_id", VStr "683a2480b53cfe150c05c5a9")];
                     VObj [("username", VStr "dougwilson");
                           ("_id", VStr "683a2480b53cfe150c05c5aa")]]);
              ("createdAt", VDate 1748640896981)];
      signals := [Continue] |}, inr tt).
Proof. reflexivity. Qed.

(** "should rename _id field if rename is specified". *)
Example test_rename :
  run_hook standard strings_only (lean_query (VObj [("rename", VStr "uid")]))
    (RMany [[("_id", VObjectId "683a2480b53cfe150c05c5a8");
             ("name", VStr "express"); ("__v", VNum (NFin 0))];
            [("_id", VObjectId "683a2480b53cfe150c05c5ab");
             ("name", VStr "react"); ("__v", VNum (NFin 0))]]) =
  ({| delivered :=
        RMany [[("name", VStr "express");
                ("uid", VStr "683a2480b53cfe150c05c5a8")];
               [("name", VStr "react");
                ("uid", VStr "683a2480b53cfe150c05c5ab")]];
      signals := [Continue] |}, inr tt).
Proof. reflexivity. Qed.

(** "should preserve ObjectId _id if stringifyId is false" and "should
    include __v if showVersion is true". *)
Example test_keep_identifier_and_version :
  run_hook standard strings_only
    (lean_query (VObj [("stringifyId", VBool false);
                       ("showVersion", VBool true)]))
    (RMany [[("_id", VObjectId "683a2480b53cfe150c05c5a8");
             ("__v", VNum (NFin 0))]]) =
  ({| delivered :=
        RMany [[("_id", VObjectId "683a2480b53cfe150c05c5a8");
                ("__v", VNum (NFin 0))]];
      signals := [Continue] |}, inr tt).
Proof. reflexivity. Qed.

(* ------------------------------------------------------------------ *)
(** * More on the path rewriter *)

(** X1.  Whatever the realm, the root and the path, the call changes nothing
    but identifiers into their string form: once every identifier is
    replaced by its string, the root after the call, whether it returned or
    raised, is the root before it.  No field is added, removed, moved or
    given another value. *)
Theorem rewriteAt_only_stringifies :
  forall (R : realm) (root : value) (path : string),
    stringify_deep (rewriteAt R root path) = stringify_deep root.
Proof.
  intros R root path. rewrite rewriteAt_rewritten.
  apply stringify_deep_rewritten.
Qed.

Lemma for_each_fixed (S : Type) (body : M S unit) (xs : list S) :
  Forall (fun x => fst (body x) = x) xs -> fst (for_each body xs) = xs.
Proof.
  induction 1 as [|x tl Hx _ IH]; simpl; [reflexivity|].
  destruct (body x) as [x' [e|[]]]; simpl in *; subst x'; [reflexivity|].
  destruct (for_each body tl) as [tl' r]; simpl in *. subst tl'. reflexivity.
Qed.

Lemma rewritten_atoms_array (R : realm) (parts : list string)
    (items : list value) :
  Forall (fun v => is_container v = false) items ->
  rewritten R parts (VArr items) = VArr items.
Proof.
  intros H. unfold rewritten. rewrite recurse_parts_array. cbn [fst].
  f_equal. apply for_each_fixed.
  eapply Forall_impl; [|exact H].
  intros a Ha. apply (rewritten_atom R parts a Ha).
Qed.

(** X2.  An identifier that is itself an element of an array is out of
    reach of every path: an array whose elements are identifiers, dates or
    primitives is, after the call, what it was before, as the root and as a
    field of a record. *)
Theorem identifiers_in_arrays_unreachable :
  (forall (R : realm) (items : list value) (path : string),
      Forall (fun v => is_container v = false) items ->
      rewriteAt R (VArr items) path = VArr items)
  /\ (forall (R : realm) (fields : record) (path key : string)
             (items : list value),
         lookup key fields = Some (VArr items) ->
         Forall (fun v => is_container v = false) items ->
         exists fields',
           rewriteAt R (VObj fields) path = VObj fields'
           /\ lookup key fields' = Some (VArr items)).
Proof.
  split.
  - intros R items path H. rewrite rewriteAt_rewritten.
    apply rewritten_atoms_array, H.
  - intros R fields path key items Hlook H.
    exists (doc_rewritten R path fields). split; [apply rewriteAt_obj|].
    unfold doc_rewritten.
    destruct (String.eqb_spec (parts_key (split_dot path)) key) as [Heq|Hne].
    + rewrite Heq, lookup_replace_field_eq. simpl get_prop.
      rewrite Hlook. f_equal.
      destruct (split_dot path) as [|k [|k' rest]]; cbn [parts_fn];
        auto using rewritten_atoms_array.
    + rewrite lookup_replace_field_neq by exact Hne. exact Hlook.
Qed.

Lemma identifiers_in_arrays_unreachable_witness :
  rewriteAt standard (VArr [VObjectId "65a1"; VStr "x"]) "0" =
    VArr [VObjectId "65a1"; VStr "x"]
  /\ exists fields',
       rewriteAt standard
         (VObj [("members", VArr [VObjectId "65a1"; VObjectId "77b2"])])
         "members.0" = VObj fields'
       /\ lookup "members" fields' =
          Some (VArr [VObjectId "65a1"; VObjectId "77b2"]).
Proof.
  destruct identifiers_in_arrays_unreachable as [Hroot Hfield].
  split.
  - apply Hroot. repeat constructor.
  - apply Hfield; [reflexivity | repeat constructor].
Defined.

(** ** The second copy *)

Lemma copy_terminal_eq (R : realm) (key : string) (current : value) :
  Copy.terminal R key current = terminal R key current.
Proof.
  unfold Copy.terminal, terminal.
  destruct (inherits current key); [reflexivity|].
  destruct (get_checked current key) as [e|field]; [reflexivity|].
  destruct field; simpl; rewrite ?andb_false_r; reflexivity.
Qed.

Lemma copy_recurse_parts_eq (R : realm) (parts : list string)
    (current : value) :
  Copy.recurse_parts R parts current = recurse_parts R parts current.
Proof.
  revert current. induction parts as [|key rest IH]; intros current.
  - apply fan_out_ext. apply copy_terminal_eq.
  - destruct rest as [|key' rest'].
    + apply fan_out_ext. apply copy_terminal_eq.
    + change (fan_out (descend R key (key' :: rest')
                         (Copy.recurse_parts R (key' :: rest'))) current =
              fan_out (descend R key (key' :: rest')
                         (recurse_parts R (key' :: rest'))) current).
      apply fan_out_ext. intros v. unfold descend.
      destruct (inherits v key); [reflexivity|].
      destruct (get_checked v key) as [e|child]; [reflexivity|].
      rewrite IH. reflexivity.
Qed.

(** X3.  The copy of the helper that reads [toHexString] through an
    optional chain computes what [util/stringifyPaths.js] computes, on every
    object and every path, the raising on a path that is not a string
    included. *)
Theorem copy_agrees :
  forall (R : realm) (obj path : value),
    Copy.applyStringifyAtPath R obj path = applyStringifyAtPath R obj path.
Proof.
  intros R obj path. unfold Copy.applyStringifyAtPath, applyStringifyAtPath.
  destruct path; try reflexivity.
  apply copy_recurse_parts_eq.
Qed.

(* ------------------------------------------------------------------ *)
(** * More on the combined plugin *)

Lemma Forall2_eq_map (A B : Type) (f : A -> B) (xs : list A) (ys : list B) :
  Forall2 (fun x y => y = f x) xs ys -> ys = map f xs.
Proof.
  induction 1 as [|x y xs ys Hxy _ IH]; simpl; [reflexivity|].
  rewrite Hxy, IH. reflexivity.
Qed.

Section PureFacts.
Variable R : realm.
Variable K : value -> exn + string.

(** The loop over the paths, when it returns: every entry is a string, and
    the record is what the quiet realm makes of it. *)
Lemma for_values_returned (paths : list value) (doc d : record) :
  for_values (stringify_doc_at R) paths doc = (d, inr tt) ->
  d = rewrite_all quiet (strings_before paths) doc
  /\ forallb is_string paths = true.
Proof.
  revert doc. induction paths as [|path tl IH]; intros doc H.
  - injection H as <-. split; reflexivity.
  - cbn [for_values] in H. unfold bind in H.
    destruct (stringify_doc_at R path doc) as [d1 [e|[]]] eqn:E;
      [discriminate|].
    destruct path as [| |b|n|p|hex|ms|items|fields];
      try (cbv in E; discriminate).
    apply stringify_doc_at_returns in E. subst d1.
    destruct (IH _ H) as [-> Hall]. split; [reflexivity | exact Hall].
Qed.

Lemma keys_returned (opts : lean_options) (doc d3 : record) :
  when (stringify_keys_condition opts) (stringify_keys_record R opts) doc =
    (d3, inr tt) ->
  d3 = if stringify_keys_condition opts
       then rewrite_all quiet (strings_before (items_of (stringifyKeys opts)))
              doc
       else doc.
Proof.
  destruct (stringify_keys_condition opts); cbn [when].
  - intros H. apply for_values_returned in H. apply H.
  - intros H. injection H as <-. reflexivity.
Qed.

Lemma version_callback_when (t : bool) (d : record) :
  when (negb t) deversion_record d =
  (if t then d else strip_version d, inr tt).
Proof. destruct t; [reflexivity | apply deversion_record_pure]. Qed.

Lemma last_callback_plain (c : bool) (rename : value) (d : record) :
  plain_rename rename = true ->
  when (c || truthy rename) (identity_record K rename) d =
  (let d5 := if c || truthy rename then stringified_id d else d in
   match rename with
   | VStr s => if truthy (VStr s) then renamed_id s d5 else d5
   | _ => d5
   end, inr tt).
Proof.
  intros Hplain. unfold plain_rename in Hplain.
  assert (Hid : forall r, truthy r = false ->
                  identity_record K r d = (stringified_id d, inr tt)).
  { intros r Hr. unfold identity_record, bind.
    rewrite stringify_id_record_pure, Hr. reflexivity. }
  destruct (truthy rename) eqn:T.
  - rewrite orb_true_r. cbn [when]. cbv zeta.
    destruct rename as [| |b|n|s|hex|ms|items|fields];
      try (cbn in Hplain; discriminate).
    rewrite T. unfold identity_record, bind.
    rewrite stringify_id_record_pure, T. reflexivity.
  - rewrite orb_false_r. cbv zeta.
    assert (Htail : match rename with
                    | VStr s =>
                        if truthy (VStr s)
                        then renamed_id s (if c then stringified_id d else d)
                        else if c then stringified_id d else d
                    | _ => if c then stringified_id d else d
                    end = if c then stringified_id d else d).
    { destruct rename; try reflexivity. rewrite T. reflexivity. }
    rewrite Htail. destruct c; cbn [when]; [apply Hid, T | reflexivity].
Qed.

(** With a [rename] that needs no conversion, the callbacks raise on a
    record only in the loop over the paths. *)
Lemma process_record_plain (opts : lean_options) (doc : record) :
  plain_rename (rename opts) = true ->
  process_record R K opts doc =
  let out := when (stringify_keys_condition opts)
               (stringify_keys_record R opts) doc in
  (match snd out with
   | inl _ => fst out
   | inr _ => finish_record opts (fst out)
   end, snd out).
Proof.
  intros Hplain. unfold process_record. unfold bind at 1. cbv zeta.
  destruct (when (stringify_keys_condition opts)
              (stringify_keys_record R opts) doc) as [d3 [e|[]]];
    cbn [fst snd]; [reflexivity|].
  unfold bind. rewrite version_callback_when.
  rewrite (@last_callback_plain _ (rename opts) _ Hplain). reflexivity.
Qed.

Lemma process_record_skips_keys (opts : lean_options) (doc : record) :
  plain_rename (rename opts) = true ->
  stringify_keys_condition opts = false ->
  process_record R K opts doc = (finish_record opts doc, inr tt).
Proof.
  intros Hplain Hc. rewrite (@process_record_plain opts doc Hplain), Hc. reflexivity.
Qed.

Lemma process_record_returned_pure (opts : lean_options) (doc doc' : record) :
  plain_rename (rename opts) = true ->
  returns_to (process_record R K opts) doc doc' ->
  doc' = pure_record opts doc.
Proof.
  intros Hplain. unfold returns_to.
  rewrite (@process_record_plain opts doc Hplain). cbv zeta.
  destruct (when (stringify_keys_condition opts)
              (stringify_keys_record R opts) doc) as [d3 [e|[]]] eqn:E;
    cbn [fst snd]; [discriminate|].
  intros H. injection H as <-. unfold pure_record.
  rewrite (@keys_returned opts doc d3 E). reflexivity.
Qed.

(** The hook on a result whose records all go through the callbacks. *)
Lemma run_hook_pure (this : option query) (result : result_set)
    (f : record -> record) :
  gate this result = false ->
  (forall doc,
      In doc (docs_of result) ->
      process_record R K
        (lean_options_of (get_prop (query_options this) "lean")) doc =
      (f doc, inr tt)) ->
  run_hook R K this result =
  ({| delivered := with_docs result (map f (docs_of result));
      signals := [Continue] |}, inr tt).
Proof.
  intros G Hall. rewrite (run_hook_open R K _ _ G). cbv zeta.
  assert (Hret : returns_to
                   (process_docs R K
                      (lean_options_of (get_prop (query_options this) "lean")))
                   (docs_of result) (map f (docs_of result))).
  { apply process_docs_returns. apply Forall2_map_right. exact Hall. }
  unfold returns_to in Hret. rewrite Hret. reflexivity.
Qed.

(** The hook on a result it processes with success. *)
Lemma run_hook_returned (this : option query) (result : result_set) :
  let opts := lean_options_of (get_prop (query_options this) "lean") in
  gate this result = false ->
  plain_rename (rename opts) = true ->
  signals (fst (run_hook R K this result)) = [Continue] ->
  run_hook R K this result =
  ({| delivered := with_docs result (map (pure_record opts) (docs_of result));
      signals := [Continue] |}, inr tt).
Proof.
  intros opts G Hplain. rewrite (run_hook_open R K _ _ G). cbv zeta.
  fold opts.
  destruct (process_docs R K opts (docs_of result)) as [docs' [e|[]]] eqn:E;
    cbn [fst signals]; [discriminate|].
  intros _. apply process_docs_returns in E.
  assert (Hmap : docs' = map (pure_record opts) (docs_of result)).
  { apply Forall2_eq_map. eapply Forall2_impl; [|exact E].
    intros doc doc' Hrun. apply process_record_returned_pure; assumption. }
  rewrite Hmap. reflexivity.
Qed.
End PureFacts.

(** X4.  A [find] that matched nothing fails in one case only, when the
    options of the receiver cannot be read: whatever the lean options are,
    malformed ones included, the empty sequence is delivered, and the single
    signal is [next()] unless reading the options raised. *)
Theorem empty_result_outcome :
  forall (R : realm) (K : value -> exn + string) (this : option query),
    run_hook R K this (RMany []) =
    ({| delivered := RMany [];
        signals := [match read_options this with
                    | inl e => ContinueWithError e
                    | inr _ => Continue
                    end] |}, inr tt).
Proof.
  intros R K this. rewrite run_hook_eq.
  destruct (read_options this) as [e|options]; [reflexivity|].
  destruct (gate this (RMany [])); [reflexivity|].
  cbv zeta. cbn [docs_of]. unfold process_docs, bind.
  destruct (stringify_keys_condition _), (negb (truthy (showVersion _))),
    (truthy (stringifyId _) || truthy (rename _)); reflexivity.
Qed.

(** X5.  A lean query that sets none of the four options gets the defaults:
    every record loses an integer [__v] and then has an identifier under
    [_id] replaced by its string, and nothing else happens; the hook signals
    success. *)
Theorem default_options :
  forall (R : realm) (K : value -> exn + string) (this : option query)
         (result : result_set),
    let lean := get_prop (query_options this) "lean" in
    truthy (get_optional (query_options this) "lean") = true ->
    get_prop lean "stringifyKeys" = VUndefined ->
    get_prop lean "showVersion" = VUndefined ->
    get_prop lean "stringifyId" = VUndefined ->
    get_prop lean "rename" = VUndefined ->
    run_hook R K this result =
    ({| delivered :=
          with_docs result
            (map (fun doc => stringified_id (strip_version doc))
               (docs_of result));
        signals := [Continue] |}, inr tt).
Proof.
  intros R K this result lean Hlean Hk Hv Hi Hr.
  assert (Hread : read_options this = inr (query_options this)).
  { destruct (read_or_undefined this) as [H|[_ Hq]]; [exact H|].
    rewrite Hq in Hlean. discriminate. }
  destruct (gate this result) eqn:G.
  - rewrite (run_hook_closed R K _ _ G), Hread.
    unfold gate, gate_on in G. rewrite Hlean in G. simpl in G.
    destruct result; try discriminate; reflexivity.
  - apply run_hook_pure; [exact G|].
    intros doc _. fold lean.
    rewrite process_record_skips_keys.
    + unfold finish_record, lean_options_of.
      cbn [stringifyKeys showVersion stringifyId rename].
      rewrite Hv, Hi, Hr. reflexivity.
    + unfold lean_options_of. cbn [rename]. rewrite Hr. reflexivity.
    + unfold lean_options_of, stringify_keys_condition.
      cbn [stringifyKeys]. rewrite Hk. reflexivity.
Qed.

Lemma default_options_witness :
  run_hook standard strings_only (lean_query (VBool true))
    (ROne [("_id", VObjectId "65a1"); ("__v", VNum (NFin 2));
           ("owner", VObjectId "77b2")]) =
  ({| delivered := ROne [("_id", VStr "65a1"); ("owner", VObjectId "77b2")];
      signals := [Continue] |}, inr tt).
Proof.
  apply (default_options standard strings_only (lean_query (VBool true))
           (ROne [("_id", VObjectId "65a1"); ("__v", VNum (NFin 2));
                  ("owner", VObjectId "77b2")])); reflexivity.
Defined.

Lemma for_values_inl (S B : Type) (act : B -> M S unit) (bs : list B) (x : S)
    (e : exn) :
  snd (for_values act bs x) = inl e ->
  exists b y, In b bs /\ snd (act b y) = inl e.
Proof.
  revert x. induction bs as [|b tl IH]; intros x; [discriminate|].
  cbn [for_values]. unfold bind.
  destruct (act b x) as [y [e'|[]]] eqn:E; cbn [snd].
  - intros H. exists b, x. split; [left; reflexivity|].
    rewrite E. exact H.
  - intros H. destruct (IH _ H) as (b' & y' & Hin & Hb').
    exists b', y'. split; [right; exact Hin | exact Hb'].
Qed.

(** X6.  When [rename] is absent, falsy or a string, the hook signals an
    error in two situations only: the options of the receiver cannot be
    read, or the gate is passed and the loop over [stringifyKeys] raises.
    That loop raises on a record either at an entry that is not a string,
    with the [TypeError] of [path.split], or with an exception of the realm,
    at a read that left the document. *)
Theorem hook_fails_exactly_when_paths_raise :
  (forall (R : realm) (K : value -> exn + string) (this : option query)
          (result : result_set),
      let opts := lean_options_of (get_prop (query_options this) "lean") in
      plain_rename (rename opts) = true ->
      signals (fst (run_hook R K this result)) =
      [match read_options this with
       | inl e => ContinueWithError e
       | inr _ =>
           if gate this result then Continue
           else match snd (keys_loop R opts (docs_of result)) with
                | inl e => ContinueWithError e
                | inr _ => Continue
                end
       end])
  /\ (forall (R : realm) (opts : lean_options) (doc : record) (e : exn),
         snd (stringify_keys_record R opts doc) = inl e ->
         (exists path,
             In path (items_of (stringifyKeys opts))
             /\ is_string path = false
             /\ forall obj, applyStringifyAtPath R obj path = (obj, inl e))
         \/ (exists current key rest,
                inherits current key = true /\ R current key rest = inl e)).
Proof.
  split.
  - intros R K this result opts Hplain. rewrite run_hook_eq.
    destruct (read_options this) as [e|options]; [reflexivity|].
    destruct (gate this result); [reflexivity|].
    cbv zeta. fold opts.
    rewrite <- (@process_docs_outcome R K opts (docs_of result) Hplain).
    destruct (process_docs R K opts (docs_of result)) as [docs' r].
    reflexivity.
  - intros R opts doc e H. unfold stringify_keys_record in H.
    apply for_values_inl in H. destruct H as (path & d & Hin & H).
    destruct (is_string path) eqn:Hs.
    + right. destruct path; try discriminate.
      unfold stringify_doc_at in H.
      destruct (applyStringifyAtPath R (VObj d) (VStr s)) as [v r] eqn:E.
      cbn [snd] in H. subst r.
      apply (@recurse_parts_raises R (split_dot s) (VObj d) e).
      unfold applyStringifyAtPath, recurse in E. rewrite E. reflexivity.
    + left. exists path. split; [exact Hin|]. split; [exact Hs|].
      intros obj. unfold stringify_doc_at in H.
      destruct path; try discriminate; cbn in H |- *;
        injection H as <-; reflexivity.
Qed.

Lemma hook_fails_exactly_when_paths_raise_witness :
  signals
    (fst (run_hook standard strings_only
            (lean_query (VObj [("stringifyKeys", VArr [VStr "owner"; VNull])]))
            (ROne [("owner", VObjectId "77b2")]))) =
  [ContinueWithError
     (TypeError "Cannot read properties of null (reading 'split')")].
Proof.
  apply (proj1 hook_fails_exactly_when_paths_raise standard strings_only
           (lean_query (VObj [("stringifyKeys", VArr [VStr "owner"; VNull])]))
           (ROne [("owner", VObjectId "77b2")])).
  reflexivity.
Defined.

(** X7.  When the loop over [stringifyKeys] raises in the first record, the
    hook stops there: that record is left as the loop had it when it raised,
    every later record is as it was, neither the version loop nor the
    identifier loop has run, and the exception is passed to [next]. *)
Theorem failure_stops_in_first_record :
  forall (R : realm) (K : value -> exn + string) (this : option query)
         (result : result_set) (doc : record) (tl : list record) (e : exn),
    let opts := lean_options_of (get_prop (query_options this) "lean") in
    gate this result = false ->
    stringify_keys_condition opts = true ->
    docs_of result = doc :: tl ->
    snd (stringify_keys_record R opts doc) = inl e ->
    run_hook R K this result =
    ({| delivered :=
          with_docs result (fst (stringify_keys_record R opts doc) :: tl);
        signals := [ContinueWithError e] |}, inr tt).
Proof.
  intros R K this result doc tl e opts G Hc Hdocs Hraise.
  rewrite (run_hook_open R K _ _ G). cbv zeta. fold opts.
  unfold process_docs. rewrite Hc, Hdocs. cbn [when].
  unfold bind at 1. cbn [for_each].
  destruct (stringify_keys_record R opts doc) as [d r]. cbn [fst snd] in *.
  subst r. reflexivity.
Qed.

Lemma failure_stops_in_first_record_witness :
  run_hook standard strings_only
    (lean_query (VObj [("stringifyKeys",
                        VArr [VStr "owner"; VStr "constructor.caller";
                              VStr "_id"])]))
    (RMany [[("_id", VObjectId "65a1"); ("owner", VObjectId "77b2");
             ("__v", VNum (NFin 0))];
            [("_id", VObjectId "65a2"); ("owner", VObjectId "77b3")]]) =
  ({| delivered :=
        RMany [[("_id", VObjectId "65a1"); ("owner", VStr "77b2");
                ("__v", VNum (NFin 0))];
               [("_id", VObjectId "65a2"); ("owner", VObjectId "77b3")]];
      signals := [ContinueWithError (TypeError restricted_message)] |},
   inr tt).
Proof.
  apply (@failure_stops_in_first_record standard strings_only
           (lean_query (VObj [("stringifyKeys",
                               VArr [VStr "owner"; VStr "constructor.caller";
                                     VStr "_id"])]))
           (RMany [[("_id", VObjectId "65a1"); ("owner", VObjectId "77b2");
                    ("__v", VNum (NFin 0))];
                   [("_id", VObjectId "65a2"); ("owner", VObjectId "77b3")]])
           [("_id", VObjectId "65a1"); ("owner", VObjectId "77b2");
            ("__v", VNum (NFin 0))]
           [[("_id", VObjectId "65a2"); ("owner", VObjectId "77b3")]]
           (TypeError restricted_message)); reflexivity.
Defined.

(* ------------------------------------------------------------------ *)
(** ** A second pass *)

Lemma Forall2_right (A B : Type) (P : A -> B -> Prop) (Q : B -> Prop)
    (xs : list A) (ys : list B) :
  (forall x y, P x y -> Q y) -> Forall2 P xs ys -> Forall Q ys.
Proof.
  intros H. induction 1 as [|x y xs ys Hxy _ IH]; constructor; eauto.
Qed.

Lemma Forall2_left (A B : Type) (P : A -> B -> Prop) (Q : A -> Prop)
    (Q' : B -> Prop) (xs : list A) (ys : list B) :
  (forall x y, Q x -> P x y -> Q' y) ->
  Forall Q xs -> Forall2 P xs ys -> Forall Q' ys.
Proof.
  intros H Hxs H2. revert Hxs.
  induction H2 as [|x y xs ys Hxy _ IH]; intros Hxs; constructor;
    inversion Hxs; subst; eauto.
Qed.

Section SecondPass.
Variable R : realm.
Variable K : value -> exn + string.

(** A record that went through the callbacks with [rename] set has no
    [_id]. *)
Lemma renamed_has_no_id (opts : lean_options) (s : string)
    (doc doc' : record) :
  rename opts = VStr s -> s <> "" ->
  returns_to (process_record R K opts) doc doc' ->
  lookup "_id" doc' = None.
Proof.
  intros Hs Hne Hrun.
  destruct (process_record_renamed Hs Hne Hrun) as (d3 & d4 & _ & _ & ->).
  apply lookup_delete_field_eq.
Qed.

(** A record without [_id] that goes through them gets [undefined] under
    the new name. *)
Lemma renamed_missing_id (opts : lean_options) (s : string)
    (doc doc' : record) :
  rename opts = VStr s -> s <> "" -> s <> "_id" -> s <> "__proto__" ->
  lookup "_id" doc = None ->
  returns_to (process_record R K opts) doc doc' ->
  lookup s doc' = Some VUndefined /\ lookup "_id" doc' = None.
Proof.
  intros Hs Hne Hid Hproto Hdoc Hrun.
  destruct (process_record_renamed Hs Hne Hrun) as (d3 & d4 & E3 & E4 & ->).
  assert (H4 : lookup "_id" d4 = None).
  { rewrite E4, E3. apply keys_when_lookup_none, Hdoc. }
  rewrite (stringified_id_missing _ H4).
  destruct (lookup_renamed_id d4 Hid Hproto) as [Hnone Hset].
  split; [|exact Hnone]. rewrite Hset. simpl. rewrite H4. reflexivity.
Qed.
End SecondPass.

(** X8.  With [rename] set to a non-empty string that names a field other
    than [_id] and is not [__proto__], the hook is not idempotent: run a
    second time on what it delivered (the plugin registered twice), it finds
    no [_id] and overwrites the renamed field.  When both passes signal
    success, every record ends with [undefined] under the new name, and
    there are as many records as before. *)
Theorem second_pass_erases_renamed_identifier :
  forall (R : realm) (K : value -> exn + string) (this : option query)
         (result : result_set) (s : string),
    let opts := lean_options_of (get_prop (query_options this) "lean") in
    let first := run_hook R K this result in
    let second := run_hook R K this (delivered (fst first)) in
    rename opts = VStr s ->
    s <> "" -> s <> "_id" -> s <> "__proto__" ->
    signals (fst first) = [Continue] ->
    signals (fst second) = [Continue] ->
    List.length (docs_of (delivered (fst second))) =
      List.length (docs_of result)
    /\ Forall (fun doc => lookup s doc = Some VUndefined
                          /\ lookup "_id" doc = None)
         (docs_of (delivered (fst second))).
Proof.
  intros R K this result s opts first second Hs Hne Hid Hproto Hok1 Hok2.
  pose proof (run_hook_rename_docs R K this result Hs Hok1) as H1.
  pose proof (run_hook_rename_docs R K this (delivered (fst first)) Hs Hok2)
    as H2.
  fold opts in H1, H2. fold first in H1. fold second in H2.
  split.
  - rewrite <- (Forall2_length H2). symmetry. apply (Forall2_length H1).
  - apply (@Forall2_left _ _ (returns_to (process_record R K opts))
             (fun doc => lookup "_id" doc = None) _
             (docs_of (delivered (fst first))) _).
    + intros doc doc' Hdoc Hrun.
      apply (renamed_missing_id Hs Hne Hid Hproto Hdoc Hrun).
    + apply (@Forall2_right _ _ (returns_to (process_record R K opts)) _
               (docs_of result) _); [|exact H1].
      intros doc doc' Hrun. apply (renamed_has_no_id Hs Hne Hrun).
    + exact H2.
Qed.

Lemma second_pass_erases_renamed_identifier_witness :
  let this := lean_query (VObj [("rename", VStr "uid")]) in
  let result := ROne [("_id", VObjectId "65a1"); ("name", VStr "express")] in
  let first := run_hook standard strings_only this result in
  let second := run_hook standard strings_only this (delivered (fst first)) in
  List.length (docs_of (delivered (fst second))) = 1%nat
  /\ Forall (fun doc => lookup "uid" doc = Some VUndefined
                        /\ lookup "_id" doc = None)
       (docs_of (delivered (fst second))).
Proof.
  intros this result first second.
  apply (@second_pass_erases_renamed_identifier standard strings_only this
           result "uid");
    [reflexivity | discriminate | discriminate | discriminate
    | reflexivity | reflexivity].
Defined.

(* ------------------------------------------------------------------ *)
(** ** How the three rewrites compose *)

Lemma stringified_id_replace (doc : record) :
  stringified_id doc =
  replace_field "_id" (stringify_leaf (get_prop (VObj doc) "_id")) doc.
Proof.
  unfold stringified_id. simpl get_prop.
  destruct (lookup "_id" doc) as [id|] eqn:E.
  - destruct id; cbn [stringify_leaf];
      rewrite ?(replace_field_same _ _ E); try reflexivity.
    apply set_field_existing. congruence.
  - rewrite (replace_field_missing _ _ _ E). reflexivity.
Qed.

Lemma stringified_id_path (R : realm) (doc : record) :
  stringified_id doc = doc_rewritten R "_id" doc.
Proof. apply stringified_id_replace. Qed.

(** X9.  The identifier loop does to a record exactly what the path rewriter
    does at the path ["_id"]: [stringifyId: true] and
    [stringifyKeys: ["_id"]] are the same rewrite. *)
Theorem stringify_id_is_path_id :
  forall (R : realm) (doc : record),
    stringify_id_record doc = stringify_doc_at R (VStr "_id") doc.
Proof.
  intros R doc. rewrite stringify_id_record_pure, stringify_doc_at_eq.
  f_equal; [apply stringified_id_path|].
  unfold record_outcome, inherits.
  change (split_dot "_id") with ["_id"]. cbn [parts_key tl existsb].
  change (existsb (String.eqb "_id") object_prototype_members) with false.
  rewrite andb_false_r. reflexivity.
Qed.

Section ComposeFacts.
Variable R : realm.

Lemma doc_rewritten_strip_version (path : string) (doc : record) :
  doc_rewritten R path (strip_version doc) =
  strip_version (doc_rewritten R path doc).
Proof.
  unfold strip_version, doc_rewritten.
  set (parts := split_dot path). set (key := parts_key parts).
  destruct (String.eqb_spec key "__v") as [Heq|Hne].
  - rewrite Heq.
    destruct (lookup "__v" doc) as [c|] eqn:E.
    + rewrite get_prop_replace_field_eq by congruence.
      rewrite isInteger_parts_fn.
      destruct (isInteger (get_prop (VObj doc) "__v")) eqn:Hint;
        [|reflexivity].
      rewrite replace_field_missing by apply lookup_delete_field_eq.
      rewrite parts_fn_atom.
      * rewrite replace_field_get_prop. reflexivity.
      * destruct (get_prop (VObj doc) "__v"); try discriminate; reflexivity.
      * destruct (get_prop (VObj doc) "__v"); try discriminate; reflexivity.
    + repeat rewrite (replace_field_missing _ _ _ E).
      destruct (isInteger (get_prop (VObj doc) "__v")).
      * rewrite replace_field_missing by apply lookup_delete_field_eq.
        reflexivity.
      * apply replace_field_missing, E.
  - rewrite (get_prop_replace_field_neq _ doc Hne).
    destruct (isInteger (get_prop (VObj doc) "__v")); [|reflexivity].
    assert (Hget : get_prop (VObj (delete_field "__v" doc)) key =
                   get_prop (VObj doc) key).
    { simpl. rewrite lookup_delete_field_neq by congruence. reflexivity. }
    rewrite Hget. apply replace_delete_comm. exact Hne.
Qed.

Lemma parts_fn_leaf (parts : list string) (c : value) :
  parts_fn R parts (stringify_leaf c) = stringify_leaf (parts_fn R parts c).
Proof.
  destruct parts as [|k [|k' rest]]; cbn [parts_fn]; try reflexivity.
  symmetry. apply stringify_leaf_rewritten.
Qed.

Lemma doc_rewritten_stringified_id (path : string) (doc : record) :
  doc_rewritten R path (stringified_id doc) =
  stringified_id (doc_rewritten R path doc).
Proof.
  rewrite !stringified_id_replace. unfold doc_rewritten.
  set (parts := split_dot path). set (key := parts_key parts).
  destruct (String.eqb_spec key "_id") as [Heq|Hne].
  - rewrite Heq.
    rewrite (replace_field_get_twice "_id" (parts_fn R parts) stringify_leaf).
    rewrite (replace_field_get_twice "_id" stringify_leaf (parts_fn R parts)).
    rewrite parts_fn_leaf. reflexivity.
  - rewrite (get_prop_replace_field_neq _ doc Hne).
    assert (Hne' : "_id" <> key) by congruence.
    rewrite (get_prop_replace_field_neq _ doc Hne').
    apply replace_field_comm. exact Hne.
Qed.

Lemma stringified_id_strip_version (doc : record) :
  stringified_id (strip_version doc) = strip_version (stringified_id doc).
Proof. rewrite !(stringified_id_path R). apply doc_rewritten_strip_version. Qed.
End ComposeFacts.

(** X10.  Without [rename] the rewrites do not depend on their order: the
    removal of the version field commutes with every path rewrite and with
    the stringification of [_id], and the latter commutes with every path
    rewrite. *)
Theorem rewrites_commute :
  (forall (R : realm) (path : string) (doc : record),
      doc_rewritten R path (strip_version doc) =
      strip_version (doc_rewritten R path doc))
  /\ (forall doc : record,
         stringified_id (strip_version doc) =
         strip_version (stringified_id doc))
  /\ (forall (R : realm) (path : string) (doc : record),
         doc_rewritten R path (stringified_id doc) =
         stringified_id (doc_rewritten R path doc)).
Proof.
  split; [|split].
  - apply doc_rewritten_strip_version.
  - apply (stringified_id_strip_version quiet).
  - apply doc_rewritten_stringified_id.
Qed.

Lemma doc_rewritten_idem (R : realm) (path : string) (doc : record) :
  doc_rewritten R path (doc_rewritten R path doc) = doc_rewritten R path doc.
Proof.
  assert (H : VObj (doc_rewritten R path (doc_rewritten R path doc)) =
              VObj (doc_rewritten R path doc)).
  { rewrite <- !rewriteAt_obj, !rewriteAt_rewritten. apply rewritten_idem. }
  injection H as H. exact H.
Qed.

Lemma rewrite_all_comm (R : realm) (g : record -> record)
    (paths : list string) (doc : record) :
  (forall p d, doc_rewritten R p (g d) = g (doc_rewritten R p d)) ->
  rewrite_all R paths (g doc) = g (rewrite_all R paths doc).
Proof.
  intros Hg. revert doc. unfold rewrite_all.
  induction paths as [|p tl IH]; intros doc; simpl; [reflexivity|].
  rewrite Hg. apply IH.
Qed.

Lemma rewrite_all_idem (paths : list string) (doc : record) :
  rewrite_all quiet paths (rewrite_all quiet paths doc) =
  rewrite_all quiet paths doc.
Proof.
  revert doc. induction paths as [|p tl IH]; intros doc; [reflexivity|].
  change (rewrite_all quiet (p :: tl) doc)
    with (rewrite_all quiet tl (doc_rewritten quiet p doc)).
  change (rewrite_all quiet (p :: tl)
            (rewrite_all quiet tl (doc_rewritten quiet p doc)))
    with (rewrite_all quiet tl
            (doc_rewritten quiet p
               (rewrite_all quiet tl (doc_rewritten quiet p doc)))).
  rewrite <- (rewrite_all_comm quiet (doc_rewritten quiet p))
    by (intros q d; apply doc_rewritten_comm).
  rewrite doc_rewritten_idem. apply IH.
Qed.

Lemma strip_version_idem (doc : record) :
  strip_version (strip_version doc) = strip_version doc.
Proof.
  unfold strip_version.
  destruct (isInteger (get_prop (VObj doc) "__v")) eqn:E.
  - simpl. rewrite lookup_delete_field_eq. reflexivity.
  - rewrite E. reflexivity.
Qed.

Lemma pure_record_idem (opts : lean_options) (doc : record) :
  truthy (rename opts) = false ->
  pure_record opts (pure_record opts doc) = pure_record opts doc.
Proof.
  intros Hr. unfold pure_record, finish_record. rewrite Hr, orb_false_r.
  assert (Htail : forall d,
             match rename opts with
             | VStr s => if truthy (VStr s) then renamed_id s d else d
             | _ => d
             end = d).
  { intros d. destruct (rename opts) as [| |b|n|s|hex|ms|items|fields];
      try reflexivity. rewrite Hr. reflexivity. }
  cbv zeta. rewrite !Htail.
  set (A := fun d => if stringify_keys_condition opts
                     then rewrite_all quiet
                            (strings_before (items_of (stringifyKeys opts))) d
                     else d).
  set (B := fun d => if truthy (showVersion opts)
                     then d else strip_version d).
  set (C := fun d => if truthy (stringifyId opts)
                     then stringified_id d else d).
  change (C (B (A (C (B (A doc))))) = C (B (A doc))).
  assert (AA : forall d, A (A d) = A d).
  { intros d. unfold A. destruct (stringify_keys_condition opts); auto.
    apply rewrite_all_idem. }
  assert (BB : forall d, B (B d) = B d).
  { intros d. unfold B. destruct (truthy (showVersion opts)); auto.
    apply strip_version_idem. }
  assert (CC : forall d, C (C d) = C d).
  { intros d. unfold C. destruct (truthy (stringifyId opts)); auto.
    rewrite !(stringified_id_path quiet). apply doc_rewritten_idem. }
  assert (AB : forall d, A (B d) = B (A d)).
  { intros d. unfold A, B.
    destruct (stringify_keys_condition opts), (truthy (showVersion opts));
      auto.
    apply rewrite_all_comm. apply doc_rewritten_strip_version. }
  assert (AC : forall d, A (C d) = C (A d)).
  { intros d. unfold A, C.
    destruct (stringify_keys_condition opts), (truthy (stringifyId opts));
      auto.
    apply rewrite_all_comm. apply doc_rewritten_stringified_id. }
  assert (CB : forall d, C (B d) = B (C d)).
  { intros d. unfold B, C.
    destruct (truthy (showVersion opts)), (truthy (stringifyId opts));
      auto. apply (stringified_id_strip_version quiet). }
  rewrite AC, AB, AA, <- CB, BB, CC. reflexivity.
Qed.

(** X11.  Without [rename] the hook is idempotent where it succeeds: when
    it signals success on a result and again on what it delivered, the
    second run delivers what the first delivered. *)
Theorem hook_idempotent_without_rename :
  forall (R : realm) (K : value -> exn + string) (this : option query)
         (result : result_set),
    let opts := lean_options_of (get_prop (query_options this) "lean") in
    let first := run_hook R K this result in
    let second := run_hook R K this (delivered (fst first)) in
    truthy (rename opts) = false ->
    signals (fst first) = [Continue] ->
    signals (fst second) = [Continue] ->
    second = first.
Proof.
  intros R K this result opts first second Hr Hok1 Hok2.
  assert (Hplain : plain_rename (rename opts) = true).
  { unfold plain_rename. rewrite Hr. apply orb_true_r. }
  subst first second.
  destruct (gate this result) eqn:G.
  - rewrite (run_hook_closed R K this result G). cbn [fst delivered].
    rewrite (run_hook_closed R K this result G). reflexivity.
  - rewrite (run_hook_returned R K this result G Hplain Hok1) in *.
    cbn [fst delivered] in *. fold opts in Hok2 |- *.
    assert (G2 : gate this
                   (with_docs result (map (pure_record opts) (docs_of result)))
                 = false) by (rewrite gate_with_docs; exact G).
    rewrite (run_hook_returned R K this _ G2 Hplain Hok2). fold opts.
    rewrite docs_of_with_docs by apply length_map.
    rewrite with_docs_twice by (rewrite ?length_map; reflexivity).
    rewrite map_map. do 2 f_equal. f_equal.
    apply map_ext. intros doc. apply pure_record_idem, Hr.
Qed.

Lemma hook_idempotent_without_rename_witness :
  let this :=
    lean_query (VObj [("stringifyKeys", VArr [VStr "contributors._id"])]) in
  let result :=
    RMany [[("_id", VObjectId "65a1"); ("__v", VNum (NFin 0));
            ("contributors", VArr [VObj [("_id", VObjectId "77b2")]])]] in
  run_hook standard strings_only this
    (delivered (fst (run_hook standard strings_only this result))) =
  run_hook standard strings_only this result.
Proof.
  intros this result.
  apply (@hook_idempotent_without_rename standard strings_only this result);
    reflexivity.
Defined.

(* ------------------------------------------------------------------ *)
(** ** What the hook leaves alone *)

Section FrameFacts.
Variable R : realm.
Variable K : value -> exn + string.

Lemma process_record_frame (opts : lean_options) (doc doc' : record)
    (k : string) :
  returns_to (process_record R K opts) doc doc' ->
  k <> "_id" -> k <> "__v" ->
  property_key K (rename opts) <> inr k ->
  (forall p, In (VStr p) (items_of (stringifyKeys opts)) ->
             parts_key (split_dot p) <> k) ->
  lookup k doc' = lookup k doc.
Proof.
  intros Hrun Hid Hv Hkey Hpaths.
  destruct (process_record_returned Hrun) as (d3 & d4 & H3 & E4 & H5).
  assert (E3 : lookup k d3 = lookup k doc).
  { unfold returns_to in H3.
    destruct (stringify_keys_condition opts); cbn [when] in H3.
    - pose proof (keys_record_frame R opts doc Hpaths) as Hf.
      rewrite H3 in Hf. exact Hf.
    - injection H3 as <-. reflexivity. }
  assert (E4' : lookup k d4 = lookup k d3).
  { rewrite E4. destruct (truthy (showVersion opts)); [reflexivity|].
    apply lookup_strip_version, Hv. }
  rewrite <- E3, <- E4'. unfold returns_to in H5.
  destruct (truthy (stringifyId opts) || truthy (rename opts));
    cbn [when] in H5; [|injection H5 as <-; reflexivity].
  apply identity_record_returned in H5.
  destruct (truthy (rename opts)).
  - destruct H5 as (key & Hk & ->).
    rewrite lookup_renamed_id_neq;
      [apply lookup_stringified_id, Hid | | exact Hid].
    intros ->. apply Hkey, Hk.
  - subst doc'. apply lookup_stringified_id, Hid.
Qed.
End FrameFacts.

(** X12.  At the top level of a record the hook touches four places at
    most: [_id], [__v], the field [rename] names, and the fields named by
    the first segment of a path of [stringifyKeys].  Every other field of
    every record of a result processed with success is delivered with the
    value it had. *)
Theorem top_level_frame :
  forall (R : realm) (K : value -> exn + string) (this : option query)
         (result : result_set) (k : string),
    let opts := lean_options_of (get_prop (query_options this) "lean") in
    signals (fst (run_hook R K this result)) = [Continue] ->
    k <> "_id" -> k <> "__v" ->
    property_key K (rename opts) <> inr k ->
    (forall p, In (VStr p) (items_of (stringifyKeys opts)) ->
               parts_key (split_dot p) <> k) ->
    exists docs',
      delivered (fst (run_hook R K this result)) = with_docs result docs'
      /\ Forall2 (fun doc doc' => lookup k doc' = lookup k doc)
           (docs_of result) docs'.
Proof.
  intros R K this result k opts Hok Hid Hv Hkey Hpaths.
  destruct (gate this result) eqn:G.
  - rewrite (run_hook_closed R K _ _ G).
    exists (docs_of result). split.
    + cbn [fst delivered]. rewrite with_docs_docs_of. reflexivity.
    + induction (docs_of result); constructor; auto.
  - rewrite (run_hook_open R K _ _ G) in *.
    cbv zeta in *. fold opts in Hok |- *.
    destruct (process_docs R K opts (docs_of result)) as [docs' [e|[]]] eqn:E;
      cbn [fst signals delivered] in *; [discriminate|].
    exists docs'. split; [reflexivity|].
    apply process_docs_returns in E.
    eapply Forall2_impl; [|exact E].
    intros doc doc' Hrun. eapply process_record_frame; eauto.
Qed.

Lemma top_level_frame_witness :
  let this :=
    lean_query (VObj [("stringifyKeys", VArr [VStr "owner"]);
                      ("rename", VStr "uid")]) in
  let result :=
    ROne [("_id", VObjectId "65a1"); ("name", VStr "express");
          ("owner", VObjectId "77b2")] in
  exists docs',
    delivered (fst (run_hook standard strings_only this result)) =
    with_docs result docs'
    /\ Forall2 (fun doc doc' => lookup "name" doc' = lookup "name" doc)
         (docs_of result) docs'.
Proof.
  intros this result.
  apply (@top_level_frame standard strings_only this result "name");
    try reflexivity; try discriminate.
  intros p [Hp|[]]. injection Hp as <-. discriminate.
Defined.

(* ------------------------------------------------------------------ *)
(** * The single-purpose plugins *)

(** A plugin that is the gate, one loop and [next()], without a [try]: an
    exception of the callback leaves the hook before [next] is called. *)
Lemma gated_loop_run (callback : M record unit) (this : option query)
    (result : result_set) :
  run (bind get_state
         (fun st =>
            if gate this (delivered st) then next Continue
            else bind (on_docs (for_each callback)) (fun _ => next Continue)))
      result =
  if gate this result
  then ({| delivered := result; signals := [Continue] |}, inr tt)
  else
    let '(docs', r) := for_each callback (docs_of result) in
    match r with
    | inl e => ({| delivered := with_docs result docs'; signals := [] |}, inl e)
    | inr _ =>
        ({| delivered := with_docs result docs'; signals := [Continue] |},
         inr tt)
    end.
Proof.
  unfold run, bind at 1, get_state. cbn [delivered].
  destruct (gate this result); [reflexivity|].
  unfold bind, on_docs, next. cbn [delivered signals].
  destruct (for_each callback (docs_of result)) as [docs' [e|[]]]; reflexivity.
Qed.

Lemma gated_loop_pure (callback : M record unit) (f : record -> record)
    (this : option query) (result : result_set) :
  (forall doc, In doc (docs_of result) -> callback doc = (f doc, inr tt)) ->
  run (bind get_state
         (fun st =>
            if gate this (delivered st) then next Continue
            else bind (on_docs (for_each callback)) (fun _ => next Continue)))
      result =
  ({| delivered :=
        if gate this result then result
        else with_docs result (map f (docs_of result));
      signals := [Continue] |}, inr tt).
Proof.
  intros H. rewrite gated_loop_run.
  destruct (gate this result); [reflexivity|].
  assert (Hret : for_each callback (docs_of result) =
                 (map f (docs_of result), inr tt)).
  { apply for_each_Forall2. apply Forall2_map_right. exact H. }
  rewrite Hret. reflexivity.
Qed.

(** A plugin that reads the options with [this?.getOptions()]: once they are
    read, it is the plugin that reads them with [this?.getOptions?.()]. *)
Lemma read_then_gate (k : value -> M hook_state unit) (this : option query)
    (result : result_set) (options : value) :
  read_options this = inr options ->
  run (bind (lift (read_options this)) k) result =
  run (k (query_options this)) result.
Proof.
  intros H. rewrite (@read_options_query_options this options H).
  unfold run, bind at 1, lift. rewrite H. reflexivity.
Qed.

Lemma get_prop_rename_obj (v : value) (s : string) :
  get_prop v "rename" = VStr s -> exists fields, v = VObj fields.
Proof.
  intros H.
  destruct v as [| |b|n|s0|hex|ms|items|fields];
    try (cbv in H; discriminate); eauto.
Qed.

(** A receiver whose [lean] option holds a [rename]: its options can be
    read, [lean] is an object, and the gate is closed by an absent result
    only. *)
Lemma rename_options (this : option query) (s : string) :
  let lean := get_optional (query_options this) "lean" in
  get_prop lean "rename" = VStr s ->
  forall result,
    gate this result = negb (result_truthy result)
    /\ get_prop (query_options this) "lean" = lean
    /\ rename (lean_options_of lean) = VStr s
    /\ read_options this = inr (query_options this).
Proof.
  intros lean Hrename result. unfold gate, gate_on. fold lean.
  assert (Hobj : exists fields, lean = VObj fields).
  { apply get_prop_rename_obj with (s := s). exact Hrename. }
  destruct Hobj as [fields Hlean].
  assert (Hget : get_prop (query_options this) "lean" = lean).
  { unfold lean, get_optional in *.
    destruct (nullish (query_options this)); [discriminate | reflexivity]. }
  split; [|split; [|split]].
  - rewrite Hlean. reflexivity.
  - exact Hget.
  - exact Hrename.
  - apply (@rename_reads this s). rewrite Hget. exact Hrename.
Qed.

(** The two rename plugins: the options, the gate, the test of the new name,
    one loop and [next()]. *)
Lemma rename_loop_run (callback : value -> M record unit)
    (this : option query) (result : result_set) (s : string) :
  let lean := get_optional (query_options this) "lean" in
  get_prop lean "rename" = VStr s -> s <> "" ->
  run (bind (lift (read_options this))
         (fun options =>
            bind get_state
              (fun st =>
                 if gate_on options (delivered st) then next Continue
                 else
                   bind (lift (get_checked options "lean"))
                     (fun lean =>
                        if negb (truthy (get_optional lean "rename"))
                        then next Continue
                        else bind (on_docs
                                     (for_each
                                        (callback
                                           (get_optional lean "rename"))))
                               (fun _ => next Continue)))))
      result =
  run (bind get_state
         (fun st =>
            if gate this (delivered st) then next Continue
            else bind (on_docs (for_each (callback (VStr s))))
                   (fun _ => next Continue)))
      result.
Proof.
  intros lean Hrename Hs.
  destruct (rename_options this Hrename result) as (G & Hlean & _ & Hread).
  rewrite (read_then_gate _ _ _ Hread).
  unfold run. rewrite !bind_get_state. cbn [delivered].
  change (gate_on (query_options this) result) with (gate this result).
  destruct (gate this result) eqn:Hg; [reflexivity|].
  destruct (gate_passed _ _ Hg) as (Hopt & Htruthy & _).
  unfold get_checked. rewrite Hopt, Hlean. fold lean.
  unfold bind at 1, lift.
  assert (Hnew : get_optional lean "rename" = VStr s).
  { unfold get_optional at 1.
    destruct (get_prop_rename_obj _ Hrename) as [fields ->]. exact Hrename. }
  rewrite Hnew.
  assert (Ht : truthy (VStr s) = true).
  { simpl. destruct (String.eqb_spec s ""); [contradiction | reflexivity]. }
  rewrite Ht. reflexivity.
Qed.

(** X13.  plugins/rename.js moves the identifier as it is.  With a new name
    that is a non-empty string other than [__proto__], a record whose [_id]
    is missing or falsy is delivered unchanged (no field is created), and a
    record whose [_id] is an identifier is delivered without [_id] and with
    that identifier, not its string, under the new name.  The plugin signals
    success. *)
Theorem standalone_rename_moves_raw :
  forall (K : value -> exn + string) (this : option query)
         (result : result_set) (s : string),
    let lean := get_optional (query_options this) "lean" in
    get_prop lean "rename" = VStr s -> s <> "" -> s <> "__proto__" ->
    exists docs',
      run (Standalone.rename K this) result =
      ({| delivered := with_docs result docs'; signals := [Continue] |},
       inr tt)
      /\ Forall2
           (fun doc doc' =>
              (truthy (get_prop (VObj doc) "_id") = false -> doc' = doc)
              /\ (forall hex,
                     lookup "_id" doc = Some (VObjectId hex) -> s <> "_id" ->
                     lookup "_id" doc' = None
                     /\ lookup s doc' = Some (VObjectId hex)))
           (docs_of result) docs'.
Proof.
  intros K this result s lean Hrename Hs Hproto.
  set (f := fun doc : record =>
              if truthy (get_prop (VObj doc) "_id")
              then renamed_id s doc else doc).
  assert (Hrun : run (Standalone.rename K this) result =
                 ({| delivered :=
                       if gate this result then result
                       else with_docs result (map f (docs_of result));
                     signals := [Continue] |}, inr tt)).
  { unfold Standalone.rename.
    rewrite (rename_loop_run (Standalone.rename_callback K) this result
               Hrename Hs).
    apply gated_loop_pure. intros doc _.
    unfold Standalone.rename_callback, f, get_optional, rename_id_record.
    cbn [nullish property_key].
    destruct (truthy (get_prop (VObj doc) "_id")); reflexivity. }
  destruct (rename_options this Hrename result) as (G & _ & _).
  exists (map f (docs_of result)). split.
  - rewrite Hrun. destruct (gate this result) eqn:Hg; [|reflexivity].
    symmetry in G. apply negb_true_iff in G.
    destruct result; try discriminate; reflexivity.
  - apply Forall2_map_right. intros doc _. unfold f. split.
    + intros ->. reflexivity.
    + intros hex Hid Hne. simpl get_prop. rewrite Hid. cbn [truthy].
      destruct (lookup_renamed_id doc Hne Hproto) as [Hnone Hset].
      split; [exact Hnone|]. rewrite Hset. simpl. rewrite Hid. reflexivity.
Qed.

Lemma standalone_rename_moves_raw_witness :
  exists docs',
    run (Standalone.rename strings_only
           (lean_query (VObj [("rename", VStr "uid")])))
        (RMany [[("_id", VObjectId "65a1")]; [("name", VStr "express")]]) =
    ({| delivered :=
          with_docs
            (RMany [[("_id", VObjectId "65a1")]; [("name", VStr "express")]])
            docs';
        signals := [Continue] |}, inr tt)
    /\ Forall2
         (fun doc doc' =>
            (truthy (get_prop (VObj doc) "_id") = false -> doc' = doc)
            /\ (forall hex,
                   lookup "_id" doc = Some (VObjectId hex) -> "uid" <> "_id" ->
                   lookup "_id" doc' = None
                   /\ lookup "uid" doc' = Some (VObjectId hex)))
         [[("_id", VObjectId "65a1")]; [("name", VStr "express")]] docs'.
Proof.
  apply (@standalone_rename_moves_raw strings_only
           (lean_query (VObj [("rename", VStr "uid")]))
           (RMany [[("_id", VObjectId "65a1")]; [("name", VStr "express")]])
           "uid"); [reflexivity | discriminate | discriminate].
Defined.

Section AssignFacts.
Variable A : Type.
Implicit Types (fields : list (string * A)).

Lemma replace_field_app_other (k s : string) (w v : A) fields :
  k <> s ->
  replace_field k w (fields ++ [(s, v)]) = replace_field k w fields ++ [(s, v)].
Proof.
  intros Hne. induction fields as [|[k0 old] tl IH]; simpl.
  - destruct (String.eqb_spec s k); [congruence | reflexivity].
  - destruct (k0 =? k); [reflexivity|]. rewrite IH. reflexivity.
Qed.

Lemma replace_field_insert_index (i : N) (k s : string) (w v : A) fields :
  k <> s ->
  insert_index i s v (replace_field k w fields) =
  replace_field k w (insert_index i s v fields).
Proof.
  intros Hne.
  assert (Hhead : forall k0 old tl,
             replace_field k w ((s, v) :: (k0, old) :: tl) =
             (s, v) :: replace_field k w ((k0, old) :: tl)).
  { intros k0 old tl. cbn [replace_field].
    destruct (String.eqb_spec s k); [congruence | reflexivity]. }
  induction fields as [|[k0 old] tl IH].
  - simpl. destruct (String.eqb_spec s k); [congruence | reflexivity].
  - cbn [replace_field]. destruct (k0 =? k) eqn:E.
    + cbn [insert_index]. destruct (array_index k0) as [j|].
      * destruct (j <? i)%N.
        -- cbn [replace_field]. rewrite E. reflexivity.
        -- rewrite Hhead. cbn [replace_field]. rewrite E. reflexivity.
      * rewrite Hhead. cbn [replace_field]. rewrite E. reflexivity.
    + cbn [insert_index]. destruct (array_index k0) as [j|].
      * destruct (j <? i)%N.
        -- cbn [replace_field]. rewrite E, IH. reflexivity.
        -- rewrite Hhead. cbn [replace_field]. rewrite E. reflexivity.
      * rewrite Hhead. cbn [replace_field]. rewrite E. reflexivity.
Qed.

Lemma assign_replace_comm (k s : string) (w v : A) fields :
  k <> s ->
  assign s v (replace_field k w fields) =
  replace_field k w (assign s v fields).
Proof.
  intros Hne. unfold assign.
  rewrite (lookup_replace_field_neq _ _ Hne).
  destruct (lookup s fields).
  - apply replace_field_comm. congruence.
  - destruct (s =? "__proto__"); [reflexivity|].
    destruct (array_index s) as [i|].
    + apply replace_field_insert_index, Hne.
    + symmetry. apply replace_field_app_other, Hne.
Qed.

Lemma delete_assign_replace (k s : string) (w v : A) fields :
  delete_field k (assign s v (replace_field k w fields)) =
  delete_field k (assign s v fields).
Proof.
  destruct (String.eqb_spec k s) as [<-|Hne].
  - unfold assign. rewrite lookup_replace_field_eq.
    destruct (lookup k fields) eqn:E.
    + rewrite replace_field_twice. reflexivity.
    + rewrite (replace_field_missing _ _ _ E). reflexivity.
  - rewrite (assign_replace_comm _ _ _ Hne). apply delete_replace_same.
Qed.
End AssignFacts.

(** A record whose [_id] holds an identifier or a non-empty string. *)
Lemma plain_id_cases (doc : record) :
  (exists h, lookup "_id" doc = Some (VObjectId h)
             \/ (lookup "_id" doc = Some (VStr h) /\ h <> "")) ->
  exists h,
    truthy (get_prop (VObj doc) "_id") = true
    /\ stringify_leaf (get_prop (VObj doc) "_id") = VStr h
    /\ stringified_id doc = replace_field "_id" (VStr h) doc
    /\ lookup "_id" doc <> None.
Proof.
  intros (h & [H | [H Hne]]); exists h; unfold stringified_id; simpl get_prop;
    rewrite H; cbn [truthy stringify_leaf].
  - repeat split; try congruence.
    apply set_field_existing. congruence.
  - destruct (String.eqb_spec h ""); [contradiction|].
    repeat split; try congruence.
    symmetry. apply replace_field_same, H.
Qed.

(** X14.  On a result whose records all hold an identifier or a non-empty
    string under [_id], the [rename] plugin of plugins.js and the combined
    plugin deliver the same and signal the same, provided the combined
    plugin is told to keep the version field and is given no nested
    paths. *)
Theorem bundle_rename_agrees :
  forall (R : realm) (K T : value -> exn + string) (this : option query)
         (result : result_set) (s : string),
    let lean := get_optional (query_options this) "lean" in
    let opts := lean_options_of lean in
    get_prop lean "rename" = VStr s -> s <> "" ->
    truthy (showVersion opts) = true ->
    stringify_keys_condition opts = false ->
    Forall (fun doc =>
              exists h, lookup "_id" doc = Some (VObjectId h)
                        \/ (lookup "_id" doc = Some (VStr h) /\ h <> ""))
           (docs_of result) ->
    run (Bundle.rename K T this) result = run_hook R K this result.
Proof.
  intros R K T this result s lean opts Hrename Hs Hv Hc Hall.
  destruct (rename_options this Hrename result) as (G & Hlean & Hopt & Hread).
  set (f := fun doc : record =>
              renamed_id s (stringified_id doc)).
  assert (Hs' : truthy (VStr s) = true).
  { simpl. destruct (String.eqb_spec s ""); [contradiction | reflexivity]. }
  assert (Hopt' : rename opts = VStr s) by exact Hopt.
  assert (Hplain : plain_rename (rename opts) = true)
    by (rewrite Hopt'; reflexivity).
  unfold Bundle.rename.
  rewrite (rename_loop_run (Bundle.rename_callback K T) this result
             Hrename Hs).
  rewrite (gated_loop_pure _ f).
  - destruct (gate this result) eqn:Hg.
    + rewrite (run_hook_closed R K _ _ Hg), Hread. reflexivity.
    + symmetry. apply run_hook_pure; [exact Hg|].
      intros doc _. rewrite Hlean. fold lean. fold opts.
      rewrite (process_record_skips_keys R K opts doc Hplain Hc).
      unfold finish_record, f. rewrite Hv, Hopt', Hs', orb_true_r.
      reflexivity.
  - intros doc Hin.
    rewrite Forall_forall in Hall.
    destruct (@plain_id_cases doc (Hall doc Hin)) as (h & Ht & Hleaf & Hsid & Hp).
    unfold Bundle.rename_callback, get_optional, f, renamed_id.
    cbn [nullish property_key]. rewrite Ht.
    assert (Hstr : to_string T (get_prop (VObj doc) "_id") = inr h).
    { destruct (get_prop (VObj doc) "_id"); try discriminate;
        simpl in *; congruence. }
    rewrite Hstr, Hsid.
    rewrite (get_prop_replace_field_eq "_id" (VStr h) doc Hp).
    rewrite delete_assign_replace. reflexivity.
Qed.

Lemma bundle_rename_agrees_witness :
  let this :=
    lean_query (VObj [("rename", VStr "uid"); ("showVersion", VBool true)]) in
  let result :=
    RMany [[("_id", VObjectId "65a1"); ("__v", VNum (NFin 0))];
           [("_id", VStr "77b2")]] in
  run (Bundle.rename strings_only strings_only this) result =
  run_hook standard strings_only this result.
Proof.
  intros this result.
  apply (@bundle_rename_agrees standard strings_only strings_only this result
           "uid"); try reflexivity; try discriminate.
  repeat constructor.
  - exists "65a1". left. reflexivity.
  - exists "77b2". right. split; [reflexivity | discriminate].
Defined.

(** X15.  plugins/stringify.js assigns [_id] without a test: on a record
    that has no [_id] it creates the field, holding [undefined], at the end
    of the record, where the [stringifyId] plugin of plugins.js leaves the
    record as it is.  For a receiver whose options can be read, and on a
    result whose records all hold an identifier or a string under [_id],
    the two plugins deliver the same. *)
Theorem standalone_stringify_id_creates_field :
  (forall (T : value -> exn + string) (doc : record),
      lookup "_id" doc = None ->
      Standalone.stringify_id_callback T doc =
        (doc ++ [("_id", VUndefined)], inr tt)
      /\ stringify_id_record doc = (doc, inr tt))
  /\ (forall (T : value -> exn + string) (this : option query)
             (result : result_set),
         (exists options, read_options this = inr options) ->
         Forall (fun doc =>
                   exists h, lookup "_id" doc = Some (VObjectId h)
                             \/ lookup "_id" doc = Some (VStr h))
                (docs_of result) ->
         run (Standalone.stringify_id T this) result =
         run (Bundle.stringifyId this) result).
Proof.
  split.
  - intros T doc H. split.
    + unfold Standalone.stringify_id_callback, get_optional.
      cbn [nullish]. simpl get_prop. rewrite H. cbn [optional_toString nullish].
      rewrite (@set_field_missing _ "_id" VUndefined doc H). reflexivity.
    + rewrite stringify_id_record_pure. unfold stringified_id.
      simpl get_prop. rewrite H. reflexivity.
  - intros T this result [options Hread] Hall.
    unfold Standalone.stringify_id, Bundle.stringifyId.
    rewrite (read_then_gate _ _ _ Hread).
    change (gate_on (query_options this)) with (gate this).
    rewrite !gated_loop_run.
    destruct (gate this result); [reflexivity|].
    rewrite (for_each_ext_Forall (Standalone.stringify_id_callback T)
               stringify_id_record); [reflexivity|].
    eapply Forall_impl; [|exact Hall].
    intros doc (h & Hh). rewrite stringify_id_record_pure.
    unfold Standalone.stringify_id_callback, stringified_id, get_optional.
    cbn [nullish]. simpl get_prop.
    destruct Hh as [Hh|Hh]; rewrite Hh; cbn [optional_toString nullish to_string].
    + reflexivity.
    + rewrite set_field_existing by congruence.
      rewrite (replace_field_same _ _ Hh). reflexivity.
Qed.

Lemma standalone_stringify_id_creates_field_witness :
  Standalone.stringify_id_callback strings_only [("name", VStr "express")] =
    ([("name", VStr "express"); ("_id", VUndefined)], inr tt)
  /\ run (Standalone.stringify_id strings_only (lean_query (VBool true)))
       (RMany [[("_id", VObjectId "65a1")]; [("_id", VStr "77b2")]]) =
     run (Bundle.stringifyId (lean_query (VBool true)))
       (RMany [[("_id", VObjectId "65a1")]; [("_id", VStr "77b2")]]).
Proof.
  destruct standalone_stringify_id_creates_field as [Hmiss Hagree].
  split.
  - apply (Hmiss strings_only [("name", VStr "express")]). reflexivity.
  - apply Hagree.
    + eexists. reflexivity.
    + repeat constructor.
      * exists "65a1". left. reflexivity.
      * exists "77b2". right. reflexivity.
Defined.

Lemma truthy_length (items : list value) :
  truthy (get_optional (VArr items) "length") =
  negb (Nat.eqb (List.length items) 0).
Proof. destruct items; reflexivity. Qed.

(** X16.  The [stringifyKeys] plugin of plugins.js is the combined plugin
    with the other three rewrites switched off: with [showVersion] truthy
    and [stringifyId] and [rename] falsy, the two deliver the same result
    and make the same single call of [next], an error included, for every
    value of [stringifyKeys]. *)
Theorem bundle_stringifyKeys_agrees :
  forall (R : realm) (K : value -> exn + string) (this : option query)
         (result : result_set),
    let opts := lean_options_of (get_prop (query_options this) "lean") in
    truthy (showVersion opts) = true ->
    truthy (stringifyId opts) = false ->
    truthy (rename opts) = false ->
    run (Bundle.stringifyKeys R this) result = run_hook R K this result.
Proof.
  intros R K this result opts Hv Hi Hr.
  assert (Hread : read_options this = inr (query_options this)).
  { destruct (read_or_undefined this) as [H|[_ Hq]]; [exact H|].
    unfold opts in Hv. rewrite Hq in Hv. discriminate. }
  rewrite run_hook_eq, Hread.
  unfold run, Bundle.stringifyKeys, try_catch.
  rewrite bind_get_state. cbn [delivered].
  destruct (gate this result) eqn:G; [reflexivity|].
  destruct (gate_passed _ _ G) as (Hopt & Hlean & _).
  unfold get_checked. rewrite Hopt. unfold bind at 1, lift.
  assert (Hfound : get_optional (get_prop (query_options this) "lean")
                     "stringifyKeys" =
                   get_prop (get_prop (query_options this) "lean")
                     "stringifyKeys").
  { unfold get_optional. rewrite (truthy_not_nullish _ Hlean). reflexivity. }
  cbv zeta. rewrite !Hfound. fold opts.
  unfold process_docs. rewrite Hv, Hi, Hr. cbn [negb orb when].
  unfold stringify_keys_condition, stringify_keys_record.
  assert (Hkeys : stringifyKeys opts =
                  default_to (VArr [])
                    (get_prop (get_prop (query_options this) "lean")
                       "stringifyKeys")) by reflexivity.
  rewrite Hkeys.
  destruct (get_prop (get_prop (query_options this) "lean") "stringifyKeys")
    as [| |b|n|s|hex|ms|items|fields];
    try (simpl; rewrite with_docs_docs_of; reflexivity).
  cbn [nullish default_to isArray negb orb andb items_of].
  rewrite truthy_length.
  destruct (Nat.eqb (List.length items) 0); cbn [negb when].
  - unfold bind, next, ret. cbn [delivered signals app].
    rewrite with_docs_docs_of. reflexivity.
  - unfold bind, on_docs, next, ret. cbn [delivered signals].
    destruct (for_each _ (docs_of result)) as [docs' [e|[]]]; reflexivity.
Qed.

Lemma bundle_stringifyKeys_agrees_witness :
  let this :=
    lean_query (VObj [("stringifyKeys",
                       VArr [VStr "owner"; VStr "constructor.caller"]);
                      ("showVersion", VBool true);
                      ("stringifyId", VBool false)]) in
  let result := RMany [[("_id", VObjectId "65a1"); ("owner", VObjectId "77b2")]] in
  run (Bundle.stringifyKeys standard this) result =
  run_hook standard strings_only this result.
Proof.
  intros this result.
  apply (@bundle_stringifyKeys_agrees standard strings_only this result);
    reflexivity.
Defined.

(** X17.  For a receiver whose options can be read: when no nested path and
    no new name are requested, the version field is to go and [_id] is to be
    stringified, the combined plugin delivers what the [deversion] plugin
    followed by the [stringifyId] plugin of plugins.js deliver, with the
    same signal. *)
Theorem combined_is_deversion_then_stringifyId :
  forall (R : realm) (K : value -> exn + string) (this : option query)
         (result : result_set),
    let opts := lean_options_of (get_prop (query_options this) "lean") in
    (exists options, read_options this = inr options) ->
    stringify_keys_condition opts = false ->
    truthy (showVersion opts) = false ->
    truthy (stringifyId opts) = true ->
    truthy (rename opts) = false ->
    run (Bundle.stringifyId this)
      (delivered (fst (run (Bundle.deversion this) result))) =
    run_hook R K this result.
Proof.
  intros R K this result opts [options Hread] Hc Hv Hi Hr.
  assert (Hplain : plain_rename (rename opts) = true).
  { unfold plain_rename. rewrite Hr. apply orb_true_r. }
  unfold Bundle.deversion, Bundle.stringifyId.
  rewrite (gated_loop_pure deversion_record strip_version)
    by (intros doc _; apply deversion_record_pure).
  cbn [fst delivered].
  rewrite (gated_loop_pure stringify_id_record stringified_id)
    by (intros doc _; apply stringify_id_record_pure).
  destruct (gate this result) eqn:G.
  - rewrite G, (run_hook_closed R K _ _ G), Hread. reflexivity.
  - rewrite gate_with_docs, G.
    rewrite docs_of_with_docs by apply length_map.
    rewrite with_docs_twice by (rewrite ?length_map; reflexivity).
    rewrite map_map. symmetry.
    apply run_hook_pure; [exact G|].
    intros doc _. fold opts.
    rewrite (process_record_skips_keys R K opts doc Hplain Hc).
    unfold finish_record. rewrite Hv, Hi, Hr. cbn [orb].
    destruct (rename opts) as [| |b|n|s|hex|ms|items|fields];
      try reflexivity.
    rewrite Hr. reflexivity.
Qed.

Lemma combined_is_deversion_then_stringifyId_witness :
  let this := lean_query (VBool true) in
  let result := ROne [("_id", VObjectId "65a1"); ("__v", VNum (NFin 1))] in
  run (Bundle.stringifyId this)
    (delivered (fst (run (Bundle.deversion this) result))) =
  run_hook standard strings_only this result.
Proof.
  intros this result.
  apply (@combined_is_deversion_then_stringifyId standard strings_only this
           result); try reflexivity.
  eexists. reflexivity.
Defined.

(* ------------------------------------------------------------------ *)
(** * The earlier combined plugin *)

(** Two runs of the three loops that differ in the last callback only. *)
Lemma three_loops_ext_last (P : record -> Prop) (c3 : bool)
    (b3 : M record unit) (c4 : bool) (b4 : M record unit) (c5 : bool)
    (b5 b5' : M record unit) (docs : list record) :
  (forall d, P d -> P (fst (b3 d))) ->
  (forall d, P d -> P (fst (b4 d))) ->
  (forall d, P d -> b5 d = b5' d) ->
  Forall P docs ->
  three_loops c3 b3 c4 b4 c5 b5 docs = three_loops c3 b3 c4 b4 c5 b5' docs.
Proof.
  intros H3 H4 H5 Hdocs. unfold three_loops, bind.
  assert (P3 : Forall P (fst (when c3 (for_each b3) docs))).
  { destruct c3; cbn [when]; [|exact Hdocs].
    apply for_each_invariant; assumption. }
  destruct (when c3 (for_each b3) docs) as [docs3 [e|[]]]; [reflexivity|].
  cbn [fst] in P3.
  assert (P4 : Forall P (fst (when c4 (for_each b4) docs3))).
  { destruct c4; cbn [when]; [|exact P3].
    apply for_each_invariant; assumption. }
  destruct (when c4 (for_each b4) docs3) as [docs4 [e|[]]]; [reflexivity|].
  cbn [fst] in P4.
  destruct c5; cbn [when]; [|reflexivity].
  apply for_each_ext_Forall.
  eapply Forall_impl; [|exact P4]. exact H5.
Qed.

Section LegacyFacts.
Variable R : realm.
Variable K T : value -> exn + string.

Lemma legacy_run_hook_eq (this : option query) (result : result_set) :
  Legacy.run_hook R T this result =
  match read_options this with
  | inl e =>
      ({| delivered := result; signals := [ContinueWithError e] |}, inr tt)
  | inr _ =>
      if gate this result
      then ({| delivered := result; signals := [Continue] |}, inr tt)
      else
        let lean := get_prop (query_options this) "lean" in
        let fields := default_to (VArr []) (get_prop lean "fields") in
        let '(docs', r) :=
          three_loops
            (isArray fields && truthy (get_optional fields "length"))
            (for_values (stringify_doc_at R) (items_of fields))
            (negb (truthy (default_to (VBool false) (get_prop lean "__v"))))
            deversion_record
            (truthy (default_to (VBool true) (get_prop lean "_id")))
            (Standalone.stringify_id_callback T)
            (docs_of result) in
        ({| delivered := with_docs result docs';
            signals := [match r with
                        | inl e => ContinueWithError e
                        | inr _ => Continue
                        end] |}, inr tt)
  end.
Proof.
  unfold Legacy.run_hook, Legacy.mongooseLeanExtension, try_catch,
    Legacy.hook_body.
  unfold bind at 1, lift at 1.
  destruct (read_options this) as [e|options] eqn:Hread; [reflexivity|].
  assert (Hq : query_options this = options)
    by (apply read_options_query_options, Hread).
  subst options.
  rewrite bind_get_state. cbn [delivered].
  change (gate_on (query_options this) result) with (gate this result).
  destruct (gate this result) eqn:G; [reflexivity|].
  destruct (gate_passed _ _ G) as (Hopt & Hlean & _).
  unfold get_checked. rewrite Hopt. unfold bind at 1, lift at 1.
  unfold destructure. rewrite (truthy_not_nullish _ Hlean).
  unfold bind at 1, lift at 1. cbv zeta.
  rewrite three_loops_on_docs.
  unfold bind, on_docs, next. cbn [delivered signals].
  destruct (three_loops _ _ _ _ _ _ (docs_of result)) as [docs' [e|[]]];
    reflexivity.
Qed.

(** X18.  The earlier combined plugin, with its options [fields], [__v] and
    [_id], and the present one, with [stringifyKeys], [showVersion] and
    [stringifyId] given the same values and no [rename], deliver the same
    and signal the same on every result whose records hold an identifier or
    a string under [_id]. *)
Theorem legacy_agrees :
  forall (lean_old lean_new : value) (result : result_set),
    truthy lean_old = true -> truthy lean_new = true ->
    get_prop lean_old "fields" = get_prop lean_new "stringifyKeys" ->
    get_prop lean_old "__v" = get_prop lean_new "showVersion" ->
    get_prop lean_old "_id" = get_prop lean_new "stringifyId" ->
    truthy (get_prop lean_new "rename") = false ->
    Forall (fun doc =>
              exists h, lookup "_id" doc = Some (VObjectId h)
                        \/ lookup "_id" doc = Some (VStr h))
           (docs_of result) ->
    Legacy.run_hook R T (lean_query lean_old) result =
    run_hook R K (lean_query lean_new) result.
Proof.
  intros lean_old lean_new result Hold Hnew Hf Hv Hi Hr Hall.
  rewrite legacy_run_hook_eq, run_hook_eq.
  change (read_options (lean_query lean_old))
    with (@inr exn value (VObj [("lean", lean_old)])).
  change (read_options (lean_query lean_new))
    with (@inr exn value (VObj [("lean", lean_new)])).
  cbv iota beta.
  assert (G : gate (lean_query lean_old) result =
              gate (lean_query lean_new) result).
  { unfold gate, gate_on.
    change (get_optional (query_options (lean_query lean_old)) "lean")
      with lean_old.
    change (get_optional (query_options (lean_query lean_new)) "lean")
      with lean_new.
    rewrite Hold, Hnew. reflexivity. }
  rewrite G. destruct (gate (lean_query lean_new) result); [reflexivity|].
  assert (Hq : forall l, get_prop (query_options (lean_query l)) "lean" = l)
    by reflexivity.
  cbv zeta. rewrite !Hq, Hf, Hv, Hi.
  set (P := fun doc : record => exists h, id_settled (VStr h) doc).
  assert (Hloops :
    three_loops
      (isArray (default_to (VArr []) (get_prop lean_new "stringifyKeys"))
       && truthy (get_optional
                    (default_to (VArr []) (get_prop lean_new "stringifyKeys"))
                    "length"))
      (for_values (stringify_doc_at R)
         (items_of (default_to (VArr []) (get_prop lean_new "stringifyKeys"))))
      (negb (truthy (default_to (VBool false)
                       (get_prop lean_new "showVersion"))))
      deversion_record
      (truthy (default_to (VBool true) (get_prop lean_new "stringifyId")))
      (Standalone.stringify_id_callback T) (docs_of result) =
    process_docs R K (lean_options_of lean_new) (docs_of result)).
  { unfold process_docs, lean_options_of, stringify_keys_condition,
      stringify_keys_record.
    cbn [stringifyKeys showVersion stringifyId rename].
    rewrite Hr, orb_false_r.
    apply (@three_loops_ext_last P).
    - intros d (h & Hd). exists h.
      apply (for_values_invariant (stringify_doc_at R)
               (id_settled (VStr h))); [|exact Hd].
      intros path y Hy. apply stringify_doc_at_step; [exact Hy|].
      intros p. apply id_settled_doc_rewritten, Hy.
    - intros d (h & Hd). exists h. rewrite deversion_record_pure. cbn [fst].
      unfold id_settled, strip_version in *.
      destruct (isInteger _); [|exact Hd].
      simpl get_prop in *.
      rewrite lookup_delete_field_neq by discriminate. exact Hd.
    - intros d (h & Hatom & Hleaf).
      unfold identity_record, bind. rewrite stringify_id_record_pure.
      rewrite Hr. cbn [when]. unfold ret.
      unfold Standalone.stringify_id_callback, stringified_id, get_optional.
      cbn [nullish]. simpl get_prop in *.
      destruct (lookup "_id" d) as [id|] eqn:E; [|discriminate].
      destruct id; try discriminate; cbn [optional_toString nullish to_string].
      + rewrite set_field_existing by congruence.
        rewrite (replace_field_same _ _ E). reflexivity.
      + reflexivity.
    - eapply Forall_impl; [|exact Hall].
      intros doc (h & Hh). exists h. unfold id_settled. simpl get_prop.
      destruct Hh as [Hh|Hh]; rewrite Hh; split; reflexivity. }
  rewrite Hloops. reflexivity.
Qed.
End LegacyFacts.

Lemma legacy_agrees_witness :
  let result :=
    RMany [[("_id", VObjectId "65a1"); ("__v", VNum (NFin 0));
            ("contributors", VArr [VObj [("_id", VObjectId "77b2")]])]] in
  Legacy.run_hook standard strings_only
    (lean_query (VObj [("fields", VArr [VStr "contributors._id"]);
                       ("_id", VBool true)]))
    result =
  run_hook standard strings_only
    (lean_query (VObj [("stringifyKeys", VArr [VStr "contributors._id"]);
                       ("stringifyId", VBool true)]))
    result.
Proof.
  intros result.
  apply (@legacy_agrees standard strings_only strings_only
           (VObj [("fields", VArr [VStr "contributors._id"]);
                  ("_id", VBool true)])
           (VObj [("stringifyKeys", VArr [VStr "contributors._id"]);
                  ("stringifyId", VBool true)]) result); try reflexivity.
  repeat constructor. exists "65a1". left. reflexivity.
Defined.

(* ------------------------------------------------------------------ *)
(** * The version plugin on its own *)

(** X19.  The [deversion] plugin of plugins.js never raises and calls [next]
    once without an argument, whatever the query and the result are; it
    delivers the result with the version field stripped from each record, or
    the result itself when the gate is closed, and a second run on what it
    delivered changes nothing. *)
Theorem deversion_plugin_settles :
  forall (this : option query) (result : result_set),
    let after := run (Bundle.deversion this) result in
    after =
      ({| delivered :=
            if gate this result then result
            else with_docs result (map strip_version (docs_of result));
          signals := [Continue] |}, inr tt)
    /\ run (Bundle.deversion this) (delivered (fst after)) = after.
Proof.
  intros this result after.
  assert (Hrun : forall res,
             run (Bundle.deversion this) res =
             ({| delivered :=
                   if gate this res then res
                   else with_docs res (map strip_version (docs_of res));
                 signals := [Continue] |}, inr tt)).
  { intros res. unfold Bundle.deversion.
    apply (gated_loop_pure deversion_record strip_version).
    intros doc _. apply deversion_record_pure. }
  split; [apply Hrun|].
  unfold after. rewrite (Hrun result). cbn [fst delivered].
  rewrite Hrun. destruct (gate this result) eqn:G.
  - rewrite G. reflexivity.
  - rewrite gate_with_docs, G.
    rewrite docs_of_with_docs by apply length_map.
    rewrite with_docs_twice by (rewrite ?length_map; reflexivity).
    rewrite map_map.
    do 2 f_equal. f_equal. apply map_ext. intros d. apply strip_version_idem.
Qed.
